(** * go-ironrdp-proxy: frame reader, RDCleanPath codec and WebSocket adapter

    A shallow embedding of the Go packages [tpkt], [rdcleanpath] and [proxy]
    and the properties of their natural-language specification.

    Conventions.
    - A Go [byte] is a [Byte.byte]; [b2z] gives its value and [z2b] is Go's
      truncating conversion [byte(x)].
    - A Go [[]byte] whose nil-ness nobody observes is a [list byte]; a Go
      [int] is a [Z].
    - A Go [error] is a value of [error]; a Go function returning
      [(T, error)] returns a [result T]. *)

From Stdlib Require Import String Ascii.
From Stdlib Require Import Strings.Byte.
From Stdlib Require Import ZArith Lia Bool List.
Import ListNotations.

Local Open Scope Z_scope.

(** ** Bytes *)

Definition b2z (b : byte) : Z := Z.of_N (Byte.to_N b).

Definition z2b (z : Z) : byte :=
  match Byte.of_N (Z.to_N (z mod 256)) with
  | Some b => b
  | None => x00
  end.

(** ** Errors

    Sentinel errors are constructors.  [Errorf fmt args] is an error made by
    [errors.New] or by [fmt.Errorf] without the verb [%w] ([fmt] is the format
    string, [args] the numbers formatted into it); [Wrapf fmt args e] is
    [fmt.Errorf] with one [%w] that wraps [e].  [asn1_StructuralError] and
    [asn1_SyntaxError] are the two error types of [encoding/asn1]. *)

Inductive error : Type :=
| io_EOF
| io_ErrUnexpectedEOF
| io_failure (msg : string)
| ErrInsufficientData
| ErrInvalidAction
| ErrInvalidLength
| asn1_StructuralError (msg : string)
| asn1_SyntaxError (msg : string)
| Errorf (fmt : string) (args : list Z)
| Wrapf (fmt : string) (args : list Z) (e : error).

Definition error_eq_dec (x y : error) : {x = y} + {x <> y}.
Proof.
  decide equality; try apply string_dec; apply (list_eq_dec Z.eq_dec).
Defined.

Definition error_eqb (x y : error) : bool :=
  if error_eq_dec x y then true else false.

(** [errors.Is]: [target] is [err] or one of the errors [err] wraps. *)
Fixpoint Is (err target : error) : bool :=
  error_eqb err target ||
  match err with
  | Wrapf _ _ e => Is e target
  | _ => false
  end.

Inductive result (A : Type) : Type :=
| Ok (a : A)
| Fail (e : error).
Arguments Ok {A} a.
Arguments Fail {A} e.

Definition is_Fail {A} (r : result A) : bool :=
  match r with Ok _ => false | Fail _ => true end.

Definition bind {A B} (r : result A) (k : A -> result B) : result B :=
  match r with
  | Ok a => k a
  | Fail e => Fail e
  end.

Notation "x <- r ;; k" := (bind r (fun x => k))
  (at level 61, r at next level, right associativity).
Notation "' p <- r ;; k" := (bind r (fun x => let p := x in k))
  (at level 61, p pattern, r at next level, right associativity).

(** ** Readers

    An [io.Reader] is the data it will still deliver, in the pieces in which
    successive [Read] calls deliver it, and the error it reports once the data
    is exhausted ([io.EOF] for a stream that was closed cleanly).  Such a
    reader always ends: a [Read] that waits for a peer which neither sends
    nor closes has no counterpart here. *)

Record Reader : Type := mkReader {
  chunks : list (list byte);
  final : error
}.

(** The bytes the reader has not delivered yet. *)
Definition pending (r : Reader) : list byte := concat (chunks r).

Definition restChunks (c : list byte) (cs : list (list byte)) : list (list byte) :=
  match c with
  | [] => cs
  | _ :: _ => c :: cs
  end.

(** One call [r.Read(p)] with [len(p) = n], [n > 0]: the bytes copied into
    [p], the error, and the reader afterwards. *)
Definition Read (r : Reader) (n : nat) : list byte * option error * Reader :=
  match chunks r with
  | [] => ([], Some (final r), r)
  | c :: cs =>
      (firstn n c, None, mkReader (restChunks (skipn n c) cs) (final r))
  end.

(** The loop of [io.ReadAtLeast], [for n < min && err == nil], entered with
    [got] already read and [need = min - n] bytes missing. *)
Fixpoint readLoop (cs : list (list byte)) (fin : error) (need : nat)
  (got : list byte) {struct cs} : list byte * option error * Reader :=
  match need with
  | O => (got, None, mkReader cs fin)
  | S _ =>
      match cs with
      | [] => (got, Some fin, mkReader [] fin)
      | c :: cs' =>
          if (need <=? length c)%nat
          then (got ++ firstn need c, None,
                mkReader (restChunks (skipn need c) cs') fin)
          else readLoop cs' fin (need - length c)%nat (got ++ c)
      end
  end.

(** [io.ReadFull(r, buf)] with [len(buf) = n]: the bytes read, the error and
    the reader afterwards.  A read that filled the buffer reports no error;
    [io.EOF] after some but not all bytes becomes [io.ErrUnexpectedEOF]. *)
Definition ReadFull (r : Reader) (n : nat) : list byte * option error * Reader :=
  match readLoop (chunks r) (final r) n [] with
  | (got, e, r') =>
      if (n <=? length got)%nat then (got, None, r')
      else
        match got, e with
        | _ :: _, Some io_EOF => (got, Some io_ErrUnexpectedEOF, r')
        | _, _ => (got, e, r')
        end
  end.

(** ** Package tpkt *)

Module tpkt.

Inductive Action : Type :=
| ActionUnknown
| ActionFastPath
| ActionX224.

Record PduInfo : Type := mkPduInfo {
  Action_ : Action;
  Length : Z
}.

Definition MinHeaderSize : Z := 1.
Definition FastPathMinSize : Z := 2.
Definition FastPathLargeSize : Z := 3.
Definition TPKTHeaderSize : Z := 4.

(** Go's [uint16(x)]. *)
Definition uint16 (x : Z) : Z := x mod 65536.

(** [binary.BigEndian.Uint16] on the two bytes [hi], [lo]. *)
Definition BigEndian_Uint16 (hi lo : byte) : Z :=
  Z.lor (uint16 (Z.shiftl (b2z hi) 8)) (b2z lo).

Definition len (buf : list byte) : Z := Z.of_nat (length buf).

(** [buf[i]], with [x00] standing for the index panic the callers exclude
    by their length checks. *)
Definition idx (buf : list byte) (i : nat) : byte := nth i buf x00.

Definition FindPduSize (buf : list byte) : result PduInfo :=
  if len buf <? MinHeaderSize then Fail ErrInsufficientData
  else
    let fpOutputHeader := idx buf 0 in
    let actionCode := Z.land (b2z fpOutputHeader) 3 in
    if actionCode =? 0 then
      if len buf <? FastPathMinSize then Fail ErrInsufficientData
      else
        let a := idx buf 1 in
        if negb (Z.land (b2z a) 128 =? 0) then
          if len buf <? FastPathLargeSize then Fail ErrInsufficientData
          else
            let b := idx buf 2 in
            let length :=
              Z.lor (uint16 (Z.shiftl (uint16 (Z.land (b2z a) 127)) 8))
                    (uint16 (b2z b)) in
            if length =? 0 then Ok (mkPduInfo ActionFastPath 0)
            else Ok (mkPduInfo ActionFastPath length)
        else
          let length := uint16 (b2z a) in
          if length =? 0 then Ok (mkPduInfo ActionFastPath 0)
          else Ok (mkPduInfo ActionFastPath length)
    else if actionCode =? 3 then
      if len buf <? TPKTHeaderSize then Fail ErrInsufficientData
      else if negb (b2z (idx buf 0) =? 3) then
        Fail (Errorf "invalid TPKT header version: expected 0x03, got 0x%x"
               [b2z (idx buf 0)])
      else
        let length := BigEndian_Uint16 (idx buf 2) (idx buf 3) in
        if length <? TPKTHeaderSize then
          Fail (Wrapf "%w: TPKT length (%d) is smaller than header size (%d)"
                 [length; TPKTHeaderSize] ErrInvalidLength)
        else Ok (mkPduInfo ActionX224 length)
    else
      Fail (Wrapf "%w: unknown action code %d (from header byte 0x%x)"
             [actionCode; b2z fpOutputHeader] ErrInvalidAction).

(** The conversion every read of [ReadFrame] applies to its error:
    [if err == io.EOF { return ..., io.ErrUnexpectedEOF }; return ..., err]. *)
Definition eofToUnexpected (e : error) : error :=
  if error_eqb e io_EOF then io_ErrUnexpectedEOF else e.

(** [ReadFrame]: the frame and its action, or the error (every error return
    of the source carries [nil] and [ActionUnknown]), and the reader
    afterwards. *)
Definition ReadFrame (reader : Reader) : result (list byte * Action) * Reader :=
  match ReadFull reader (Z.to_nat MinHeaderSize) with
  | (_, Some e, r1) => (Fail (eofToUnexpected e), r1)
  | (headerBuf, None, r1) =>
      let fpOutputHeader := idx headerBuf 0 in
      let actionCode := Z.land (b2z fpOutputHeader) 3 in
      if actionCode =? 0 then
        let additionalBytes := FastPathMinSize - MinHeaderSize in
        match ReadFull r1 (Z.to_nat additionalBytes) with
        | (_, Some e, r2) => (Fail (eofToUnexpected e), r2)
        | (headerExtension, None, r2) =>
            let headerBuf := headerBuf ++ headerExtension in
            let a := idx headerBuf 1 in
            let readExt :=
              if negb (Z.land (b2z a) 128 =? 0) then
                match ReadFull r2 1 with
                | (_, Some e, r3) => (Fail (eofToUnexpected e), r3)
                | (lengthExtension, None, r3) =>
                    (Ok (headerBuf ++ lengthExtension), r3)
                end
              else (Ok headerBuf, r2) in
            match readExt with
            | (Fail e, r3) => (Fail e, r3)
            | (Ok headerBuf, r3) =>
                match FindPduSize headerBuf with
                | Fail e =>
                    (Fail (Wrapf "failed to parse Fast-Path header: %w" [] e), r3)
                | Ok pduInfo =>
                    match ReadFull r3 (Z.to_nat (Length pduInfo)) with
                    | (_, Some e, r4) => (Fail (eofToUnexpected e), r4)
                    | (frameBuffer, None, r4) =>
                        (Ok (headerBuf ++ frameBuffer, ActionFastPath), r4)
                    end
                end
            end
        end
      else if actionCode =? 3 then
        let additionalBytes := TPKTHeaderSize - MinHeaderSize in
        match ReadFull r1 (Z.to_nat additionalBytes) with
        | (_, Some e, r2) => (Fail (eofToUnexpected e), r2)
        | (headerExtension, None, r2) =>
            let headerBuf := headerBuf ++ headerExtension in
            match FindPduSize headerBuf with
            | Fail e => (Fail (Wrapf "failed to parse TPKT header: %w" [] e), r2)
            | Ok pduInfo =>
                let payloadSize := Length pduInfo - TPKTHeaderSize in
                if payloadSize <? 0 then
                  (Fail (Errorf "invalid TPKT payload size calculated" []), r2)
                else if 0 <? payloadSize then
                  match ReadFull r2 (Z.to_nat payloadSize) with
                  | (_, Some e, r3) => (Fail (eofToUnexpected e), r3)
                  | (frameBuffer, None, r3) =>
                      (Ok (headerBuf ++ frameBuffer, ActionX224), r3)
                  end
                else (Ok (headerBuf ++ [], ActionX224), r2)
            end
        end
      else
        (Fail (Wrapf "%w: unknown action code %d (from header byte 0x%x)"
                [actionCode; b2z fpOutputHeader] ErrInvalidAction), r1)
  end.

(** The number of bytes a frame that begins with [buf] takes on the wire,
    header included, as [ReadFrame] derives it from [FindPduSize]: a
    Fast-Path length counts the payload after a header of 2 or 3 bytes, a
    TPKT length counts the whole frame. *)
Definition frameSize (buf : list byte) : option Z :=
  match FindPduSize buf with
  | Fail _ => None
  | Ok pduInfo =>
      match Action_ pduInfo with
      | ActionFastPath =>
          if negb (Z.land (b2z (idx buf 1)) 128 =? 0)
          then Some (FastPathLargeSize + Length pduInfo)
          else Some (FastPathMinSize + Length pduInfo)
      | ActionX224 => Some (Length pduInfo)
      | ActionUnknown => None
      end
  end.

End tpkt.


(** ** Package encoding/asn1

    [rdcleanpath.Pdu.Marshal] and [rdcleanpath.Unmarshal] hand their work to
    Go's [encoding/asn1], which drives the DER codec by reflection over the
    struct type and its [asn1:"..."] field tags.  This module holds the
    codec's routines that do not depend on the struct type; module
    [rdcleanpath] instantiates them field by field, as reflection does.

    - The decoder works on the input that is left: a Go pair
      [(bytes, offset)] is the list [bytes[offset:]], so [offset ==
      len(bytes)] reads "the list is empty".
    - A Go [int] or [int64] is a [Z] in the range of [int64]; shifts are
      [Z.shiftl] and [Z.shiftr], which on a negative number is Go's
      arithmetic [>>].
    - The loops of the encoder over a number run on a counter that is as
      large as an [int64] needs.
    - Every tag number this program encodes is below 31, so the encoder of
      tag numbers of 31 and more is not needed; the decoder reads them. *)

Module asn1.

Definition ClassUniversal : Z := 0.
Definition ClassApplication : Z := 1.
Definition ClassContextSpecific : Z := 2.
Definition ClassPrivate : Z := 3.

Definition TagInteger : Z := 2.
Definition TagOctetString : Z := 4.
Definition TagUTF8String : Z := 12.
Definition TagSequence : Z := 16.
Definition TagNumericString : Z := 18.
Definition TagPrintableString : Z := 19.
Definition TagT61String : Z := 20.
Definition TagIA5String : Z := 22.
Definition TagUTCTime : Z := 23.
Definition TagGeneralizedTime : Z := 24.
Definition TagGeneralString : Z := 27.
Definition TagBMPString : Z := 30.

Record tagAndLength : Type := mkTagAndLength {
  t_class : Z;
  t_tag : Z;
  t_length : Z;
  t_isCompound : bool
}.

Definition len (bytes : list byte) : Z := Z.of_nat (length bytes).

(** *** Encoding *)

(** [byte(i >> ((n-1)*8))], ..., [byte(i)]: the [n] low bytes of [i], most
    significant first.  It is the loop of [appendLength] and of
    [int64Encoder.Encode]. *)
Fixpoint bigEndianBytes (n : nat) (i : Z) : list byte :=
  match n with
  | O => []
  | S m => z2b (Z.shiftr i (Z.of_nat m * 8)) :: bigEndianBytes m i
  end.

(** [for i > 255 { numBytes++; i >>= 8 }] *)
Fixpoint lengthLength_loop (count : nat) (i numBytes : Z) : Z :=
  match count with
  | O => numBytes
  | S c =>
      if 255 <? i then lengthLength_loop c (Z.shiftr i 8) (numBytes + 1)
      else numBytes
  end.

Definition lengthLength (i : Z) : Z := lengthLength_loop 8 i 1.

Definition appendLength (i : Z) : list byte :=
  bigEndianBytes (Z.to_nat (lengthLength i)) i.

(** [appendTagAndLength] for a tag number below 31. *)
Definition appendTagAndLength (t : tagAndLength) : list byte :=
  let b := Z.lor (Z.lor ((t_class t * 64) mod 256)
                        (if t_isCompound t then 32 else 0))
                 (t_tag t mod 256) in
  z2b b ::
  (if 128 <=? t_length t
   then z2b (Z.lor 128 (lengthLength (t_length t))) :: appendLength (t_length t)
   else [z2b (t_length t)]).

(** [int64Encoder.Len]: [for i > 127 { n++; i >>= 8 }] and then
    [for i < -128 { n++; i >>= 8 }]. *)
Fixpoint int64Len_up (count : nat) (i n : Z) : Z * Z :=
  match count with
  | O => (i, n)
  | S c => if 127 <? i then int64Len_up c (Z.shiftr i 8) (n + 1) else (i, n)
  end.

Fixpoint int64Len_down (count : nat) (i n : Z) : Z :=
  match count with
  | O => n
  | S c => if i <? -128 then int64Len_down c (Z.shiftr i 8) (n + 1) else n
  end.

Definition int64Len (i : Z) : Z :=
  let '(i', n) := int64Len_up 8 i 1 in int64Len_down 8 i' n.

(** The body of an INTEGER: [int64Encoder]. *)
Definition int64Encode (i : Z) : list byte :=
  bigEndianBytes (Z.to_nat (int64Len i)) i.

(** [isPrintable(b, asterisk, ampersand)] *)
Definition isPrintable (b : byte) (asterisk ampersand : bool) : bool :=
  let c := b2z b in
  ((97 <=? c) && (c <=? 122)) ||
  ((65 <=? c) && (c <=? 90)) ||
  ((48 <=? c) && (c <=? 57)) ||
  ((39 <=? c) && (c <=? 41)) ||
  ((43 <=? c) && (c <=? 47)) ||
  (c =? 32) || (c =? 58) || (c =? 61) || (c =? 63) ||
  (asterisk && (c =? 42)) ||
  (ampersand && (c =? 38)).

Definition inRange (lo hi : Z) (b : byte) : bool :=
  (lo <=? b2z b) && (b2z b <=? hi).

(** [utf8.Valid]: the well-formed byte sequences of UTF-8, by the first
    byte of each: one byte below 80; C2..DF and one continuation byte;
    E0..EF and two; F0..F4 and three, with the second byte restricted after
    E0, ED, F0 and F4. *)
Fixpoint utf8_Valid (p : list byte) : bool :=
  match p with
  | [] => true
  | b0 :: p1 =>
      if b2z b0 <? 128 then utf8_Valid p1
      else
        match p1 with
        | [] => false
        | b1 :: p2 =>
            if inRange 194 223 b0 then inRange 128 191 b1 && utf8_Valid p2
            else
              match p2 with
              | [] => false
              | b2 :: p3 =>
                  if inRange 224 239 b0 then
                    (if b2z b0 =? 224 then inRange 160 191 b1
                     else if b2z b0 =? 237 then inRange 128 159 b1
                     else inRange 128 191 b1)
                    && inRange 128 191 b2 && utf8_Valid p3
                  else
                    match p3 with
                    | [] => false
                    | b3 :: p4 =>
                        if inRange 240 244 b0 then
                          (if b2z b0 =? 240 then inRange 144 191 b1
                           else if b2z b0 =? 244 then inRange 128 143 b1
                           else inRange 128 191 b1)
                          && inRange 128 191 b2 && inRange 128 191 b3
                          && utf8_Valid p4
                        else false
                    end
              end
        end
  end.

(** The tag [makeField] gives a string that has no string type in its field
    tag: PrintableString when every character is printable (asterisk and
    ampersand are not), else UTF8String, and an error when the string is not
    valid UTF-8.  (The source ranges over runes; a byte of 80 or more never
    yields a rune below 80, so the test is the same on bytes.) *)
Definition stringTag (s : list byte) : result Z :=
  if forallb (fun b => isPrintable b false false) s then Ok TagPrintableString
  else if utf8_Valid s then Ok TagUTF8String
  else Fail (Errorf "asn1: string not valid UTF-8" []).

(** A value with its universal tag and length. *)
Definition makeUniversal (tag : Z) (isCompound : bool) (body : list byte)
  : list byte :=
  appendTagAndLength (mkTagAndLength ClassUniversal tag (len body) isCompound)
  ++ body.

(** [makeField] for a field tagged [tag:n,explicit]: the value with its
    universal tag, inside a constructed context-specific tag [n]. *)
Definition makeExplicit (n : Z) (tag : Z) (isCompound : bool) (body : list byte)
  : list byte :=
  let inner := makeUniversal tag isCompound body in
  appendTagAndLength (mkTagAndLength ClassContextSpecific n (len inner) true)
  ++ inner.

(** The tail of [makeField]: a field that is optional and holds the zero
    value of its type is left out (before its contents are looked at);
    otherwise the contents [body] get the universal tag, and around it the
    explicit tag of the field, if it has one. *)
Definition makeField (optional explicit : bool) (tag : option Z) (isZero : bool)
  (universalTag : Z) (isCompound : bool) (body : result (list byte))
  : result (list byte) :=
  if optional && isZero then Ok []
  else
    body <- body ;;
    match tag with
    | Some n =>
        if explicit then Ok (makeExplicit n universalTag isCompound body)
        else
          Ok (appendTagAndLength
                (mkTagAndLength ClassContextSpecific n (len body) isCompound)
              ++ body)
    | None => Ok (makeUniversal universalTag isCompound body)
    end.

(** The encoding of the field with tag number [n] of a struct whose fields
    all carry explicit tags: nothing when the field is left out, else an
    explicitly tagged value (with a tag and lengths the decoder can read). *)
Definition fieldEncoding (n : Z) (f : list byte) : Prop :=
  f = [] \/
  exists universalTag isCompound body,
    f = makeExplicit n universalTag isCompound body
    /\ 0 <= universalTag < 31
    /\ len (makeUniversal universalTag isCompound body) < 2 ^ 31.

(** Input that does not begin with the field of tag number [n]: it is empty
    or begins with the encoding of a field with another tag number. *)
Definition noFieldAt (n : Z) (bytes : list byte) : Prop :=
  bytes = [] \/
  exists m f rest,
    bytes = f ++ rest /\ f <> [] /\ fieldEncoding m f
    /\ 0 <= m < 31 /\ m <> n.

(** *** Decoding *)

Definition MaxInt32 : Z := 2147483647.

(** [parseBase128Int]: a tag number of 31 or more, and the input after it. *)
Fixpoint parseBase128Int_loop (bytes : list byte) (shifted : nat) (ret64 : Z)
  : result (Z * list byte) :=
  match bytes with
  | [] => Fail (asn1_SyntaxError "truncated base 128 integer")
  | b :: rest =>
      if (shifted =? 5)%nat
      then Fail (asn1_StructuralError "base 128 integer too large")
      else
        let ret64 := Z.shiftl ret64 7 in
        if (shifted =? 0)%nat && (b2z b =? 128)
        then Fail (asn1_SyntaxError "integer is not minimally encoded")
        else
          let ret64 := Z.lor ret64 (Z.land (b2z b) 127) in
          if Z.land (b2z b) 128 =? 0 then
            if MaxInt32 <? ret64
            then Fail (asn1_StructuralError "base 128 integer too large")
            else Ok (ret64, rest)
          else parseBase128Int_loop rest (S shifted) ret64
  end.

Definition parseBase128Int (bytes : list byte) : result (Z * list byte) :=
  parseBase128Int_loop bytes 0 0.

(** The long form of a length: [numBytes] bytes, most significant first. *)
Fixpoint parseLength_loop (numBytes : nat) (bytes : list byte) (length : Z)
  : result (Z * list byte) :=
  match numBytes with
  | O => Ok (length, bytes)
  | S n =>
      match bytes with
      | [] => Fail (asn1_SyntaxError "truncated tag or length")
      | b :: rest =>
          if 8388608 <=? length
          then Fail (asn1_StructuralError "length too large")
          else
            let length := Z.lor (Z.shiftl length 8) (b2z b) in
            if length =? 0
            then Fail (asn1_StructuralError "superfluous leading zeros in length")
            else parseLength_loop n rest length
      end
  end.

(** [parseTagAndLength]: the tag and length at the head of the input, and
    the input after them. *)
Definition parseTagAndLength (bytes : list byte)
  : result (tagAndLength * list byte) :=
  match bytes with
  | [] => Fail (Errorf "asn1: internal error in parseTagAndLength" [])
  | b :: rest =>
      let class := Z.shiftr (b2z b) 6 in
      let isCompound := Z.land (b2z b) 32 =? 32 in
      let tag := Z.land (b2z b) 31 in
      '(tag, rest) <-
        (if tag =? 31 then
           '(tag, rest) <- parseBase128Int rest ;;
           if tag <? 31 then Fail (asn1_SyntaxError "non-minimal tag")
           else Ok (tag, rest)
         else Ok (tag, rest)) ;;
      match rest with
      | [] => Fail (asn1_SyntaxError "truncated tag or length")
      | b :: rest =>
          if Z.land (b2z b) 128 =? 0 then
            Ok (mkTagAndLength class tag (Z.land (b2z b) 127) isCompound, rest)
          else
            let numBytes := Z.land (b2z b) 127 in
            if numBytes =? 0
            then Fail (asn1_SyntaxError "indefinite length found (not DER)")
            else
              '(length, rest) <- parseLength_loop (Z.to_nat numBytes) rest 0 ;;
              if length <? 128
              then Fail (asn1_StructuralError "non-minimal length")
              else Ok (mkTagAndLength class tag length isCompound, rest)
      end
  end.

Definition checkInteger (bytes : list byte) : result unit :=
  match bytes with
  | [] => Fail (asn1_StructuralError "empty integer")
  | [_] => Ok tt
  | b0 :: b1 :: _ =>
      if ((b2z b0 =? 0) && (Z.land (b2z b1) 128 =? 0))
         || ((b2z b0 =? 255) && (Z.land (b2z b1) 128 =? 128))
      then Fail (asn1_StructuralError "integer not minimally-encoded")
      else Ok tt
  end.

(** Go's [int64(x)]: the value of the low 64 bits, as a signed number. *)
Definition int64 (x : Z) : Z := (x + 2 ^ 63) mod 2 ^ 64 - 2 ^ 63.

(** [parseInt64]: the bytes as a big-endian number, then sign-extended by
    shifting up and down. *)
Definition parseInt64 (bytes : list byte) : result Z :=
  _ <- checkInteger bytes ;;
  if 8 <? len bytes then Fail (asn1_StructuralError "integer too large")
  else
    let ret :=
      fold_left (fun ret b => int64 (Z.lor (int64 (Z.shiftl ret 8)) (b2z b)))
                bytes 0 in
    let shift := (64 - (len bytes mod 256) * 8 mod 256) mod 256 in
    Ok (Z.shiftr (int64 (Z.shiftl ret shift)) shift).

Definition parsePrintableString (bytes : list byte) : result string :=
  if forallb (fun b => isPrintable b true true) bytes
  then Ok (string_of_list_byte bytes)
  else Fail (asn1_SyntaxError "PrintableString contains invalid character").

Definition parseUTF8String (bytes : list byte) : result string :=
  if utf8_Valid bytes then Ok (string_of_list_byte bytes)
  else Fail (Errorf "asn1: invalid UTF-8 string" []).

(** The field tag of a struct field, [parseFieldParameters]: [optional],
    [explicit], [tag:n], and [utf8] as [stringType = TagUTF8String] (0 when
    the tag names no string type).  The program uses no other parameter. *)
Record fieldParameters : Type := mkFieldParameters {
  optional : bool;
  explicit : bool;
  tag : option Z;
  stringType : Z
}.

(** The parameters of a slice element and of the outermost value. *)
Definition noParameters : fieldParameters := mkFieldParameters false false None 0.

(** The Go types of the fields of [rdcleanpath.Pdu] and [rdcleanpath.Err]. *)
Inductive fieldKind : Type :=
| KindInt
| KindUint8
| KindString
| KindBytes
| KindSliceOfBytes
| KindStruct.

(** [getUniversalType]: [(matchAny, tagNumber, isCompound, ok)].  It knows no
    unsigned integer type. *)
Definition getUniversalType (k : fieldKind) : bool * Z * bool * bool :=
  match k with
  | KindInt => (false, TagInteger, false, true)
  | KindUint8 => (false, 0, false, false)
  | KindString => (false, TagPrintableString, false, true)
  | KindBytes => (false, TagOctetString, false, true)
  | KindSliceOfBytes => (false, TagSequence, true, true)
  | KindStruct => (false, TagSequence, true, true)
  end.

Definition isForeignStringTag (t : Z) : bool :=
  (t =? TagIA5String) || (t =? TagGeneralString) || (t =? TagT61String)
  || (t =? TagNumericString) || (t =? TagBMPString).

(** [offset == len(bytes)]: no input is left. *)
Definition atEnd (bytes : list byte) : bool :=
  match bytes with
  | [] => true
  | _ :: _ => false
  end.

(** [setDefaultValue]: an absent field is accepted when it is optional (and
    keeps its zero value: no field has a default). *)
Definition setDefaultValue (params : fieldParameters) : bool := optional params.

(** [parseField] up to the point where it holds the contents of the value:
    - [Ok (None, bytes)]: the field is absent, nothing was consumed;
    - [Ok (Some (universalTag, innerBytes), rest)]: the field is present with
      contents [innerBytes] of universal type [universalTag], and [rest]
      follows it. *)
Definition parseFieldHeader (k : fieldKind) (params : fieldParameters)
  (bytes : list byte) : result (option (Z * list byte) * list byte) :=
  if atEnd bytes then
    if setDefaultValue params then Ok (None, bytes)
    else Fail (asn1_SyntaxError "sequence truncated")
  else
    '(t, rest) <- parseTagAndLength bytes ;;
    r <-
      (if explicit params then
         if atEnd rest
         then Fail (asn1_StructuralError "explicit tag has no child")
         else if (t_class t =? ClassContextSpecific)
                 && (match tag params with
                     | Some n => t_tag t =? n
                     | None => false
                     end)
                 && ((t_length t =? 0) || t_isCompound t)
         then
           if 0 <? t_length t then
             '(t, rest) <- parseTagAndLength rest ;; Ok (Some (t, rest))
           else
             Fail (asn1_StructuralError
                     "zero length explicit tag was not an asn1.Flag")
         else if setDefaultValue params then Ok None
         else Fail (asn1_StructuralError
                      "explicitly tagged member didn't match")
       else Ok (Some (t, rest))) ;;
    match r with
    | None => Ok (None, bytes)
    | Some (t, rest) =>
        let '(matchAny, universalTag, compoundType, ok1) :=
          getUniversalType k in
        (* [uint8] is the one kind here that [getUniversalType] does not
           know *)
        if negb ok1 then Fail (asn1_StructuralError "unknown Go type: uint8")
        else
          let universalTag :=
            if universalTag =? TagPrintableString then
              if t_class t =? ClassUniversal then
                if isForeignStringTag (t_tag t) || (t_tag t =? TagUTF8String)
                then t_tag t else universalTag
              else if negb (stringType params =? 0) then stringType params
              else universalTag
            else universalTag in
          let '(expectedClass, expectedTag) :=
            match explicit params, tag params with
            | false, Some n => (ClassContextSpecific, n)
            | _, _ => (ClassUniversal, universalTag)
            end in
          if negb ((t_class t =? expectedClass) && (t_tag t =? expectedTag))
             || negb (Bool.eqb (t_isCompound t) compoundType)
          then
            if setDefaultValue params then Ok (None, bytes)
            (* the library's text goes on with the two tags, the parameters
               and the offset *)
            else Fail (asn1_StructuralError "tags don't match")
          else if len rest <? t_length t
          then Fail (asn1_SyntaxError "data truncated")
          else
            Ok (Some (universalTag, firstn (Z.to_nat (t_length t)) rest),
                skipn (Z.to_nat (t_length t)) rest)
    end.

(** A field of a type whose contents [body] decodes; an absent field keeps
    the value [zero]. *)
Definition parseFieldWith {A : Type} (k : fieldKind) (zero : A)
  (body : Z -> list byte -> result A) (params : fieldParameters)
  (bytes : list byte) : result (A * list byte) :=
  '(r, rest) <- parseFieldHeader k params bytes ;;
  match r with
  | None => Ok (zero, rest)
  | Some (universalTag, innerBytes) =>
      v <- body universalTag innerBytes ;; Ok (v, rest)
  end.

(** A field of type [int]. *)
Definition parseFieldInt : fieldParameters -> list byte -> result (Z * list byte) :=
  parseFieldWith KindInt 0 (fun _ innerBytes => parseInt64 innerBytes).

(** A field of type [uint8]: present, it is refused by [parseFieldHeader]. *)
Definition parseFieldUint8 : fieldParameters -> list byte -> result (Z * list byte) :=
  parseFieldWith KindUint8 0
    (fun _ _ => Fail (asn1_StructuralError "unsupported: uint8")).

(** A field of type [[]byte]: present, it is a slice that is not nil. *)
Definition parseFieldBytes
  : fieldParameters -> list byte -> result (option (list byte) * list byte) :=
  parseFieldWith KindBytes None (fun _ innerBytes => Ok (Some innerBytes)).

(** The first loop of [parseSequenceOf] for elements of type [[]byte]: it
    checks the tag and length of every element and counts the elements. *)
Fixpoint countElements (fuel : nat) (bytes : list byte) (numElements : nat)
  : result nat :=
  if atEnd bytes then Ok numElements
  else
    match fuel with
    | O => Fail (asn1_SyntaxError "truncated sequence")
    | S fuel' =>
        '(t, rest) <- parseTagAndLength bytes ;;
        let ttag :=
          if isForeignStringTag (t_tag t) || (t_tag t =? TagUTF8String)
          then TagPrintableString
          else if (t_tag t =? TagGeneralizedTime) || (t_tag t =? TagUTCTime)
          then TagUTCTime
          else t_tag t in
        if negb (t_class t =? ClassUniversal)
           || negb (Bool.eqb (t_isCompound t) false)
           || negb (ttag =? TagOctetString)
        then Fail (asn1_StructuralError "sequence tag mismatch")
        else if len rest <? t_length t
        then Fail (asn1_SyntaxError "truncated sequence")
        else
          countElements fuel' (skipn (Z.to_nat (t_length t)) rest)
                        (S numElements)
    end.

(** The second loop: [parseField] on each of the [numElements] elements of
    the slice made by [reflect.MakeSlice].  An element is a [[]byte]: [None]
    when it is nil, as [MakeSlice] leaves it, [Some b] once [parseField] has
    set it to a slice of its own that holds the contents [b], empty or not. *)
Fixpoint parseElements (numElements : nat) (bytes : list byte)
  : result (list (option (list byte))) :=
  match numElements with
  | O => Ok []
  | S n =>
      '(r, rest) <- parseFieldHeader KindBytes noParameters bytes ;;
      match r with
      | None => els <- parseElements n rest ;; Ok (None :: els)
      | Some (_, innerBytes) =>
          els <- parseElements n rest ;; Ok (Some innerBytes :: els)
      end
  end.

(** [parseSequenceOf] for a [[][]byte]. *)
Definition parseSequenceOf (bytes : list byte)
  : result (list (option (list byte))) :=
  numElements <- countElements (length bytes) bytes 0 ;;
  parseElements numElements bytes.

(** A field of type [[][]byte]. *)
Definition parseFieldSliceOfBytes
  : fieldParameters -> list byte
    -> result (option (list (option (list byte))) * list byte) :=
  parseFieldWith KindSliceOfBytes None
    (fun _ innerBytes => els <- parseSequenceOf innerBytes ;; Ok (Some els)).

Section Strings.

(** The string types other than PrintableString and UTF8String
    (NumericString, IA5String, T61String, GeneralString, BMPString): how the
    library turns their contents into a Go string differs between its
    versions, the encoder never produces them, and no property below depends
    on it. *)
Variable parseForeignString : Z -> list byte -> result string.

Definition parseStringBody (universalTag : Z) (innerBytes : list byte)
  : result string :=
  if universalTag =? TagPrintableString then parsePrintableString innerBytes
  else if universalTag =? TagUTF8String then parseUTF8String innerBytes
  else if isForeignStringTag universalTag
  then parseForeignString universalTag innerBytes
  else Fail (asn1_SyntaxError "internal error: unknown string type").

(** A field of type [string]. *)
Definition parseFieldString
  : fieldParameters -> list byte -> result (string * list byte) :=
  parseFieldWith KindString EmptyString parseStringBody.

End Strings.

End asn1.

(** ** Package rdcleanpath *)

Module rdcleanpath.
Import asn1.

(** [Err]; [TlsAlertCode] is a [uint8]. *)
Record Err : Type := mkErr {
  ErrorCode : Z;
  HttpStatusCode : Z;
  WsaLastError : Z;
  TlsAlertCode : Z
}.

(** [Pdu].  An [[]byte] or [[][]byte] field is [None] when the slice is nil
    and [Some l] when it is not, [Some []] being the empty slice that is not
    nil: the codec tells them apart.  The elements of [ServerCertChain] are
    [[]byte]s too, [None] when nil.  A string field has no such state. *)
Record Pdu : Type := mkPdu {
  Version : Z;
  Error : Err;
  Destination : string;
  ProxyAuth : string;
  ServerAuth : string;
  PreconnectionBlob : string;
  X224ConnectionPdu : option (list byte);
  ServerCertChain : option (list (option (list byte)));
  ServerAddr : string
}.

Record Req : Type := mkReq {
  Req_Destination : string;
  Req_ProxyAuth : string;
  Req_ServerAuth : string;
  Req_PreconnectionBlob : string;
  Req_X224ConnectionPdu : option (list byte)
}.

(** The numbers a Go [int] holds (on the 64-bit platforms the proxy runs
    on), and the structures whose [int] fields hold such numbers. *)
Definition inInt64 (v : Z) : Prop := - 2 ^ 63 <= v < 2 ^ 63.

Definition intsInRange (pdu : Pdu) : Prop :=
  inInt64 (Version pdu)
  /\ inInt64 (ErrorCode (Error pdu))
  /\ inInt64 (HttpStatusCode (Error pdu))
  /\ inInt64 (WsaLastError (Error pdu)).

(** The bytes a [[]byte] holds: none when it is nil. *)
Definition sliceBytes (s : option (list byte)) : list byte :=
  match s with
  | None => []
  | Some b => b
  end.

(** The certificate chains none of whose elements is a nil slice. *)
Definition noNilElement (chain : option (list (option (list byte)))) : Prop :=
  match chain with
  | None => True
  | Some els => Forall (fun el => el <> None) els
  end.

(** The zero values [Err{}] and [Pdu{}]. *)
Definition zeroErr : Err := mkErr 0 0 0 0.

Definition zeroPdu : Pdu :=
  mkPdu 0 zeroErr EmptyString EmptyString EmptyString EmptyString None None
        EmptyString.

(** The field tags [asn1:"tag:n,explicit"], [asn1:"tag:n,explicit,optional"]
    and [asn1:"tag:n,explicit,optional,utf8"]. *)
Definition tagExplicit (n : Z) : fieldParameters :=
  mkFieldParameters false true (Some n) 0.

Definition tagExplicitOptional (n : Z) : fieldParameters :=
  mkFieldParameters true true (Some n) 0.

Definition tagExplicitOptionalUtf8 (n : Z) : fieldParameters :=
  mkFieldParameters true true (Some n) TagUTF8String.

(** *** Encoding: [asn1.Marshal] on a [Pdu], field type by field type *)

Definition marshalInt (params : fieldParameters) (v : Z) : result (list byte) :=
  makeField (optional params) (explicit params) (tag params) (v =? 0)
            TagInteger false (Ok (int64Encode v)).

(** [getUniversalType] knows no [uint8]: a value that is not left out cannot
    be encoded. *)
Definition marshalUint8 (params : fieldParameters) (v : Z) : result (list byte) :=
  if optional params && (v =? 0) then Ok []
  else Fail (asn1_StructuralError "unknown Go type: uint8").

Definition marshalString (params : fieldParameters) (s : string)
  : result (list byte) :=
  let bytes := list_byte_of_string s in
  if optional params && (match bytes with [] => true | _ :: _ => false end)
  then Ok []
  else
    universalTag <-
      (if stringType params =? 0 then stringTag bytes
       else Ok (stringType params)) ;;
    makeField false (explicit params) (tag params) false universalTag false
              (Ok bytes).

Definition marshalBytes (params : fieldParameters) (v : option (list byte))
  : result (list byte) :=
  makeField (optional params) (explicit params) (tag params)
            (match v with None => true | Some _ => false end)
            TagOctetString false
            (Ok (match v with None => [] | Some b => b end)).

(** A [[][]byte]: each element is written as an OCTET STRING of its bytes,
    a nil element like an empty one. *)
Definition marshalSliceOfBytes (params : fieldParameters)
  (v : option (list (option (list byte)))) : result (list byte) :=
  makeField (optional params) (explicit params) (tag params)
            (match v with None => true | Some _ => false end)
            TagSequence true
            (Ok (List.concat
                   (map (makeUniversal TagOctetString false)
                        (map sliceBytes
                             (match v with None => [] | Some els => els end))))).

Definition isZeroErr (e : Err) : bool :=
  (ErrorCode e =? 0) && (HttpStatusCode e =? 0) && (WsaLastError e =? 0)
  && (TlsAlertCode e =? 0).

Definition marshalErrFields (e : Err) : result (list byte) :=
  f0 <- marshalInt (tagExplicit 0) (ErrorCode e) ;;
  f1 <- marshalInt (tagExplicitOptional 1) (HttpStatusCode e) ;;
  f2 <- marshalInt (tagExplicitOptional 2) (WsaLastError e) ;;
  f3 <- marshalUint8 (tagExplicitOptional 3) (TlsAlertCode e) ;;
  Ok (f0 ++ f1 ++ f2 ++ f3).

Definition marshalErr (params : fieldParameters) (e : Err) : result (list byte) :=
  makeField (optional params) (explicit params) (tag params) (isZeroErr e)
            TagSequence true (marshalErrFields e).

Definition marshalPduFields (pdu : Pdu) : result (list byte) :=
  f0 <- marshalInt (tagExplicit 0) (Version pdu) ;;
  f1 <- marshalErr (tagExplicitOptional 1) (Error pdu) ;;
  f2 <- marshalString (tagExplicitOptional 2) (Destination pdu) ;;
  f3 <- marshalString (tagExplicitOptional 3) (ProxyAuth pdu) ;;
  f4 <- marshalString (tagExplicitOptional 4) (ServerAuth pdu) ;;
  f5 <- marshalString (tagExplicitOptional 5) (PreconnectionBlob pdu) ;;
  f6 <- marshalBytes (tagExplicitOptional 6) (X224ConnectionPdu pdu) ;;
  f7 <- marshalSliceOfBytes (tagExplicitOptional 7) (ServerCertChain pdu) ;;
  f9 <- marshalString (tagExplicitOptionalUtf8 9) (ServerAddr pdu) ;;
  Ok (f0 ++ f1 ++ f2 ++ f3 ++ f4 ++ f5 ++ f6 ++ f7 ++ f9).

(** [asn1.Marshal(pdu)] *)
Definition asn1_Marshal (pdu : Pdu) : result (list byte) :=
  makeField false false None false TagSequence true (marshalPduFields pdu).

(** [Pdu.Marshal] *)
Definition Marshal (pdu : Pdu) : result (list byte) := asn1_Marshal pdu.

(** [NewResp]: its error is always nil. *)
Definition NewResp (serverAddr : string) (x224Pdu : option (list byte))
  (x509Chain : option (list (option (list byte)))) : result Pdu :=
  let addr := serverAddr in
  Ok (mkPdu (3389 + 1) zeroErr EmptyString EmptyString EmptyString EmptyString
            x224Pdu x509Chain addr).

Section Decoding.

Variable parseForeignString : Z -> list byte -> result string.

(** *** Decoding: [asn1.Unmarshal] into a [Pdu]

    The fields are read in the order of the struct; what follows the last
    field inside the SEQUENCE is ignored. *)

Definition parseErrFields (innerBytes : list byte) : result Err :=
  '(errorCode, rest) <- parseFieldInt (tagExplicit 0) innerBytes ;;
  '(httpStatusCode, rest) <- parseFieldInt (tagExplicitOptional 1) rest ;;
  '(wsaLastError, rest) <- parseFieldInt (tagExplicitOptional 2) rest ;;
  '(tlsAlertCode, rest) <- parseFieldUint8 (tagExplicitOptional 3) rest ;;
  Ok (mkErr errorCode httpStatusCode wsaLastError tlsAlertCode).

Definition parseFieldErr
  : fieldParameters -> list byte -> result (Err * list byte) :=
  parseFieldWith KindStruct zeroErr (fun _ innerBytes => parseErrFields innerBytes).

Definition parsePduFields (innerBytes : list byte) : result Pdu :=
  '(version, rest) <- parseFieldInt (tagExplicit 0) innerBytes ;;
  '(err, rest) <- parseFieldErr (tagExplicitOptional 1) rest ;;
  '(destination, rest) <-
    parseFieldString parseForeignString (tagExplicitOptional 2) rest ;;
  '(proxyAuth, rest) <-
    parseFieldString parseForeignString (tagExplicitOptional 3) rest ;;
  '(serverAuth, rest) <-
    parseFieldString parseForeignString (tagExplicitOptional 4) rest ;;
  '(preconnectionBlob, rest) <-
    parseFieldString parseForeignString (tagExplicitOptional 5) rest ;;
  '(x224ConnectionPdu, rest) <- parseFieldBytes (tagExplicitOptional 6) rest ;;
  '(serverCertChain, rest) <-
    parseFieldSliceOfBytes (tagExplicitOptional 7) rest ;;
  '(serverAddr, rest) <-
    parseFieldString parseForeignString (tagExplicitOptionalUtf8 9) rest ;;
  Ok (mkPdu version err destination proxyAuth serverAuth preconnectionBlob
            x224ConnectionPdu serverCertChain serverAddr).

(** [asn1.Unmarshal(src, pdu)] on a fresh [pdu]: the decoded structure and
    the bytes after it. *)
Definition asn1_Unmarshal (b : list byte) : result (Pdu * list byte) :=
  parseFieldWith KindStruct zeroPdu (fun _ innerBytes => parsePduFields innerBytes)
                 noParameters b.

(** [Unmarshal] *)
Definition Unmarshal (src : list byte) : result Pdu :=
  '(pdu, rest) <- asn1_Unmarshal src ;;
  if 0 <? len rest
  then Fail (Errorf "trailing data after PDU: %d bytes" [len rest])
  else Ok pdu.

End Decoding.

(** One behaviour of the library on the foreign string types, used where an
    example needs one: it refuses them. *)
Definition refuseForeignString (universalTag : Z) (innerBytes : list byte)
  : result string :=
  Fail (asn1_SyntaxError "string type not decoded").

End rdcleanpath.

(** ** Package proxy: the WebSocket adapter *)

Module proxy.

Section WebSocket.

(** A [*websocket.Conn] of gorilla/websocket: its state, and
    [WriteMessage(messageType, data)], which returns an error or nil and
    leaves the connection in a new state. *)
Variable Conn : Type.
Variable WriteMessage : Conn -> Z -> list byte -> option error * Conn.
Variable Close_ : Conn -> option error * Conn.

Definition BinaryMessage : Z := 2.

(** [wsReadWriteCloser]: the connection and the reader
    [websocket.JoinMessages(ws, "")] over its incoming messages.  The reader
    is kept as the data it delivers, apart from the connection: what reading
    does to the connection itself is not rendered. *)
Record wsReadWriteCloser : Type := mkWsReadWriteCloser {
  ws : Conn;
  r : Reader
}.

(** [Read(p)] with [len(p) = n]: one [Read] of the joined reader. *)
Definition ws_Read (w : wsReadWriteCloser) (n : nat)
  : list byte * option error * wsReadWriteCloser :=
  match Read (r w) n with
  | (bs, e, r') => (bs, e, mkWsReadWriteCloser (ws w) r')
  end.

(** [Write(p)]: [return len(p), w.ws.WriteMessage(websocket.BinaryMessage, p)] *)
Definition Write (w : wsReadWriteCloser) (p : list byte)
  : Z * option error * wsReadWriteCloser :=
  match WriteMessage (ws w) BinaryMessage p with
  | (e, ws') => (Z.of_nat (length p), e, mkWsReadWriteCloser ws' (r w))
  end.

Definition Close (w : wsReadWriteCloser) : option error * wsReadWriteCloser :=
  match Close_ (ws w) with
  | (e, ws') => (e, mkWsReadWriteCloser ws' (r w))
  end.

End WebSocket.

(** *** [Handle]: the RDCleanPath request and response

    [Handle] dials the server, runs a TLS handshake and copies in both
    directions.  The two blocks in which it reads the request of the client
    and writes the response call only [tpkt.ReadFrame],
    [rdcleanpath.Unmarshal], [rdcleanpath.NewResp], [Pdu.Marshal] and
    [Write]; they are rendered here, each with the errors it returns. *)

Inductive HandleError : Type :=
| ReadFrameError (err : error)   (* fmt.Errorf("read frame: %v", err) *)
| DecodeError (err : error)      (* fmt.Errorf("decode rdcleanpath pdu: %v", err) *)
| NewRespError (err : error)     (* fmt.Errorf("rdcleanpath new resp: %v", err) *)
| MarshalError (err : error)     (* fmt.Errorf("rdcleanpath marshal: %v", err) *)
| WriteError (err : error).      (* fmt.Errorf("write message: %v", err) *)

Section Handle.

Variable Conn : Type.
Variable WriteMessage : Conn -> Z -> list byte -> option error * Conn.
Variable parseForeignString : Z -> list byte -> result string.

(** The block that sets [cleanPathReq]: one frame is read from
    [rdpClientConn], whose [Read] is the [Read] of its joined reader, and
    decoded. *)
Definition Handle_cleanPathReq (rdpClientConn : wsReadWriteCloser Conn)
  : (HandleError + rdcleanpath.Pdu) * wsReadWriteCloser Conn :=
  match tpkt.ReadFrame (r Conn rdpClientConn) with
  | (Fail err, r') =>
      (inl (ReadFrameError err), mkWsReadWriteCloser Conn (ws Conn rdpClientConn) r')
  | (Ok (frame, _), r') =>
      match rdcleanpath.Unmarshal parseForeignString frame with
      | Fail err =>
          (inl (DecodeError err), mkWsReadWriteCloser Conn (ws Conn rdpClientConn) r')
      | Ok pdu =>
          (inr pdu, mkWsReadWriteCloser Conn (ws Conn rdpClientConn) r')
      end
  end.

(** The block that writes the response: [remoteAddr] is
    [rdpServerConn.RemoteAddr().String()], [x224Resp] the frame read from
    the server and [certChain] the [cert.Raw] of the certificates of the TLS
    peer, appended to the empty, non-nil [[][]byte{}]. *)
Definition Handle_cleanPathResp (rdpClientConn : wsReadWriteCloser Conn)
  (remoteAddr : string) (x224Resp : list byte)
  (certChain : list (option (list byte)))
  : option HandleError * wsReadWriteCloser Conn :=
  match rdcleanpath.NewResp remoteAddr (Some x224Resp) (Some certChain) with
  | Fail err => (Some (NewRespError err), rdpClientConn)
  | Ok cleanPathResp =>
      match rdcleanpath.Marshal cleanPathResp with
      | Fail err => (Some (MarshalError err), rdpClientConn)
      | Ok cleanPathRespDer =>
          match Write Conn WriteMessage rdpClientConn cleanPathRespDer with
          | (_, Some err, w') => (Some (WriteError err), w')
          | (_, None, w') => (None, w')
          end
      end
  end.

End Handle.

(** A connection that is open or closed; on a closed one every write fails
    with gorilla/websocket's [ErrCloseSent]. *)
Definition flagWriteMessage (closed : bool) (messageType : Z) (data : list byte)
  : option error * bool :=
  if closed then (Some (Errorf "websocket: close sent" []), closed)
  else (None, closed).

End proxy.
(** * Properties *)

(** ** Bytes *)

Lemma b2z_range (b : byte) : 0 <= b2z b < 256.
Proof.
  unfold b2z. pose proof (Byte.to_N_bounded b). lia.
Qed.

Lemma z2b_b2z (b : byte) : z2b (b2z b) = b.
Proof.
  unfold z2b. rewrite Z.mod_small by apply b2z_range.
  unfold b2z. rewrite N2Z.id, Byte.of_to_N. reflexivity.
Qed.

Lemma b2z_z2b (z : Z) : b2z (z2b z) = z mod 256.
Proof.
  unfold z2b, b2z.
  pose proof (Z.mod_pos_bound z 256 ltac:(lia)) as Hm.
  destruct (Byte.of_N (Z.to_N (z mod 256))) as [b|] eqn:E.
  - apply Byte.to_of_N in E. rewrite E. lia.
  - apply Byte.of_N_None_iff in E. lia.
Qed.

Lemma b2z_inj (a b : byte) : b2z a = b2z b -> a = b.
Proof.
  intros H. rewrite <- (z2b_b2z a), <- (z2b_b2z b), H. reflexivity.
Qed.

Lemma lor_shiftl8 (h l : Z) :
  0 <= l < 256 -> Z.lor (Z.shiftl h 8) l = 256 * h + l.
Proof.
  intros Hl.
  assert (Hland : Z.land (Z.shiftl h 8) l = 0).
  { apply Z.bits_inj'. intros n Hn. rewrite Z.land_spec, Z.bits_0.
    destruct (Z.lt_ge_cases n 8) as [Hlt|Hge].
    - rewrite Z.shiftl_spec_low by lia. reflexivity.
    - destruct (Z.eq_dec l 0) as [->|Hnz].
      + rewrite Z.bits_0. apply andb_false_r.
      + rewrite (Z.bits_above_log2 l n); [apply andb_false_r|lia|].
        assert (Z.log2 l < 8) by (apply Z.log2_lt_pow2; lia). lia. }
  rewrite <- Z.lxor_lor by exact Hland.
  rewrite <- Z.add_nocarry_lxor by exact Hland.
  rewrite Z.shiftl_mul_pow2 by lia. change (2 ^ 8) with 256. lia.
Qed.

(** ** Readers *)

Lemma pending_restChunks (c : list byte) cs fin :
  pending (mkReader (restChunks c cs) fin) = c ++ List.concat cs.
Proof.
  destruct c; reflexivity.
Qed.

Lemma readLoop_0 cs fin got : readLoop cs fin 0 got = (got, None, mkReader cs fin).
Proof.
  destruct cs; reflexivity.
Qed.

(** One turn of the loop is one call of [Read]. *)
Lemma readLoop_Read (r : Reader) (need : nat) (got : list byte) :
  (0 < need)%nat ->
  readLoop (chunks r) (final r) need got =
  match Read r need with
  | (bs, Some e, r') => (got ++ bs, Some e, r')
  | (bs, None, r') =>
      readLoop (chunks r') (final r') (need - length bs)%nat (got ++ bs)
  end.
Proof.
  intros Hn. destruct r as [cs fin]. unfold Read. cbn [chunks final].
  destruct need as [|n]; [lia|].
  destruct cs as [|c cs']; cbn [readLoop chunks final].
  - rewrite app_nil_r. reflexivity.
  - destruct (Nat.leb_spec (S n) (length c)) as [Hle|Hgt].
    + rewrite length_firstn, Nat.min_l by lia.
      rewrite Nat.sub_diag, readLoop_0. reflexivity.
    + rewrite firstn_all2, skipn_all2 by lia. reflexivity.
Qed.

Lemma readLoop_enough cs fin : forall need got,
  (need <= length (List.concat cs))%nat ->
  exists r',
    readLoop cs fin need got = (got ++ firstn need (List.concat cs), None, r')
    /\ pending r' = skipn need (List.concat cs)
    /\ final r' = fin.
Proof.
  induction cs as [|c cs IH]; intros need got Hle.
  - simpl in Hle. assert (need = 0%nat) by lia. subst need.
    exists (mkReader [] fin). simpl. rewrite app_nil_r. auto.
  - destruct need as [|n].
    + exists (mkReader (c :: cs) fin). simpl. rewrite app_nil_r. auto.
    + cbn [readLoop].
      destruct (Nat.leb_spec (S n) (length c)) as [Hc|Hc].
      * exists (mkReader (restChunks (skipn (S n) c) cs) fin).
        split; [|split]; [| |reflexivity].
        -- cbn [List.concat]. rewrite firstn_app.
           replace (S n - length c)%nat with 0%nat by lia.
           rewrite firstn_O, app_nil_r. reflexivity.
        -- rewrite pending_restChunks. cbn [List.concat]. rewrite skipn_app.
           replace (S n - length c)%nat with 0%nat by lia. reflexivity.
      * cbn [List.concat] in Hle. rewrite length_app in Hle.
        destruct (IH (S n - length c)%nat (got ++ c)) as (r' & E & Hp & Hf);
          [lia|].
        exists r'. split; [|split]; [| |exact Hf].
        -- rewrite E. cbn [List.concat]. rewrite firstn_app.
           rewrite (firstn_all2 c) by lia. rewrite app_assoc. reflexivity.
        -- rewrite Hp. cbn [List.concat]. rewrite skipn_app.
           rewrite (skipn_all2 c) by lia. reflexivity.
Qed.

Lemma readLoop_short cs fin : forall need got,
  (length (List.concat cs) < need)%nat ->
  readLoop cs fin need got = (got ++ List.concat cs, Some fin, mkReader [] fin).
Proof.
  induction cs as [|c cs IH]; intros need got Hlt.
  - destruct need; [simpl in Hlt; lia|]. simpl. rewrite app_nil_r. reflexivity.
  - destruct need as [|n]; [lia|]. cbn [readLoop].
    cbn [List.concat] in Hlt. rewrite length_app in Hlt.
    destruct (Nat.leb_spec (S n) (length c)) as [Hc|Hc]; [lia|].
    rewrite IH by lia. cbn [List.concat]. rewrite app_assoc. reflexivity.
Qed.

(** A stream that still holds [n] bytes: [io.ReadFull] delivers exactly the
    next [n] bytes whatever the pieces they arrive in. *)
Lemma ReadFull_enough (r : Reader) (n : nat) :
  (n <= length (pending r))%nat ->
  exists r',
    ReadFull r n = (firstn n (pending r), None, r')
    /\ pending r' = skipn n (pending r)
    /\ final r' = final r.
Proof.
  intros Hle. unfold ReadFull.
  destruct (readLoop_enough (chunks r) (final r) n [] Hle) as (r' & E & Hp & Hf).
  rewrite E. simpl. rewrite length_firstn.
  fold (pending r).
  replace (n <=? Nat.min n (length (pending r)))%nat with true
    by (symmetry; apply Nat.leb_le; lia).
  exists r'. auto.
Qed.

(** A stream that ends earlier: the error is the reader's own when nothing
    was read, and [io.ErrUnexpectedEOF] when [io.EOF] follows a partial
    read. *)
Lemma ReadFull_short (r : Reader) (n : nat) :
  (length (pending r) < n)%nat ->
  ReadFull r n =
  (pending r,
   Some (match pending r with
         | [] => final r
         | _ :: _ => if error_eqb (final r) io_EOF then io_ErrUnexpectedEOF
                     else final r
         end),
   mkReader [] (final r)).
Proof.
  intros Hlt. unfold ReadFull.
  rewrite readLoop_short by exact Hlt. simpl. fold (pending r).
  replace (n <=? length (pending r))%nat with false
    by (symmetry; apply Nat.leb_gt; lia).
  destruct (pending r) as [|b bs]; [reflexivity|].
  destruct (final r); reflexivity.
Qed.

Lemma ReadFull_app (r : Reader) (xs rest : list byte) (n : nat) :
  pending r = xs ++ rest ->
  n = length xs ->
  exists r',
    ReadFull r n = (xs, None, r') /\ pending r' = rest /\ final r' = final r.
Proof.
  intros Hp Hn. subst n.
  destruct (ReadFull_enough r (length xs)) as (r' & E & P & F).
  - rewrite Hp, length_app. lia.
  - exists r'. rewrite E, P, Hp.
    rewrite firstn_app, Nat.sub_diag, firstn_all, firstn_O, app_nil_r.
    rewrite skipn_app, Nat.sub_diag, skipn_all. auto.
Qed.

Lemma ReadFull_cases (r : Reader) (n : nat) :
  (exists got r',
     ReadFull r n = (got, None, r')
     /\ pending r = got ++ pending r'
     /\ final r' = final r
     /\ length got = n)
  \/
  (exists e,
     ReadFull r n = (pending r, Some e, mkReader [] (final r))
     /\ (length (pending r) < n)%nat
     /\ (final r = io_EOF -> e = io_EOF \/ e = io_ErrUnexpectedEOF)).
Proof.
  destruct (Nat.le_gt_cases n (length (pending r))) as [Hle|Hgt].
  - left. destruct (ReadFull_enough r n Hle) as (r' & E & P & F).
    exists (firstn n (pending r)), r'. split; [exact E|].
    split; [|split; [exact F|]].
    + rewrite P. symmetry. apply firstn_skipn.
    + rewrite length_firstn. lia.
  - right. eexists. split; [apply ReadFull_short; exact Hgt|].
    split; [exact Hgt|]. intros Hf. rewrite Hf.
    destruct (pending r); [left|right]; reflexivity.
Qed.

(** ** Package tpkt: the frame detector and the frame reader *)

Module tpkt_props.
Import tpkt.

Arguments b2z : simpl never.

Lemma land127_range (b : byte) : 0 <= Z.land (b2z b) 127 < 128.
Proof.
  destruct b; vm_compute; split; congruence.
Qed.

Lemma land128_zero (b : byte) : Z.land (b2z b) 128 = 0 -> b2z b < 128.
Proof.
  destruct b; vm_compute; congruence.
Qed.

Lemma uint16_small (z : Z) : 0 <= z < 65536 -> uint16 z = z.
Proof.
  intros H. unfold uint16. apply Z.mod_small. exact H.
Qed.

Lemma uint16_b2z (b : byte) : uint16 (b2z b) = b2z b.
Proof.
  apply uint16_small. pose proof (b2z_range b). lia.
Qed.

(** The 15-bit Fast-Path length as the source computes it, casts included,
    is the plain [((a & 0x7F) << 8) | b]. *)
Lemma fastPath_length15 (a b : byte) :
  Z.lor (uint16 (Z.shiftl (uint16 (Z.land (b2z a) 127)) 8)) (uint16 (b2z b)) =
  Z.lor (Z.shiftl (Z.land (b2z a) 127) 8) (b2z b).
Proof.
  pose proof (land127_range a) as Ha.
  rewrite (uint16_small (Z.land (b2z a) 127)) by lia.
  rewrite uint16_b2z.
  rewrite uint16_small; [reflexivity|].
  rewrite Z.shiftl_mul_pow2 by lia. change (2 ^ 8) with 256. lia.
Qed.

Lemma FindPduSize_FastPath7 (b0 a : byte) (tl : list byte) :
  Z.land (b2z b0) 3 = 0 ->
  Z.land (b2z a) 128 = 0 ->
  FindPduSize (b0 :: a :: tl) = Ok (mkPduInfo ActionFastPath (b2z a)).
Proof.
  intros H0 Ha. unfold FindPduSize, len, idx.
  cbn [length nth].
  replace (Z.of_nat (S (S (length tl))) <? MinHeaderSize) with false
    by (symmetry; apply Z.ltb_ge; unfold MinHeaderSize; lia).
  replace (Z.of_nat (S (S (length tl))) <? FastPathMinSize) with false
    by (symmetry; apply Z.ltb_ge; unfold FastPathMinSize; lia).
  rewrite H0, Ha. cbn [Z.eqb negb]. rewrite uint16_b2z.
  destruct (Z.eqb_spec (b2z a) 0) as [E|E]; [rewrite E|]; reflexivity.
Qed.

Lemma FindPduSize_FastPath15 (b0 a b : byte) (tl : list byte) :
  Z.land (b2z b0) 3 = 0 ->
  Z.land (b2z a) 128 <> 0 ->
  FindPduSize (b0 :: a :: b :: tl) =
  Ok (mkPduInfo ActionFastPath (Z.lor (Z.shiftl (Z.land (b2z a) 127) 8) (b2z b))).
Proof.
  intros H0 Ha. unfold FindPduSize, len, idx.
  cbn [length nth].
  replace (Z.of_nat (S (S (S (length tl)))) <? MinHeaderSize) with false
    by (symmetry; apply Z.ltb_ge; unfold MinHeaderSize; lia).
  replace (Z.of_nat (S (S (S (length tl)))) <? FastPathMinSize) with false
    by (symmetry; apply Z.ltb_ge; unfold FastPathMinSize; lia).
  replace (Z.of_nat (S (S (S (length tl)))) <? FastPathLargeSize) with false
    by (symmetry; apply Z.ltb_ge; unfold FastPathLargeSize; lia).
  rewrite H0. cbn [Z.eqb].
  destruct (Z.eqb_spec (Z.land (b2z a) 128) 0) as [E|_]; [contradiction|].
  cbn [negb]. rewrite fastPath_length15.
  destruct (Z.eqb_spec (Z.lor (Z.shiftl (Z.land (b2z a) 127) 8) (b2z b)) 0)
    as [E|E]; [rewrite E|]; reflexivity.
Qed.

(** Reading the Fast-Path header: the first byte, one more, and a third
    when the high bit of the second is set. *)
Lemma ReadFrame_FastPath7 (r : Reader) (b0 a : byte) (payload rest : list byte) :
  pending r = b0 :: a :: payload ++ rest ->
  Z.land (b2z b0) 3 = 0 ->
  Z.land (b2z a) 128 = 0 ->
  Z.of_nat (length payload) = b2z a ->
  exists r',
    ReadFrame r = (Ok (b0 :: a :: payload, ActionFastPath), r')
    /\ pending r' = rest /\ final r' = final r.
Proof.
  intros Hp H0 Ha Hlen.
  destruct (ReadFull_app r [b0] (a :: payload ++ rest) 1 Hp eq_refl)
    as (r1 & E1 & P1 & F1).
  destruct (ReadFull_app r1 [a] (payload ++ rest) 1 P1 eq_refl)
    as (r2 & E2 & P2 & F2).
  destruct (ReadFull_app r2 payload rest (Z.to_nat (b2z a)) P2 ltac:(lia))
    as (r3 & E3 & P3 & F3).
  exists r3. split; [|split; [exact P3|congruence]].
  unfold ReadFrame.
  change (Z.to_nat MinHeaderSize) with 1%nat. rewrite E1.
  unfold idx at 1. cbn [nth]. rewrite H0. cbn [Z.eqb].
  change (Z.to_nat (FastPathMinSize - MinHeaderSize)) with 1%nat. rewrite E2.
  cbn [app]. unfold idx. cbn [nth]. rewrite Ha. cbn [Z.eqb negb].
  rewrite (FindPduSize_FastPath7 b0 a [] H0 Ha). cbn [Length].
  rewrite E3. reflexivity.
Qed.

Lemma ReadFrame_FastPath15 (r : Reader) (b0 a b : byte) (payload rest : list byte) :
  pending r = b0 :: a :: b :: payload ++ rest ->
  Z.land (b2z b0) 3 = 0 ->
  Z.land (b2z a) 128 <> 0 ->
  Z.of_nat (length payload) = Z.lor (Z.shiftl (Z.land (b2z a) 127) 8) (b2z b) ->
  exists r',
    ReadFrame r = (Ok (b0 :: a :: b :: payload, ActionFastPath), r')
    /\ pending r' = rest /\ final r' = final r.
Proof.
  intros Hp H0 Ha Hlen.
  destruct (ReadFull_app r [b0] (a :: b :: payload ++ rest) 1 Hp eq_refl)
    as (r1 & E1 & P1 & F1).
  destruct (ReadFull_app r1 [a] (b :: payload ++ rest) 1 P1 eq_refl)
    as (r2 & E2 & P2 & F2).
  destruct (ReadFull_app r2 [b] (payload ++ rest) 1 P2 eq_refl)
    as (r3 & E3 & P3 & F3).
  destruct (ReadFull_app r3 payload rest
              (Z.to_nat (Z.lor (Z.shiftl (Z.land (b2z a) 127) 8) (b2z b)))
              P3 ltac:(lia))
    as (r4 & E4 & P4 & F4).
  exists r4. split; [|split; [exact P4|congruence]].
  unfold ReadFrame.
  change (Z.to_nat MinHeaderSize) with 1%nat. rewrite E1.
  unfold idx at 1. cbn [nth]. rewrite H0. cbn [Z.eqb].
  change (Z.to_nat (FastPathMinSize - MinHeaderSize)) with 1%nat. rewrite E2.
  cbn [app]. unfold idx. cbn [nth].
  destruct (Z.eqb_spec (Z.land (b2z a) 128) 0) as [E|_]; [contradiction|].
  cbn [negb]. rewrite E3. cbn [app].
  rewrite (FindPduSize_FastPath15 b0 a b [] H0 Ha). cbn [Length].
  rewrite E4. reflexivity.
Qed.

(** C1. A stream that begins with a Fast-Path header (low two bits of the
    first byte 00) and holds the frame it announces: [ReadFrame] returns
    header and payload as one Fast-Path frame and consumes exactly these
    bytes.  With the high bit of the second byte clear the header has 2 bytes
    and the payload length is the second byte (0 included); with the high bit
    set the header has 3 bytes and the payload length is
    [((byte2 & 0x7F) << 8) | byte3].  [FindPduSize] reports that length. *)
Theorem ReadFrame_FastPath (r : Reader) (b0 b1 : byte) (tl : list byte) :
  pending r = b0 :: b1 :: tl ->
  Z.land (b2z b0) 3 = 0 ->
  (Z.land (b2z b1) 128 = 0 ->
     FindPduSize [b0; b1] = Ok (mkPduInfo ActionFastPath (b2z b1))
     /\ forall payload rest,
          tl = payload ++ rest ->
          Z.of_nat (length payload) = b2z b1 ->
          exists r',
            ReadFrame r = (Ok ([b0; b1] ++ payload, ActionFastPath), r')
            /\ pending r' = rest /\ final r' = final r
            /\ length ([b0; b1] ++ payload) = (2 + Z.to_nat (b2z b1))%nat)
  /\
  (Z.land (b2z b1) 128 <> 0 ->
     forall b2 tl',
       tl = b2 :: tl' ->
       let length15 := Z.lor (Z.shiftl (Z.land (b2z b1) 127) 8) (b2z b2) in
       FindPduSize [b0; b1; b2] = Ok (mkPduInfo ActionFastPath length15)
       /\ forall payload rest,
            tl' = payload ++ rest ->
            Z.of_nat (length payload) = length15 ->
            exists r',
              ReadFrame r = (Ok ([b0; b1; b2] ++ payload, ActionFastPath), r')
              /\ pending r' = rest /\ final r' = final r
              /\ length ([b0; b1; b2] ++ payload) = (3 + Z.to_nat length15)%nat).
Proof.
  intros Hp H0. split.
  - intros Ha. split; [apply FindPduSize_FastPath7; assumption|].
    intros payload rest -> Hlen.
    destruct (ReadFrame_FastPath7 r b0 b1 payload rest Hp H0 Ha Hlen)
      as (r' & E & P & F).
    exists r'. repeat split; try assumption.
    cbn [app length]. lia.
  - intros Ha b2 tl' -> length15. split; [apply FindPduSize_FastPath15; assumption|].
    intros payload rest -> Hlen.
    destruct (ReadFrame_FastPath15 r b0 b1 b2 payload rest Hp H0 Ha Hlen)
      as (r' & E & P & F).
    exists r'. repeat split; try assumption.
    cbn [app length]. lia.
Qed.

Lemma ReadFrame_FastPath_witness :
  (exists r',
     ReadFrame (mkReader [[x00]; [x03; x0a]; [x0b; x0c; xff]] io_EOF) =
       (Ok ([x00; x03] ++ [x0a; x0b; x0c], ActionFastPath), r')
     /\ pending r' = [xff] /\ final r' = io_EOF
     /\ length ([x00; x03] ++ [x0a; x0b; x0c]) = (2 + Z.to_nat (b2z x03))%nat)
  /\
  (exists r',
     ReadFrame (mkReader [[x04; x80]; [x02; x10; x20; x30]] io_EOF) =
       (Ok ([x04; x80; x02] ++ [x10; x20], ActionFastPath), r')
     /\ pending r' = [x30] /\ final r' = io_EOF
     /\ length ([x04; x80; x02] ++ [x10; x20]) = (3 + 2)%nat).
Proof.
  split.
  - destruct (ReadFrame_FastPath
                (mkReader [[x00]; [x03; x0a]; [x0b; x0c; xff]] io_EOF)
                x00 x03 [x0a; x0b; x0c; xff] eq_refl eq_refl) as [H7 _].
    destruct (H7 eq_refl) as [_ H].
    exact (H [x0a; x0b; x0c] [xff] eq_refl eq_refl).
  - destruct (ReadFrame_FastPath
                (mkReader [[x04; x80]; [x02; x10; x20; x30]] io_EOF)
                x04 x80 [x02; x10; x20; x30] eq_refl eq_refl) as [_ H15].
    assert (Hne : Z.land (b2z x80) 128 <> 0) by (vm_compute; discriminate).
    destruct (H15 Hne x02 [x10; x20; x30] eq_refl) as [_ H].
    exact (H [x10; x20] [x30] eq_refl eq_refl).
Defined.

(** [binary.BigEndian.Uint16] is the number written by the two bytes, most
    significant first. *)
Lemma BigEndian_Uint16_value (hi lo : byte) :
  BigEndian_Uint16 hi lo = 256 * b2z hi + b2z lo.
Proof.
  unfold BigEndian_Uint16.
  pose proof (b2z_range hi) as Hh. pose proof (b2z_range lo) as Hl.
  rewrite uint16_small.
  - apply lor_shiftl8. exact Hl.
  - rewrite Z.shiftl_mul_pow2 by lia. change (2 ^ 8) with 256. lia.
Qed.

Lemma FindPduSize_TPKT (b0 b1 hi lo : byte) (tl : list byte) :
  b2z b0 = 3 ->
  TPKTHeaderSize <= 256 * b2z hi + b2z lo ->
  FindPduSize (b0 :: b1 :: hi :: lo :: tl) =
  Ok (mkPduInfo ActionX224 (256 * b2z hi + b2z lo)).
Proof.
  intros H0 Hlen. unfold FindPduSize, len, idx. cbn [length nth].
  replace (Z.of_nat (S (S (S (S (length tl))))) <? MinHeaderSize) with false
    by (symmetry; apply Z.ltb_ge; unfold MinHeaderSize; lia).
  replace (Z.of_nat (S (S (S (S (length tl))))) <? TPKTHeaderSize) with false
    by (symmetry; apply Z.ltb_ge; unfold TPKTHeaderSize; lia).
  rewrite H0. cbn [Z.land Pos.land Z.eqb Pos.eqb negb Z.of_N].
  rewrite BigEndian_Uint16_value.
  replace (256 * b2z hi + b2z lo <? TPKTHeaderSize) with false
    by (symmetry; apply Z.ltb_ge; lia).
  reflexivity.
Qed.

Lemma ReadFrame_TPKT_general (r : Reader) (b0 b1 hi lo : byte)
  (payload rest : list byte) :
  pending r = b0 :: b1 :: hi :: lo :: payload ++ rest ->
  b2z b0 = 3 ->
  TPKTHeaderSize <= 256 * b2z hi + b2z lo ->
  Z.of_nat (length payload) = 256 * b2z hi + b2z lo - TPKTHeaderSize ->
  exists r',
    ReadFrame r = (Ok (b0 :: b1 :: hi :: lo :: payload, ActionX224), r')
    /\ pending r' = rest /\ final r' = final r.
Proof.
  intros Hp H0 Hmin Hlen.
  destruct (ReadFull_app r [b0] (b1 :: hi :: lo :: payload ++ rest) 1 Hp eq_refl)
    as (r1 & E1 & P1 & F1).
  destruct (ReadFull_app r1 [b1; hi; lo] (payload ++ rest) 3 P1 eq_refl)
    as (r2 & E2 & P2 & F2).
  unfold ReadFrame.
  change (Z.to_nat MinHeaderSize) with 1%nat. rewrite E1.
  unfold idx. cbn [nth]. rewrite H0.
  change (Z.land 3 3) with 3. change (3 =? 0) with false.
  change (3 =? 3) with true. cbv iota.
  change (Z.to_nat (TPKTHeaderSize - MinHeaderSize)) with 3%nat. rewrite E2.
  cbn [app]. rewrite (FindPduSize_TPKT b0 b1 hi lo [] H0 Hmin). cbn [Length].
  replace (256 * b2z hi + b2z lo - TPKTHeaderSize <? 0) with false
    by (symmetry; apply Z.ltb_ge; lia).
  destruct (Z.ltb_spec 0 (256 * b2z hi + b2z lo - TPKTHeaderSize)) as [Hpos|Hz].
  - destruct (ReadFull_app r2 payload rest
                (Z.to_nat (256 * b2z hi + b2z lo - TPKTHeaderSize)) P2 ltac:(lia))
      as (r3 & E3 & P3 & F3).
    rewrite E3. exists r3. split; [reflexivity|split; [exact P3|congruence]].
  - assert (payload = []) by (destruct payload; [reflexivity|cbn [length] in Hlen; lia]).
    subst payload. exists r2. split; [reflexivity|split; [exact P2|congruence]].
Qed.

(** C2. A stream that begins with a TPKT header (first byte 3, bytes 2-3 a
    big-endian total length of at least 4) and holds the frame it announces:
    [ReadFrame] returns the header and the [total - 4] payload bytes as one
    X.224 frame, consuming exactly [total] bytes, and [FindPduSize] reports
    [total].  In particular the stream 03 00 00 08 AA BB CC DD gives the
    frame of total length 8 with payload AA BB CC DD. *)
Theorem ReadFrame_TPKT :
  (forall (r : Reader) (b0 b1 hi lo : byte) (payload rest : list byte),
     let total := 256 * b2z hi + b2z lo in
     pending r = b0 :: b1 :: hi :: lo :: payload ++ rest ->
     b2z b0 = 3 ->
     4 <= total ->
     Z.of_nat (length payload) = total - 4 ->
     FindPduSize [b0; b1; hi; lo] = Ok (mkPduInfo ActionX224 total)
     /\ exists r',
          ReadFrame r = (Ok ([b0; b1; hi; lo] ++ payload, ActionX224), r')
          /\ pending r' = rest /\ final r' = final r
          /\ Z.of_nat (length ([b0; b1; hi; lo] ++ payload)) = total)
  /\
  (forall r : Reader,
     pending r = [x03; x00; x00; x08; xaa; xbb; xcc; xdd] ->
     FindPduSize [x03; x00; x00; x08] = Ok (mkPduInfo ActionX224 8)
     /\ exists r',
          ReadFrame r =
            (Ok ([x03; x00; x00; x08] ++ [xaa; xbb; xcc; xdd], ActionX224), r')
          /\ pending r' = []).
Proof.
  assert (G : forall (r : Reader) (b0 b1 hi lo : byte) (payload rest : list byte),
     pending r = b0 :: b1 :: hi :: lo :: payload ++ rest ->
     b2z b0 = 3 ->
     4 <= 256 * b2z hi + b2z lo ->
     Z.of_nat (length payload) = 256 * b2z hi + b2z lo - 4 ->
     FindPduSize [b0; b1; hi; lo] =
       Ok (mkPduInfo ActionX224 (256 * b2z hi + b2z lo))
     /\ exists r',
          ReadFrame r = (Ok ([b0; b1; hi; lo] ++ payload, ActionX224), r')
          /\ pending r' = rest /\ final r' = final r
          /\ Z.of_nat (length ([b0; b1; hi; lo] ++ payload)) =
               256 * b2z hi + b2z lo).
  { intros r b0 b1 hi lo payload rest Hp H0 Hmin Hlen.
    split; [apply FindPduSize_TPKT; assumption|].
    destruct (ReadFrame_TPKT_general r b0 b1 hi lo payload rest Hp H0 Hmin Hlen)
      as (r' & E & P & F).
    exists r'. repeat split; try assumption.
    cbn [app length]. lia. }
  split; [exact G|].
  intros r Hp.
  destruct (G r x03 x00 x00 x08 [xaa; xbb; xcc; xdd] [] Hp eq_refl)
    as (HF & r' & E & P & _); [vm_compute; discriminate|reflexivity|].
  split; [exact HF|]. exists r'. split; assumption.
Qed.

Lemma ReadFrame_TPKT_witness :
  FindPduSize [x03; x00; x00; x06] = Ok (mkPduInfo ActionX224 6)
  /\ exists r',
       ReadFrame (mkReader [[x03; x00]; [x00; x06; x11]; [x22; x33]] io_EOF) =
         (Ok ([x03; x00; x00; x06] ++ [x11; x22], ActionX224), r')
       /\ pending r' = [x33] /\ final r' = io_EOF
       /\ Z.of_nat (length ([x03; x00; x00; x06] ++ [x11; x22])) = 6.
Proof.
  refine (proj1 ReadFrame_TPKT
            (mkReader [[x03; x00]; [x00; x06; x11]; [x22; x33]] io_EOF)
            x03 x00 x00 x06 [x11; x22] [x33] eq_refl eq_refl _ eq_refl).
  vm_compute. discriminate.
Defined.

Lemma length15_nonneg (a b : byte) :
  0 <= Z.lor (Z.shiftl (Z.land (b2z a) 127) 8) (b2z b).
Proof.
  apply Z.lor_nonneg. split.
  - apply Z.shiftl_nonneg. apply (land127_range a).
  - apply (b2z_range b).
Qed.

Lemma FindPduSize_TPKT_inv (b0 b1 hi lo : byte) (tl : list byte) (info : PduInfo) :
  Z.land (b2z b0) 3 = 3 ->
  FindPduSize (b0 :: b1 :: hi :: lo :: tl) = Ok info ->
  b2z b0 = 3 /\ TPKTHeaderSize <= 256 * b2z hi + b2z lo
  /\ info = mkPduInfo ActionX224 (256 * b2z hi + b2z lo).
Proof.
  intros H3. unfold FindPduSize, len, idx. cbn [length nth].
  replace (Z.of_nat (S (S (S (S (length tl))))) <? MinHeaderSize) with false
    by (symmetry; apply Z.ltb_ge; unfold MinHeaderSize; lia).
  replace (Z.of_nat (S (S (S (S (length tl))))) <? TPKTHeaderSize) with false
    by (symmetry; apply Z.ltb_ge; unfold TPKTHeaderSize; lia).
  rewrite H3. change (3 =? 0) with false. change (3 =? 3) with true. cbv iota.
  destruct (Z.eqb_spec (b2z b0) 3) as [E|E]; cbn [negb]; [|discriminate].
  rewrite BigEndian_Uint16_value.
  destruct (Z.ltb_spec (256 * b2z hi + b2z lo) TPKTHeaderSize) as [Hlt|Hge];
    [discriminate|].
  intros [= <-]. auto.
Qed.
(** A frame that [ReadFrame] returns is complete: it is a prefix of the
    stream, of one of the three shapes, with a payload as long as its header
    declares. *)
Lemma ReadFrame_Ok_inv (r r' : Reader) (f : list byte) (act : Action) :
  ReadFrame r = (Ok (f, act), r') ->
  pending r = f ++ pending r' /\ final r' = final r /\
  ((exists b0 a payload,
      f = b0 :: a :: payload /\ Z.land (b2z b0) 3 = 0 /\
      Z.land (b2z a) 128 = 0 /\ Z.of_nat (length payload) = b2z a /\
      act = ActionFastPath)
   \/
   (exists b0 a b payload,
      f = b0 :: a :: b :: payload /\ Z.land (b2z b0) 3 = 0 /\
      Z.land (b2z a) 128 <> 0 /\
      Z.of_nat (length payload) =
        Z.lor (Z.shiftl (Z.land (b2z a) 127) 8) (b2z b) /\
      act = ActionFastPath)
   \/
   (exists b0 b1 hi lo payload,
      f = b0 :: b1 :: hi :: lo :: payload /\ b2z b0 = 3 /\
      TPKTHeaderSize <= 256 * b2z hi + b2z lo /\
      Z.of_nat (length payload) = 256 * b2z hi + b2z lo - TPKTHeaderSize /\
      act = ActionX224)).
Proof.
  unfold ReadFrame. change (Z.to_nat MinHeaderSize) with 1%nat.
  destruct (ReadFull_cases r 1) as [(h1 & r1 & E1 & P1 & F1 & L1)|(e & E1 & _)];
    rewrite E1; [|discriminate].
  destruct h1 as [|b0 [|? ?]]; try discriminate L1.
  unfold idx at 1 2 3. cbn [nth].
  destruct (Z.eqb_spec (Z.land (b2z b0) 3) 0) as [H0|H0].
  - change (Z.to_nat (FastPathMinSize - MinHeaderSize)) with 1%nat.
    destruct (ReadFull_cases r1 1) as [(h2 & r2 & E2 & P2 & F2 & L2)|(e & E2 & _)];
      rewrite E2; [|discriminate].
    destruct h2 as [|a [|? ?]]; try discriminate L2.
    cbn [app]. unfold idx. cbn [nth].
    destruct (Z.eqb_spec (Z.land (b2z a) 128) 0) as [Ha|Ha]; cbn [negb].
    + rewrite (FindPduSize_FastPath7 b0 a [] H0 Ha). cbn [Length].
      destruct (ReadFull_cases r2 (Z.to_nat (b2z a)))
        as [(h3 & r3 & E3 & P3 & F3 & L3)|(e & E3 & _)]; rewrite E3; [|discriminate].
      intros [= <- <- <-].
      split; [rewrite P1, P2, P3; reflexivity|].
      split; [congruence|]. left.
      exists b0, a, h3.
      pose proof (b2z_range a). repeat split; try assumption. lia.
    + destruct (ReadFull_cases r2 1) as [(h3 & r3 & E3 & P3 & F3 & L3)|(e & E3 & _)];
        rewrite E3; [|discriminate].
      destruct h3 as [|b [|? ?]]; try discriminate L3.
      cbn [app]. rewrite (FindPduSize_FastPath15 b0 a b [] H0 Ha). cbn [Length].
      pose proof (length15_nonneg a b) as Hnn.
      destruct (ReadFull_cases r3
                  (Z.to_nat (Z.lor (Z.shiftl (Z.land (b2z a) 127) 8) (b2z b))))
        as [(h4 & r4 & E4 & P4 & F4 & L4)|(e & E4 & _)]; rewrite E4; [|discriminate].
      intros [= <- <- <-].
      split; [rewrite P1, P2, P3, P4; reflexivity|].
      split; [congruence|]. right. left.
      exists b0, a, b. eexists. repeat split; try eassumption. lia.
  - destruct (Z.eqb_spec (Z.land (b2z b0) 3) 3) as [H3|H3]; [|discriminate].
    change (Z.to_nat (TPKTHeaderSize - MinHeaderSize)) with 3%nat.
    destruct (ReadFull_cases r1 3) as [(h2 & r2 & E2 & P2 & F2 & L2)|(e & E2 & _)];
      rewrite E2; [|discriminate].
    destruct h2 as [|b1 [|hi [|lo [|? ?]]]]; try discriminate L2.
    cbn [app].
    destruct (FindPduSize [b0; b1; hi; lo]) as [info|e] eqn:EF; [|discriminate].
    destruct (FindPduSize_TPKT_inv b0 b1 hi lo [] info H3 EF) as (Hb0 & Hmin & ->).
    cbn [Length].
    replace (256 * b2z hi + b2z lo - TPKTHeaderSize <? 0) with false
      by (symmetry; apply Z.ltb_ge; lia).
    destruct (Z.ltb_spec 0 (256 * b2z hi + b2z lo - TPKTHeaderSize)) as [Hpos|Hz].
    + destruct (ReadFull_cases r2
                  (Z.to_nat (256 * b2z hi + b2z lo - TPKTHeaderSize)))
        as [(h3 & r3 & E3 & P3 & F3 & L3)|(e & E3 & _)]; rewrite E3; [|discriminate].
      intros [= <- <- <-].
      split; [rewrite P1, P2, P3; reflexivity|].
      split; [congruence|]. right. right.
      exists b0, b1, hi, lo. eexists. repeat split; try eassumption. lia.
    + intros [= <- <- <-].
      split; [rewrite P1, P2; reflexivity|].
      split; [congruence|]. right. right.
      exists b0, b1, hi, lo, []. repeat split; try assumption.
      cbn [length]. lia.
Qed.

Lemma eofToUnexpected_EOF (e : error) :
  e = io_EOF \/ e = io_ErrUnexpectedEOF -> eofToUnexpected e = io_ErrUnexpectedEOF.
Proof.
  intros [->| ->]; reflexivity.
Qed.

Lemma ReadFull_short_EOF (r : Reader) (n : nat) :
  final r = io_EOF ->
  (length (pending r) < n)%nat ->
  exists e r',
    ReadFull r n = (pending r, Some e, r')
    /\ eofToUnexpected e = io_ErrUnexpectedEOF.
Proof.
  intros Hf Hlt.
  destruct (ReadFull_cases r n) as [(g & r' & E & P & F & L)|(e & E & _ & He)].
  - rewrite P, length_app in Hlt. lia.
  - exists e, (mkReader [] (final r)). split; [exact E|].
    apply eofToUnexpected_EOF. auto.
Qed.

(** The stream ends inside a 7-bit Fast-Path frame. *)
Lemma ReadFrame_cut_FastPath7 (r : Reader) (b0 a : byte) (payload more : list byte) :
  final r = io_EOF ->
  Z.land (b2z b0) 3 = 0 ->
  Z.land (b2z a) 128 = 0 ->
  Z.of_nat (length payload) = b2z a ->
  pending r ++ more = b0 :: a :: payload ->
  more <> [] ->
  exists r', ReadFrame r = (Fail io_ErrUnexpectedEOF, r').
Proof.
  intros Hf H0 Ha Hlen Hcut Hmore. unfold ReadFrame.
  change (Z.to_nat MinHeaderSize) with 1%nat.
  destruct (pending r) as [|x p] eqn:Hp.
  - destruct (ReadFull_short_EOF r 1 Hf) as (e & r' & E & He);
      [rewrite Hp; cbn [length]; lia|].
    rewrite E, He. eauto.
  - injection Hcut as -> Hcut.
    destruct (ReadFull_app r [b0] p 1 Hp eq_refl) as (r1 & E1 & P1 & F1).
    rewrite E1. unfold idx at 1. cbn [nth]. rewrite H0. cbn [Z.eqb].
    change (Z.to_nat (FastPathMinSize - MinHeaderSize)) with 1%nat.
    assert (Hf1 : final r1 = io_EOF) by congruence.
    destruct p as [|y p].
    + destruct (ReadFull_short_EOF r1 1 Hf1) as (e & r' & E & He);
        [rewrite P1; cbn [length]; lia|].
      rewrite E, He. eauto.
    + injection Hcut as -> Hcut.
      destruct (ReadFull_app r1 [a] p 1 P1 eq_refl) as (r2 & E2 & P2 & F2).
      rewrite E2. cbn [app]. unfold idx. cbn [nth]. rewrite Ha. cbn [Z.eqb negb].
      rewrite (FindPduSize_FastPath7 b0 a [] H0 Ha). cbn [Length].
      assert (Hf2 : final r2 = io_EOF) by congruence.
      destruct (ReadFull_short_EOF r2 (Z.to_nat (b2z a)) Hf2) as (e & r' & E & He).
      * rewrite P2. rewrite <- Hcut, length_app in Hlen.
        destruct more; [contradiction|]. cbn [length] in Hlen. lia.
      * rewrite E, He. eauto.
Qed.

(** The stream ends inside a 15-bit Fast-Path frame. *)
Lemma ReadFrame_cut_FastPath15 (r : Reader) (b0 a b : byte)
  (payload more : list byte) :
  final r = io_EOF ->
  Z.land (b2z b0) 3 = 0 ->
  Z.land (b2z a) 128 <> 0 ->
  Z.of_nat (length payload) = Z.lor (Z.shiftl (Z.land (b2z a) 127) 8) (b2z b) ->
  pending r ++ more = b0 :: a :: b :: payload ->
  more <> [] ->
  exists r', ReadFrame r = (Fail io_ErrUnexpectedEOF, r').
Proof.
  intros Hf H0 Ha Hlen Hcut Hmore. unfold ReadFrame.
  change (Z.to_nat MinHeaderSize) with 1%nat.
  destruct (pending r) as [|x p] eqn:Hp.
  - destruct (ReadFull_short_EOF r 1 Hf) as (e & r' & E & He);
      [rewrite Hp; cbn [length]; lia|].
    rewrite E, He. eauto.
  - injection Hcut as -> Hcut.
    destruct (ReadFull_app r [b0] p 1 Hp eq_refl) as (r1 & E1 & P1 & F1).
    rewrite E1. unfold idx at 1. cbn [nth]. rewrite H0. cbn [Z.eqb].
    change (Z.to_nat (FastPathMinSize - MinHeaderSize)) with 1%nat.
    assert (Hf1 : final r1 = io_EOF) by congruence.
    destruct p as [|y p].
    + destruct (ReadFull_short_EOF r1 1 Hf1) as (e & r' & E & He);
        [rewrite P1; cbn [length]; lia|].
      rewrite E, He. eauto.
    + injection Hcut as -> Hcut.
      destruct (ReadFull_app r1 [a] p 1 P1 eq_refl) as (r2 & E2 & P2 & F2).
      rewrite E2. cbn [app]. unfold idx. cbn [nth].
      destruct (Z.eqb_spec (Z.land (b2z a) 128) 0) as [E|_]; [contradiction|].
      cbn [negb].
      assert (Hf2 : final r2 = io_EOF) by congruence.
      destruct p as [|z p].
      * destruct (ReadFull_short_EOF r2 1 Hf2) as (e & r' & E & He);
          [rewrite P2; cbn [length]; lia|].
        rewrite E, He. eauto.
      * injection Hcut as -> Hcut.
        destruct (ReadFull_app r2 [b] p 1 P2 eq_refl) as (r3 & E3 & P3 & F3).
        rewrite E3. cbn [app].
        rewrite (FindPduSize_FastPath15 b0 a b [] H0 Ha). cbn [Length].
        assert (Hf3 : final r3 = io_EOF) by congruence.
        destruct (ReadFull_short_EOF r3
                    (Z.to_nat (Z.lor (Z.shiftl (Z.land (b2z a) 127) 8) (b2z b)))
                    Hf3) as (e & r' & E & He).
        -- rewrite P3. rewrite <- Hcut, length_app in Hlen.
           destruct more; [contradiction|]. cbn [length] in Hlen. lia.
        -- rewrite E, He. eauto.
Qed.

(** The stream ends inside a TPKT frame. *)
Lemma ReadFrame_cut_TPKT (r : Reader) (b0 b1 hi lo : byte)
  (payload more : list byte) :
  final r = io_EOF ->
  b2z b0 = 3 ->
  TPKTHeaderSize <= 256 * b2z hi + b2z lo ->
  Z.of_nat (length payload) = 256 * b2z hi + b2z lo - TPKTHeaderSize ->
  pending r ++ more = b0 :: b1 :: hi :: lo :: payload ->
  more <> [] ->
  exists r', ReadFrame r = (Fail io_ErrUnexpectedEOF, r').
Proof.
  intros Hf H0 Hmin Hlen Hcut Hmore. unfold ReadFrame.
  change (Z.to_nat MinHeaderSize) with 1%nat.
  destruct (pending r) as [|x p] eqn:Hp.
  - destruct (ReadFull_short_EOF r 1 Hf) as (e & r' & E & He);
      [rewrite Hp; cbn [length]; lia|].
    rewrite E, He. eauto.
  - injection Hcut as -> Hcut.
    destruct (ReadFull_app r [b0] p 1 Hp eq_refl) as (r1 & E1 & P1 & F1).
    rewrite E1. unfold idx. cbn [nth]. rewrite H0.
    change (Z.land 3 3) with 3. change (3 =? 0) with false.
    change (3 =? 3) with true. cbv iota.
    change (Z.to_nat (TPKTHeaderSize - MinHeaderSize)) with 3%nat.
    assert (Hf1 : final r1 = io_EOF) by congruence.
    destruct (Nat.le_gt_cases 3 (length p)) as [Hge|Hlt].
    + destruct p as [|y1 [|y2 [|y3 p]]]; cbn [length] in Hge; try lia.
      injection Hcut as -> -> -> Hcut.
      destruct (ReadFull_app r1 [b1; hi; lo] p 3 P1 eq_refl) as (r2 & E2 & P2 & F2).
      rewrite E2. cbn [app].
      rewrite (FindPduSize_TPKT b0 b1 hi lo [] H0 Hmin). cbn [Length].
      assert (Hpos : 0 < 256 * b2z hi + b2z lo - TPKTHeaderSize).
      { rewrite <- Hlen, <- Hcut, length_app.
        destruct more; [contradiction|]. cbn [length]. lia. }
      replace (256 * b2z hi + b2z lo - TPKTHeaderSize <? 0) with false
        by (symmetry; apply Z.ltb_ge; lia).
      replace (0 <? 256 * b2z hi + b2z lo - TPKTHeaderSize) with true
        by (symmetry; apply Z.ltb_lt; lia).
      assert (Hf2 : final r2 = io_EOF) by congruence.
      destruct (ReadFull_short_EOF r2
                  (Z.to_nat (256 * b2z hi + b2z lo - TPKTHeaderSize)) Hf2)
        as (e & r' & E & He).
      * rewrite P2. rewrite <- Hcut, length_app in Hlen.
        destruct more; [contradiction|]. cbn [length] in Hlen. lia.
      * rewrite E, He. eauto.
    + destruct (ReadFull_short_EOF r1 3 Hf1) as (e & r' & E & He);
        [rewrite P1; exact Hlt|].
      rewrite E, He. eauto.
Qed.

Lemma app_strict_prefix (p more f rest : list byte) :
  p ++ more = f ++ rest ->
  (length p < length f)%nat ->
  exists more', more' <> [] /\ p ++ more' = f.
Proof.
  intros E Hlt. exists (skipn (length p) f). split.
  - intros Hn. apply (f_equal (@length byte)) in Hn.
    rewrite length_skipn in Hn. cbn [length] in Hn. lia.
  - rewrite <- (firstn_skipn (length p) f) at 2. f_equal.
    apply (f_equal (firstn (length p))) in E.
    rewrite !firstn_app, Nat.sub_diag, firstn_all, firstn_O, app_nil_r in E.
    replace (length p - length f)%nat with 0%nat in E by lia.
    rewrite firstn_O, app_nil_r in E. exact E.
Qed.

(** C5 (amended). A stream that ends with [io.EOF] before the frame it began
    is complete makes [ReadFrame] fail with [io.ErrUnexpectedEOF]; a frame
    that [ReadFrame] returns is never short: it is a prefix of the stream as
    long as its header and declared length require.  A clean end of stream
    with no byte pending is reported with the same [io.ErrUnexpectedEOF]. *)
Theorem ReadFrame_truncated :
  (forall (r r2 r2' : Reader) (f more : list byte) (act : Action),
     final r = io_EOF ->
     ReadFrame r2 = (Ok (f, act), r2') ->
     pending r2 = pending r ++ more ->
     (length (pending r) < length f)%nat ->
     exists r', ReadFrame r = (Fail io_ErrUnexpectedEOF, r'))
  /\
  (forall (r r' : Reader) (f : list byte) (act : Action),
     ReadFrame r = (Ok (f, act), r') ->
     pending r = f ++ pending r'
     /\ frameSize f = Some (Z.of_nat (length f)))
  /\
  (forall r : Reader,
     pending r = [] ->
     final r = io_EOF ->
     exists r', ReadFrame r = (Fail io_ErrUnexpectedEOF, r')).
Proof.
  split; [|split].
  - intros r r2 r2' f more act Hf E2 Hp Hlt.
    destruct (ReadFrame_Ok_inv r2 r2' f act E2) as (P & _ & Shape).
    rewrite Hp in P.
    destruct (app_strict_prefix _ _ _ _ P Hlt) as (more' & Hne & Hcut).
    destruct Shape as [(b0 & a & payload & -> & H0 & Ha & Hlen & _)
                      |[(b0 & a & b & payload & -> & H0 & Ha & Hlen & _)
                       |(b0 & b1 & hi & lo & payload & -> & H0 & Hmin & Hlen & _)]].
    + exact (ReadFrame_cut_FastPath7 r b0 a payload more' Hf H0 Ha Hlen Hcut Hne).
    + exact (ReadFrame_cut_FastPath15 r b0 a b payload more' Hf H0 Ha Hlen Hcut Hne).
    + exact (ReadFrame_cut_TPKT r b0 b1 hi lo payload more' Hf H0 Hmin Hlen Hcut Hne).
  - intros r r' f act E.
    destruct (ReadFrame_Ok_inv r r' f act E) as (P & _ & Shape).
    split; [exact P|]. unfold frameSize.
    destruct Shape as [(b0 & a & payload & -> & H0 & Ha & Hlen & _)
                      |[(b0 & a & b & payload & -> & H0 & Ha & Hlen & _)
                       |(b0 & b1 & hi & lo & payload & -> & H0 & Hmin & Hlen & _)]].
    + rewrite (FindPduSize_FastPath7 b0 a payload H0 Ha). cbn [Action_ Length].
      unfold idx. cbn [nth]. rewrite Ha. cbn [Z.eqb negb].
      f_equal. unfold FastPathMinSize. cbn [length]. lia.
    + rewrite (FindPduSize_FastPath15 b0 a b payload H0 Ha). cbn [Action_ Length].
      unfold idx. cbn [nth].
      destruct (Z.eqb_spec (Z.land (b2z a) 128) 0) as [E0|_]; [contradiction|].
      cbn [negb]. f_equal. unfold FastPathLargeSize. cbn [length]. lia.
    + rewrite (FindPduSize_TPKT b0 b1 hi lo payload H0 Hmin). cbn [Action_ Length].
      f_equal. unfold TPKTHeaderSize in Hlen. cbn [length]. lia.
  - intros r Hp Hf. unfold ReadFrame.
    destruct (ReadFull_short_EOF r (Z.to_nat MinHeaderSize) Hf) as (e & r' & E & He).
    + rewrite Hp. cbn. lia.
    + rewrite E, He. eauto.
Qed.

Lemma ReadFrame_truncated_witness :
  exists r',
    ReadFrame (mkReader [[x00; x05]; [x01]] io_EOF) = (Fail io_ErrUnexpectedEOF, r').
Proof.
  apply (proj1 ReadFrame_truncated
           (mkReader [[x00; x05]; [x01]] io_EOF)
           (mkReader [[x00; x05; x01; x02; x03; x04; x05]] io_EOF)
           (mkReader [] io_EOF)
           [x00; x05; x01; x02; x03; x04; x05]
           [x02; x03; x04; x05]
           ActionFastPath).
  - reflexivity.
  - vm_compute. reflexivity.
  - reflexivity.
  - cbn. lia.
Defined.

(** C5, as the specification states it, fails: the clean end of a stream
    (no byte pending, [io.EOF]) and a stream cut inside a frame are reported
    with one and the same error. *)
Lemma ReadFrame_clean_EOF_not_distinct :
  fst (ReadFrame (mkReader [] io_EOF)) = Fail io_ErrUnexpectedEOF
  /\ fst (ReadFrame (mkReader [[x00; x05; x01]] io_EOF)) = Fail io_ErrUnexpectedEOF.
Proof.
  split; vm_compute; reflexivity.
Qed.

Lemma land3_cases (b : byte) :
  Z.land (b2z b) 3 = 0 \/ Z.land (b2z b) 3 = 1
  \/ Z.land (b2z b) 3 = 2 \/ Z.land (b2z b) 3 = 3.
Proof.
  destruct b; vm_compute; auto.
Qed.

Lemma FindPduSize_unknown_action (b0 : byte) (tl : list byte) :
  Z.land (b2z b0) 3 = 1 \/ Z.land (b2z b0) 3 = 2 ->
  FindPduSize (b0 :: tl) =
  Fail (Wrapf "%w: unknown action code %d (from header byte 0x%x)"
         [Z.land (b2z b0) 3; b2z b0] ErrInvalidAction).
Proof.
  intros H. unfold FindPduSize, len, idx. cbn [length nth].
  replace (Z.of_nat (S (length tl)) <? MinHeaderSize) with false
    by (symmetry; apply Z.ltb_ge; unfold MinHeaderSize; lia).
  destruct H as [H|H]; rewrite H; reflexivity.
Qed.

Lemma ReadFrame_unknown_action (r : Reader) (b0 : byte) (tl : list byte) :
  pending r = b0 :: tl ->
  Z.land (b2z b0) 3 = 1 \/ Z.land (b2z b0) 3 = 2 ->
  exists r',
    ReadFrame r =
    (Fail (Wrapf "%w: unknown action code %d (from header byte 0x%x)"
            [Z.land (b2z b0) 3; b2z b0] ErrInvalidAction), r').
Proof.
  intros Hp H.
  destruct (ReadFull_app r [b0] tl 1 Hp eq_refl) as (r1 & E1 & P1 & F1).
  exists r1. unfold ReadFrame. change (Z.to_nat MinHeaderSize) with 1%nat.
  rewrite E1. unfold idx. cbn [nth].
  destruct H as [H|H]; rewrite H; reflexivity.
Qed.

Lemma FindPduSize_TPKT_header (b0 b1 hi lo : byte) (tl : list byte) :
  Z.land (b2z b0) 3 = 3 ->
  FindPduSize (b0 :: b1 :: hi :: lo :: tl) =
  if negb (b2z b0 =? 3) then
    Fail (Errorf "invalid TPKT header version: expected 0x03, got 0x%x" [b2z b0])
  else if 256 * b2z hi + b2z lo <? TPKTHeaderSize then
    Fail (Wrapf "%w: TPKT length (%d) is smaller than header size (%d)"
            [256 * b2z hi + b2z lo; TPKTHeaderSize] ErrInvalidLength)
  else Ok (mkPduInfo ActionX224 (256 * b2z hi + b2z lo)).
Proof.
  intros H3. unfold FindPduSize, len, idx. cbn [length nth].
  replace (Z.of_nat (S (S (S (S (length tl))))) <? MinHeaderSize) with false
    by (symmetry; apply Z.ltb_ge; unfold MinHeaderSize; lia).
  replace (Z.of_nat (S (S (S (S (length tl))))) <? TPKTHeaderSize) with false
    by (symmetry; apply Z.ltb_ge; unfold TPKTHeaderSize; lia).
  rewrite H3. change (3 =? 0) with false. change (3 =? 3) with true. cbv iota.
  rewrite BigEndian_Uint16_value. reflexivity.
Qed.

(** C6 (amended). A first byte with low two bits 01 or 10 makes frame
    detection fail with the unknown-action error, which wraps
    [ErrInvalidAction], in [FindPduSize] and in [ReadFrame].  With low two
    bits 11 and a complete 4-byte header, detection fails with the
    invalid-version error when the version byte is not 3, whatever the
    length field says (that error wraps neither [ErrInvalidLength] nor
    [ErrInvalidAction]), and fails with the error that wraps
    [ErrInvalidLength] when the version byte is 3 and the big-endian total
    length is below 4. *)
Theorem FindPduSize_malformed :
  (forall (b0 : byte) (tl : list byte),
     Z.land (b2z b0) 3 = 1 \/ Z.land (b2z b0) 3 = 2 ->
     (exists e,
        FindPduSize (b0 :: tl) = Fail e
        /\ e = Wrapf "%w: unknown action code %d (from header byte 0x%x)"
                 [Z.land (b2z b0) 3; b2z b0] ErrInvalidAction
        /\ Is e ErrInvalidAction = true)
     /\ forall r : Reader,
          pending r = b0 :: tl ->
          exists e r',
            ReadFrame r = (Fail e, r')
            /\ e = Wrapf "%w: unknown action code %d (from header byte 0x%x)"
                     [Z.land (b2z b0) 3; b2z b0] ErrInvalidAction
            /\ Is e ErrInvalidAction = true)
  /\
  (forall (b0 b1 hi lo : byte) (tl : list byte),
     Z.land (b2z b0) 3 = 3 ->
     b2z b0 <> 3 ->
     exists e,
       FindPduSize (b0 :: b1 :: hi :: lo :: tl) = Fail e
       /\ e = Errorf "invalid TPKT header version: expected 0x03, got 0x%x"
                [b2z b0]
       /\ Is e ErrInvalidLength = false /\ Is e ErrInvalidAction = false)
  /\
  (forall (b0 b1 hi lo : byte) (tl : list byte),
     b2z b0 = 3 ->
     256 * b2z hi + b2z lo < 4 ->
     exists e,
       FindPduSize (b0 :: b1 :: hi :: lo :: tl) = Fail e
       /\ e = Wrapf "%w: TPKT length (%d) is smaller than header size (%d)"
                [256 * b2z hi + b2z lo; TPKTHeaderSize] ErrInvalidLength
       /\ Is e ErrInvalidLength = true).
Proof.
  split; [|split].
  - intros b0 tl H. split.
    + eexists. split; [apply FindPduSize_unknown_action; exact H|].
      split; reflexivity.
    + intros r Hp.
      destruct (ReadFrame_unknown_action r b0 tl Hp H) as (r' & E).
      eexists. exists r'. split; [exact E|]. split; reflexivity.
  - intros b0 b1 hi lo tl H3 Hne.
    rewrite (FindPduSize_TPKT_header b0 b1 hi lo tl H3).
    destruct (Z.eqb_spec (b2z b0) 3) as [E|_]; [contradiction|]. cbn [negb].
    eexists. split; [reflexivity|]. repeat split.
  - intros b0 b1 hi lo tl H0 Hlt.
    rewrite (FindPduSize_TPKT_header b0 b1 hi lo tl)
      by (rewrite H0; reflexivity).
    rewrite H0. cbn [Z.eqb Pos.eqb negb].
    replace (256 * b2z hi + b2z lo <? TPKTHeaderSize) with true
      by (symmetry; apply Z.ltb_lt; unfold TPKTHeaderSize; lia).
    eexists. split; [reflexivity|]. split; reflexivity.
Qed.

Lemma FindPduSize_malformed_witness :
  (exists e,
     FindPduSize [x01; x02] = Fail e
     /\ e = Wrapf "%w: unknown action code %d (from header byte 0x%x)"
              [Z.land (b2z x01) 3; b2z x01] ErrInvalidAction
     /\ Is e ErrInvalidAction = true)
  /\ (exists e,
        FindPduSize [x07; x00; x00; x08] = Fail e
        /\ e = Errorf "invalid TPKT header version: expected 0x03, got 0x%x"
                 [b2z x07]
        /\ Is e ErrInvalidLength = false /\ Is e ErrInvalidAction = false)
  /\ (exists e,
        FindPduSize [x03; x00; x00; x03] = Fail e
        /\ e = Wrapf "%w: TPKT length (%d) is smaller than header size (%d)"
                 [256 * b2z x00 + b2z x03; TPKTHeaderSize] ErrInvalidLength
        /\ Is e ErrInvalidLength = true).
Proof.
  destruct FindPduSize_malformed as (H1 & H2 & H3).
  split; [|split].
  - apply (H1 x01 [x02]). left. reflexivity.
  - apply (H2 x07 x00 x00 x08 []); [reflexivity|vm_compute; discriminate].
  - apply (H3 x03 x00 x00 x03 []); reflexivity.
Defined.

(** C6, as the specification states it, fails: the header 07 00 00 02 has
    low two bits 11 and a total length of 2, below the header size, and the
    error is the one of the version check, not an invalid-length error. *)
Lemma FindPduSize_version_before_length :
  Z.land (b2z x07) 3 = 3
  /\ BigEndian_Uint16 x00 x02 < TPKTHeaderSize
  /\ FindPduSize [x07; x00; x00; x02] =
       Fail (Errorf "invalid TPKT header version: expected 0x03, got 0x%x" [7])
  /\ Is (Errorf "invalid TPKT header version: expected 0x03, got 0x%x" [7])
        ErrInvalidLength = false.
Proof.
  repeat split.
Qed.

(** *** Frame boundaries *)

Lemma ReadFrame_extend (r0 r0' r : Reader) (f rest : list byte) (act : Action) :
  ReadFrame r0 = (Ok (f, act), r0') ->
  pending r = f ++ rest ->
  exists r',
    ReadFrame r = (Ok (f, act), r') /\ pending r' = rest /\ final r' = final r.
Proof.
  intros E0 Hp.
  destruct (ReadFrame_Ok_inv r0 r0' f act E0) as (_ & _ & Shape).
  destruct Shape as [(b0 & a & payload & -> & H0 & Ha & Hlen & ->)
                    |[(b0 & a & b & payload & -> & H0 & Ha & Hlen & ->)
                     |(b0 & b1 & hi & lo & payload & -> & H0 & Hmin & Hlen & ->)]].
  - exact (ReadFrame_FastPath7 r b0 a payload rest Hp H0 Ha Hlen).
  - exact (ReadFrame_FastPath15 r b0 a b payload rest Hp H0 Ha Hlen).
  - exact (ReadFrame_TPKT_general r b0 b1 hi lo payload rest Hp H0 Hmin Hlen).
Qed.

(** X6. Where a frame ends does not depend on what follows it: a frame that
    [ReadFrame] returns on one stream is returned on every stream that
    begins with its bytes, and the bytes after it are left unread.  So two
    frames written one after the other are read back by two calls, the
    second on the reader the first one left. *)
Theorem ReadFrame_consecutive (ra ra' rb rb' r : Reader) (f1 f2 rest : list byte)
  (act1 act2 : Action) :
  ReadFrame ra = (Ok (f1, act1), ra') ->
  ReadFrame rb = (Ok (f2, act2), rb') ->
  pending r = f1 ++ f2 ++ rest ->
  exists r1 r2,
    ReadFrame r = (Ok (f1, act1), r1)
    /\ ReadFrame r1 = (Ok (f2, act2), r2)
    /\ pending r2 = rest /\ final r2 = final r.
Proof.
  intros Ea Eb Hp.
  destruct (ReadFrame_extend ra ra' r f1 (f2 ++ rest) act1 Ea Hp)
    as (r1 & E1 & P1 & F1).
  destruct (ReadFrame_extend rb rb' r1 f2 rest act2 Eb P1)
    as (r2 & E2 & P2 & F2).
  exists r1, r2. repeat split; try assumption. congruence.
Qed.

Lemma ReadFrame_consecutive_witness :
  exists r1 r2,
    ReadFrame (mkReader [[x00; x01]; [xaa; x03]; [x00; x00; x05; xbb; xff]] io_EOF)
      = (Ok ([x00; x01; xaa], ActionFastPath), r1)
    /\ ReadFrame r1 = (Ok ([x03; x00; x00; x05; xbb], ActionX224), r2)
    /\ pending r2 = [xff] /\ final r2 = io_EOF.
Proof.
  apply (ReadFrame_consecutive
           (mkReader [[x00; x01; xaa]] io_EOF) (mkReader [] io_EOF)
           (mkReader [[x03; x00; x00; x05; xbb]] io_EOF) (mkReader [] io_EOF)
           (mkReader [[x00; x01]; [xaa; x03]; [x00; x00; x05; xbb; xff]] io_EOF)
           [x00; x01; xaa] [x03; x00; x00; x05; xbb] [xff]).
  - vm_compute. reflexivity.
  - vm_compute. reflexivity.
  - reflexivity.
Defined.

(** *** The pieces in which the stream arrives *)

Lemma ReadFull_same_stream (r1 r2 : Reader) (n : nat) :
  pending r1 = pending r2 ->
  final r1 = final r2 ->
  exists got e r1' r2',
    ReadFull r1 n = (got, e, r1') /\ ReadFull r2 n = (got, e, r2')
    /\ pending r1' = pending r2' /\ final r1' = final r2'.
Proof.
  intros Hp Hf.
  destruct (Nat.le_gt_cases n (length (pending r1))) as [Hle|Hgt].
  - destruct (ReadFull_enough r1 n Hle) as (r1' & E1 & P1 & F1).
    destruct (ReadFull_enough r2 n ltac:(rewrite <- Hp; exact Hle))
      as (r2' & E2 & P2 & F2).
    exists (firstn n (pending r1)), None, r1', r2'.
    rewrite E1, E2, P1, P2, F1, F2, Hp, Hf. auto.
  - rewrite (ReadFull_short r1 n Hgt).
    rewrite (ReadFull_short r2 n ltac:(rewrite <- Hp; exact Hgt)).
    rewrite <- Hp, <- Hf. eexists _, _, _, _. repeat split.
Qed.

(** X7. [ReadFrame] reads with [io.ReadFull], so its result does not depend on
    the pieces in which the reader delivers the stream (the WebSocket
    messages of the client, the TCP segments of the server): two readers
    that hold the same bytes and end with the same error give the same
    frame or the same error, and leave the same bytes unread. *)
Theorem ReadFrame_same_stream (r1 r2 : Reader) :
  pending r1 = pending r2 ->
  final r1 = final r2 ->
  fst (ReadFrame r1) = fst (ReadFrame r2)
  /\ pending (snd (ReadFrame r1)) = pending (snd (ReadFrame r2)).
Proof.
  intros Hp Hf. unfold ReadFrame.
  destruct (ReadFull_same_stream r1 r2 (Z.to_nat MinHeaderSize) Hp Hf)
    as (h & e & r1a & r2a & E1 & E2 & Pa & Fa).
  rewrite E1, E2. destruct e as [e|]; [split; [reflexivity|exact Pa]|].
  destruct (Z.land (b2z (idx h 0)) 3 =? 0).
  - destruct (ReadFull_same_stream r1a r2a
                (Z.to_nat (FastPathMinSize - MinHeaderSize)) Pa Fa)
      as (x & e & r1b & r2b & E1b & E2b & Pb & Fb).
    rewrite E1b, E2b. destruct e as [e|]; [split; [reflexivity|exact Pb]|].
    destruct (negb (Z.land (b2z (idx (h ++ x) 1)) 128 =? 0)).
    + destruct (ReadFull_same_stream r1b r2b 1 Pb Fb)
        as (y & e & r1c & r2c & E1c & E2c & Pc & Fc).
      rewrite E1c, E2c. destruct e as [e|]; [split; [reflexivity|exact Pc]|].
      destruct (FindPduSize ((h ++ x) ++ y)) as [info|e];
        [|split; [reflexivity|exact Pc]].
      destruct (ReadFull_same_stream r1c r2c (Z.to_nat (Length info)) Pc Fc)
        as (z & e & r1d & r2d & E1d & E2d & Pd & Fd).
      rewrite E1d, E2d. destruct e as [e|]; split; try reflexivity; exact Pd.
    + destruct (FindPduSize (h ++ x)) as [info|e];
        [|split; [reflexivity|exact Pb]].
      destruct (ReadFull_same_stream r1b r2b (Z.to_nat (Length info)) Pb Fb)
        as (z & e & r1d & r2d & E1d & E2d & Pd & Fd).
      rewrite E1d, E2d. destruct e as [e|]; split; try reflexivity; exact Pd.
  - destruct (Z.land (b2z (idx h 0)) 3 =? 3); [|split; [reflexivity|exact Pa]].
    destruct (ReadFull_same_stream r1a r2a
                (Z.to_nat (TPKTHeaderSize - MinHeaderSize)) Pa Fa)
      as (x & e & r1b & r2b & E1b & E2b & Pb & Fb).
    rewrite E1b, E2b. destruct e as [e|]; [split; [reflexivity|exact Pb]|].
    destruct (FindPduSize (h ++ x)) as [info|e]; [|split; [reflexivity|exact Pb]].
    destruct (Length info - TPKTHeaderSize <? 0); [split; [reflexivity|exact Pb]|].
    destruct (0 <? Length info - TPKTHeaderSize); [|split; [reflexivity|exact Pb]].
    destruct (ReadFull_same_stream r1b r2b
                (Z.to_nat (Length info - TPKTHeaderSize)) Pb Fb)
      as (z & e & r1d & r2d & E1d & E2d & Pd & Fd).
    rewrite E1d, E2d. destruct e as [e|]; split; try reflexivity; exact Pd.
Qed.

Lemma ReadFrame_same_stream_witness :
  fst (ReadFrame (mkReader [[x03]; [x00; x00]; [x05; xbb; xff]] io_EOF))
  = fst (ReadFrame (mkReader [[x03; x00; x00; x05; xbb; xff]] io_EOF))
  /\ pending (snd (ReadFrame (mkReader [[x03]; [x00; x00]; [x05; xbb; xff]] io_EOF)))
     = pending (snd (ReadFrame (mkReader [[x03; x00; x00; x05; xbb; xff]] io_EOF))).
Proof.
  apply (ReadFrame_same_stream
           (mkReader [[x03]; [x00; x00]; [x05; xbb; xff]] io_EOF)
           (mkReader [[x03; x00; x00; x05; xbb; xff]] io_EOF));
    reflexivity.
Defined.

(** *** The errors of [ReadFrame] *)

Lemma eofToUnexpected_ReadFull_error (pend : list byte) (fin : error) :
  eofToUnexpected
    (match pend with
     | [] => fin
     | _ :: _ => if error_eqb fin io_EOF then io_ErrUnexpectedEOF else fin
     end)
  = eofToUnexpected fin.
Proof.
  destruct pend as [|b tl]; [reflexivity|].
  unfold eofToUnexpected.
  destruct (error_eqb fin io_EOF) eqn:E; [reflexivity|].
  rewrite E. reflexivity.
Qed.

Lemma ReadFull_Some_inv (r r' : Reader) (n : nat) (got : list byte) (e : error) :
  ReadFull r n = (got, Some e, r') ->
  eofToUnexpected e = eofToUnexpected (final r) /\ pending r' = [].
Proof.
  intros E.
  destruct (Nat.le_gt_cases n (length (pending r))) as [Hle|Hgt].
  - destruct (ReadFull_enough r n Hle) as (r1 & E1 & _). congruence.
  - rewrite (ReadFull_short r n Hgt) in E. injection E as _ <- <-.
    split; [apply eofToUnexpected_ReadFull_error|reflexivity].
Qed.

(** X8. Every error of [ReadFrame] is one of four: the error on which the
    stream ended, with [io.EOF] turned into [io.ErrUnexpectedEOF] (nothing
    is left to read then); the unknown-action error for a first byte whose
    low bits are 01 or 10, after one byte; or, after the four bytes of a
    TPKT header, the wrapped version or length error of [FindPduSize].  The
    two remaining error returns, [failed to parse Fast-Path header] and
    [invalid TPKT payload size calculated], are never taken. *)
Theorem ReadFrame_errors (r r' : Reader) (e : error) :
  ReadFrame r = (Fail e, r') ->
  (e = eofToUnexpected (final r) /\ pending r' = [])
  \/ (exists b0,
        pending r = b0 :: pending r'
        /\ Z.land (b2z b0) 3 <> 0 /\ Z.land (b2z b0) 3 <> 3
        /\ e = Wrapf "%w: unknown action code %d (from header byte 0x%x)"
                 [Z.land (b2z b0) 3; b2z b0] ErrInvalidAction)
  \/ (exists b0 b1 hi lo,
        pending r = b0 :: b1 :: hi :: lo :: pending r'
        /\ Z.land (b2z b0) 3 = 3 /\ b2z b0 <> 3
        /\ e = Wrapf "failed to parse TPKT header: %w" []
                 (Errorf "invalid TPKT header version: expected 0x03, got 0x%x"
                    [b2z b0]))
  \/ (exists b1 hi lo,
        pending r = x03 :: b1 :: hi :: lo :: pending r'
        /\ 256 * b2z hi + b2z lo < TPKTHeaderSize
        /\ e = Wrapf "failed to parse TPKT header: %w" []
                 (Wrapf "%w: TPKT length (%d) is smaller than header size (%d)"
                    [256 * b2z hi + b2z lo; TPKTHeaderSize] ErrInvalidLength)).
Proof.
  unfold ReadFrame. change (Z.to_nat MinHeaderSize) with 1%nat.
  destruct (ReadFull r 1) as [[h1 [e1|]] r1] eqn:E1.
  { intros [= <- <-]. left.
    destruct (ReadFull_Some_inv r r1 1 h1 e1 E1) as [He Hp]. auto. }
  destruct (ReadFull_cases r 1) as [(h1' & r1' & E1' & P1 & F1 & L1)|(e0 & E1' & _)];
    rewrite E1 in E1'; [|discriminate].
  injection E1' as <- <-.
  destruct h1 as [|b0 [|? ?]]; try discriminate L1.
  unfold idx at 1 2 3. cbn [nth].
  destruct (Z.eqb_spec (Z.land (b2z b0) 3) 0) as [H0|H0].
  - change (Z.to_nat (FastPathMinSize - MinHeaderSize)) with 1%nat.
    destruct (ReadFull r1 1) as [[h2 [e2|]] r2] eqn:E2.
    { intros [= <- <-]. left.
      destruct (ReadFull_Some_inv r1 r2 1 h2 e2 E2) as [He Hp].
      rewrite He, F1. auto. }
    destruct (ReadFull_cases r1 1) as [(h2' & r2' & E2' & P2 & F2 & L2)|(e0 & E2' & _)];
      rewrite E2 in E2'; [|discriminate].
    injection E2' as <- <-.
    destruct h2 as [|a [|? ?]]; try discriminate L2.
    cbn [app]. unfold idx. cbn [nth].
    destruct (Z.eqb_spec (Z.land (b2z a) 128) 0) as [Ha|Ha]; cbn [negb].
    + rewrite (FindPduSize_FastPath7 b0 a [] H0 Ha). cbn [Length].
      destruct (ReadFull r2 (Z.to_nat (b2z a))) as [[h3 [e3|]] r3] eqn:E3;
        [|discriminate].
      intros [= <- <-]. left.
      destruct (ReadFull_Some_inv r2 r3 _ h3 e3 E3) as [He Hp].
      rewrite He, F2, F1. auto.
    + destruct (ReadFull r2 1) as [[h3 [e3|]] r3] eqn:E3.
      { intros [= <- <-]. left.
        destruct (ReadFull_Some_inv r2 r3 1 h3 e3 E3) as [He Hp].
        rewrite He, F2, F1. auto. }
      destruct (ReadFull_cases r2 1) as [(h3' & r3' & E3' & P3 & F3 & L3)|(e0 & E3' & _)];
        rewrite E3 in E3'; [|discriminate].
      injection E3' as <- <-.
      destruct h3 as [|b [|? ?]]; try discriminate L3.
      cbn [app]. rewrite (FindPduSize_FastPath15 b0 a b [] H0 Ha). cbn [Length].
      destruct (ReadFull r3 (Z.to_nat (Z.lor (Z.shiftl (Z.land (b2z a) 127) 8) (b2z b))))
        as [[h4 [e4|]] r4] eqn:E4; [|discriminate].
      intros [= <- <-]. left.
      destruct (ReadFull_Some_inv r3 r4 _ h4 e4 E4) as [He Hp].
      rewrite He, F3, F2, F1. auto.
  - destruct (Z.eqb_spec (Z.land (b2z b0) 3) 3) as [H3|H3].
    + change (Z.to_nat (TPKTHeaderSize - MinHeaderSize)) with 3%nat.
      destruct (ReadFull r1 3) as [[h2 [e2|]] r2] eqn:E2.
      { intros [= <- <-]. left.
        destruct (ReadFull_Some_inv r1 r2 3 h2 e2 E2) as [He Hp].
        rewrite He, F1. auto. }
      destruct (ReadFull_cases r1 3) as [(h2' & r2' & E2' & P2 & F2 & L2)|(e0 & E2' & _)];
        rewrite E2 in E2'; [|discriminate].
      injection E2' as <- <-.
      destruct h2 as [|b1 [|hi [|lo [|? ?]]]]; try discriminate L2.
      cbn [app]. rewrite (FindPduSize_TPKT_header b0 b1 hi lo [] H3).
      destruct (Z.eqb_spec (b2z b0) 3) as [Hb0|Hb0]; cbn [negb].
      * destruct (Z.ltb_spec (256 * b2z hi + b2z lo) TPKTHeaderSize) as [Hlt|Hge].
        -- intros [= <- <-]. right. right. right.
           exists b1, hi, lo.
           assert (b0 = x03) as -> by (apply b2z_inj; exact Hb0).
           split; [rewrite P1, P2; reflexivity|]. split; [exact Hlt|reflexivity].
        -- cbn [Length].
           replace (256 * b2z hi + b2z lo - TPKTHeaderSize <? 0) with false
             by (symmetry; apply Z.ltb_ge; lia).
           destruct (0 <? 256 * b2z hi + b2z lo - TPKTHeaderSize); [|discriminate].
           destruct (ReadFull r2 (Z.to_nat (256 * b2z hi + b2z lo - TPKTHeaderSize)))
             as [[h3 [e3|]] r3] eqn:E3; [|discriminate].
           intros [= <- <-]. left.
           destruct (ReadFull_Some_inv r2 r3 _ h3 e3 E3) as [He Hp].
           rewrite He, F2, F1. auto.
      * intros [= <- <-]. right. right. left.
        exists b0, b1, hi, lo.
        split; [rewrite P1, P2; reflexivity|]. auto.
    + intros [= <- <-]. right. left. exists b0.
      split; [rewrite P1; reflexivity|]. auto.
Qed.

Lemma ReadFrame_errors_witness :
  (Wrapf "failed to parse TPKT header: %w" []
     (Wrapf "%w: TPKT length (%d) is smaller than header size (%d)"
        [2; 4] ErrInvalidLength)
   = eofToUnexpected io_EOF
   /\ pending (snd (ReadFrame (mkReader [[x03; x00]; [x00; x02; xaa]] io_EOF))) = [])
  \/ (exists b0,
        [x03; x00; x00; x02; xaa]
        = b0 :: pending (snd (ReadFrame (mkReader [[x03; x00]; [x00; x02; xaa]] io_EOF)))
        /\ Z.land (b2z b0) 3 <> 0 /\ Z.land (b2z b0) 3 <> 3
        /\ Wrapf "failed to parse TPKT header: %w" []
             (Wrapf "%w: TPKT length (%d) is smaller than header size (%d)"
                [2; 4] ErrInvalidLength)
           = Wrapf "%w: unknown action code %d (from header byte 0x%x)"
                 [Z.land (b2z b0) 3; b2z b0] ErrInvalidAction)
  \/ (exists b0 b1 hi lo,
        [x03; x00; x00; x02; xaa]
        = b0 :: b1 :: hi :: lo
          :: pending (snd (ReadFrame (mkReader [[x03; x00]; [x00; x02; xaa]] io_EOF)))
        /\ Z.land (b2z b0) 3 = 3 /\ b2z b0 <> 3
        /\ Wrapf "failed to parse TPKT header: %w" []
             (Wrapf "%w: TPKT length (%d) is smaller than header size (%d)"
                [2; 4] ErrInvalidLength)
           = Wrapf "failed to parse TPKT header: %w" []
                 (Errorf "invalid TPKT header version: expected 0x03, got 0x%x"
                    [b2z b0]))
  \/ (exists b1 hi lo,
        [x03; x00; x00; x02; xaa]
        = x03 :: b1 :: hi :: lo
          :: pending (snd (ReadFrame (mkReader [[x03; x00]; [x00; x02; xaa]] io_EOF)))
        /\ 256 * b2z hi + b2z lo < TPKTHeaderSize
        /\ Wrapf "failed to parse TPKT header: %w" []
             (Wrapf "%w: TPKT length (%d) is smaller than header size (%d)"
                [2; 4] ErrInvalidLength)
           = Wrapf "failed to parse TPKT header: %w" []
                 (Wrapf "%w: TPKT length (%d) is smaller than header size (%d)"
                    [256 * b2z hi + b2z lo; TPKTHeaderSize] ErrInvalidLength)).
Proof.
  apply (ReadFrame_errors (mkReader [[x03; x00]; [x00; x02; xaa]] io_EOF)
           (snd (ReadFrame (mkReader [[x03; x00]; [x00; x02; xaa]] io_EOF)))).
  vm_compute. reflexivity.
Defined.

(** *** [FindPduSize] *)

Lemma idx_app (buf more : list byte) (i : nat) :
  (i < length buf)%nat -> idx (buf ++ more) i = idx buf i.
Proof.
  intros H. unfold idx. apply app_nth1. exact H.
Qed.

(** X9. What [FindPduSize] returns is an action and a length in range: a
    Fast-Path payload length below 2^15 read from at least two bytes, or a
    TPKT frame length from the header size 4 up to 65535, read from four
    bytes that begin with the version 3.  [ActionUnknown] is never
    returned with a nil error. *)
Theorem FindPduSize_bounds (buf : list byte) (info : PduInfo) :
  FindPduSize buf = Ok info ->
  (Action_ info = ActionFastPath /\ 0 <= Length info < 32768
   /\ FastPathMinSize <= len buf /\ Z.land (b2z (idx buf 0)) 3 = 0)
  \/
  (Action_ info = ActionX224 /\ TPKTHeaderSize <= Length info < 65536
   /\ TPKTHeaderSize <= len buf /\ b2z (idx buf 0) = 3).
Proof.
  unfold FindPduSize.
  destruct (Z.ltb_spec (len buf) MinHeaderSize) as [L1|L1]; [discriminate|].
  cbv zeta.
  destruct (Z.eqb_spec (Z.land (b2z (idx buf 0)) 3) 0) as [H0|H0].
  - destruct (Z.ltb_spec (len buf) FastPathMinSize) as [L2|L2]; [discriminate|].
    intros H. left.
    assert (Hgoal : Action_ info = ActionFastPath /\ 0 <= Length info < 32768).
    { destruct (negb (Z.land (b2z (idx buf 1)) 128 =? 0)).
      - destruct (len buf <? FastPathLargeSize); [discriminate|].
        rewrite fastPath_length15 in H.
        pose proof (land127_range (idx buf 1)) as Ha.
        pose proof (b2z_range (idx buf 2)) as Hb.
        rewrite lor_shiftl8 in H by exact Hb.
        remember (256 * Z.land (b2z (idx buf 1)) 127 + b2z (idx buf 2)) as n eqn:En.
        assert (Hn : 0 <= n < 32768) by lia. clear En.
        destruct (n =? 0);
          injection H as <-; unfold Action_, Length; split; (reflexivity || lia).
      - rewrite uint16_b2z in H.
        pose proof (b2z_range (idx buf 1)) as Ha.
        destruct (b2z (idx buf 1) =? 0);
          injection H as <-; unfold Action_, Length; split; (reflexivity || lia). }
    destruct Hgoal as [Ha Hl]. auto.
  - destruct (Z.eqb_spec (Z.land (b2z (idx buf 0)) 3) 3) as [H3|H3]; [|discriminate].
    destruct (Z.ltb_spec (len buf) TPKTHeaderSize) as [L4|L4]; [discriminate|].
    destruct (Z.eqb_spec (b2z (idx buf 0)) 3) as [Hv|Hv]; cbn [negb]; [|discriminate].
    rewrite BigEndian_Uint16_value.
    pose proof (b2z_range (idx buf 2)) as Hh.
    pose proof (b2z_range (idx buf 3)) as Hl.
    remember (256 * b2z (idx buf 2) + b2z (idx buf 3)) as n eqn:En.
    assert (Hn : 0 <= n < 65536) by lia. clear En.
    destruct (Z.ltb_spec n TPKTHeaderSize) as [Hs|Hs]; [discriminate|].
    intros [= <-]. right. unfold Action_, Length. repeat split; try assumption. lia.
Qed.

Lemma FindPduSize_bounds_witness :
  (Action_ (mkPduInfo ActionFastPath 258) = ActionFastPath
   /\ 0 <= Length (mkPduInfo ActionFastPath 258) < 32768
   /\ FastPathMinSize <= len [x00; x81; x02] /\ Z.land (b2z (idx [x00; x81; x02] 0)) 3 = 0)
  \/
  (Action_ (mkPduInfo ActionFastPath 258) = ActionX224
   /\ TPKTHeaderSize <= Length (mkPduInfo ActionFastPath 258) < 65536
   /\ TPKTHeaderSize <= len [x00; x81; x02] /\ b2z (idx [x00; x81; x02] 0) = 3).
Proof.
  apply (FindPduSize_bounds [x00; x81; x02] (mkPduInfo ActionFastPath 258)).
  vm_compute. reflexivity.
Defined.

(** X10. [FindPduSize] looks at the header only: once it answers anything but
    [ErrInsufficientData], the answer stays the same however many bytes are
    appended to the buffer. *)
Theorem FindPduSize_more_bytes (buf more : list byte) :
  FindPduSize buf <> Fail ErrInsufficientData ->
  FindPduSize (buf ++ more) = FindPduSize buf.
Proof.
  intros H. unfold FindPduSize in *.
  assert (Hl : len buf <= len (buf ++ more))
    by (unfold len; rewrite length_app; lia).
  destruct (Z.ltb_spec (len buf) MinHeaderSize) as [L1|L1]; [congruence|].
  replace (len (buf ++ more) <? MinHeaderSize) with false
    by (symmetry; apply Z.ltb_ge; lia).
  cbv zeta in *.
  rewrite (idx_app buf more 0) by (unfold len, MinHeaderSize in L1; lia).
  destruct (Z.land (b2z (idx buf 0)) 3 =? 0).
  - destruct (Z.ltb_spec (len buf) FastPathMinSize) as [L2|L2]; [congruence|].
    replace (len (buf ++ more) <? FastPathMinSize) with false
      by (symmetry; apply Z.ltb_ge; lia).
    rewrite (idx_app buf more 1) by (unfold len, FastPathMinSize in L2; lia).
    destruct (negb (Z.land (b2z (idx buf 1)) 128 =? 0)); [|reflexivity].
    destruct (Z.ltb_spec (len buf) FastPathLargeSize) as [L3|L3]; [congruence|].
    replace (len (buf ++ more) <? FastPathLargeSize) with false
      by (symmetry; apply Z.ltb_ge; lia).
    rewrite (idx_app buf more 2) by (unfold len, FastPathLargeSize in L3; lia).
    reflexivity.
  - destruct (Z.land (b2z (idx buf 0)) 3 =? 3); [|reflexivity].
    destruct (Z.ltb_spec (len buf) TPKTHeaderSize) as [L4|L4]; [congruence|].
    replace (len (buf ++ more) <? TPKTHeaderSize) with false
      by (symmetry; apply Z.ltb_ge; lia).
    rewrite (idx_app buf more 2), (idx_app buf more 3)
      by (unfold len, TPKTHeaderSize in L4; lia).
    reflexivity.
Qed.

Lemma FindPduSize_more_bytes_witness :
  FindPduSize ([x03; x00; x01; x00] ++ [xaa; xbb]) = FindPduSize [x03; x00; x01; x00].
Proof.
  apply (FindPduSize_more_bytes [x03; x00; x01; x00] [xaa; xbb]).
  vm_compute. discriminate.
Defined.

(** X11. Four bytes are always enough for [FindPduSize]: an error for which
    [errors.Is(err, ErrInsufficientData)] holds is [ErrInsufficientData]
    itself, not an error that wraps it, and the buffer it was returned for
    is shorter than a TPKT header. *)
Theorem FindPduSize_ErrInsufficientData (buf : list byte) (e : error) :
  FindPduSize buf = Fail e ->
  Is e ErrInsufficientData = true ->
  e = ErrInsufficientData /\ len buf < TPKTHeaderSize.
Proof.
  unfold FindPduSize.
  destruct (Z.ltb_spec (len buf) MinHeaderSize) as [L1|L1].
  { intros [= <-] _. split; [reflexivity|]. unfold MinHeaderSize, TPKTHeaderSize in *. lia. }
  cbv zeta.
  destruct (Z.land (b2z (idx buf 0)) 3 =? 0).
  - destruct (Z.ltb_spec (len buf) FastPathMinSize) as [L2|L2].
    { intros [= <-] _. split; [reflexivity|].
      unfold FastPathMinSize, TPKTHeaderSize in *. lia. }
    destruct (negb (Z.land (b2z (idx buf 1)) 128 =? 0)).
    + destruct (Z.ltb_spec (len buf) FastPathLargeSize) as [L3|L3].
      { intros [= <-] _. split; [reflexivity|].
        unfold FastPathLargeSize, TPKTHeaderSize in *. lia. }
      match goal with |- context [if ?c then _ else _] => destruct c end;
        discriminate.
    + match goal with |- context [if ?c then _ else _] => destruct c end;
        discriminate.
  - destruct (Z.land (b2z (idx buf 0)) 3 =? 3).
    + destruct (Z.ltb_spec (len buf) TPKTHeaderSize) as [L4|L4].
      { intros [= <-] _. split; [reflexivity|exact L4]. }
      destruct (negb (b2z (idx buf 0) =? 3)).
      * intros [= <-] Hi. discriminate Hi.
      * destruct (BigEndian_Uint16 (idx buf 2) (idx buf 3) <? TPKTHeaderSize);
          [|discriminate].
        intros [= <-] Hi. discriminate Hi.
    + intros [= <-] Hi. discriminate Hi.
Qed.

Lemma FindPduSize_ErrInsufficientData_witness :
  ErrInsufficientData = ErrInsufficientData /\ len [x03; x00; x00] < TPKTHeaderSize.
Proof.
  apply (FindPduSize_ErrInsufficientData [x03; x00; x00] ErrInsufficientData);
    reflexivity.
Defined.

End tpkt_props.

(** ** Package encoding/asn1 *)

Module asn1_props.
Import asn1.

Lemma bind_Ok {A B} (r : result A) (k : A -> result B) (b : B) :
  bind r k = Ok b -> exists a, r = Ok a /\ k a = Ok b.
Proof.
  destruct r as [a|e]; [|discriminate]. intros H. exists a. auto.
Qed.

(** *** The decoder reads a tag and length from the head of its input *)

Lemma parseBase128Int_loop_app (bytes extra : list byte) :
  forall shifted ret64 v rest,
    parseBase128Int_loop bytes shifted ret64 = Ok (v, rest) ->
    parseBase128Int_loop (bytes ++ extra) shifted ret64 = Ok (v, rest ++ extra).
Proof.
  induction bytes as [|b bytes IH]; intros shifted ret64 v rest H.
  - discriminate H.
  - cbn [parseBase128Int_loop app] in *.
    destruct (shifted =? 5)%nat; [discriminate|].
    destruct ((shifted =? 0)%nat && (b2z b =? 128)); [discriminate|].
    destruct (Z.land (b2z b) 128 =? 0).
    + destruct (MaxInt32 <? _); [discriminate|].
      injection H as <- <-. reflexivity.
    + apply IH. exact H.
Qed.

Lemma parseLength_loop_app (extra : list byte) :
  forall numBytes bytes length v rest,
    parseLength_loop numBytes bytes length = Ok (v, rest) ->
    parseLength_loop numBytes (bytes ++ extra) length = Ok (v, rest ++ extra).
Proof.
  induction numBytes as [|n IH]; intros bytes length v rest H.
  - cbn in *. injection H as <- <-. reflexivity.
  - destruct bytes as [|b bytes]; [discriminate H|].
    cbn [parseLength_loop app] in *.
    destruct (8388608 <=? length); [discriminate|].
    destruct (Z.lor (Z.shiftl length 8) (b2z b) =? 0); [discriminate|].
    apply IH. exact H.
Qed.

Lemma parseTagAndLength_app (bytes extra : list byte) t rest :
  parseTagAndLength bytes = Ok (t, rest) ->
  parseTagAndLength (bytes ++ extra) = Ok (t, rest ++ extra).
Proof.
  destruct bytes as [|b bytes]; [discriminate|].
  unfold parseTagAndLength. cbn [app].
  intros H. apply bind_Ok in H. destruct H as ([tg rest1] & H1 & H2).
  assert (H1' :
    (if Z.land (b2z b) 31 =? 31
     then '(tag, rest0) <- parseBase128Int (bytes ++ extra) ;;
          (if tag <? 31 then Fail (asn1_SyntaxError "non-minimal tag")
           else Ok (tag, rest0))
     else Ok (Z.land (b2z b) 31, bytes ++ extra)) = Ok (tg, rest1 ++ extra)).
  { destruct (Z.land (b2z b) 31 =? 31).
    - apply bind_Ok in H1. destruct H1 as ([tg' rest'] & Hb & Hk).
      unfold parseBase128Int in *.
      rewrite (parseBase128Int_loop_app _ extra _ _ _ _ Hb). cbn [bind].
      destruct (tg' <? 31); [discriminate|].
      injection Hk as <- <-. reflexivity.
    - injection H1 as <- <-. reflexivity. }
  rewrite H1'. cbn [bind].
  destruct rest1 as [|b1 rest1]; [discriminate|]. cbn [app].
  destruct (Z.land (b2z b1) 128 =? 0).
  - injection H2 as <- <-. reflexivity.
  - destruct (Z.land (b2z b1) 127 =? 0); [discriminate|].
    apply bind_Ok in H2. destruct H2 as ([l rest2] & Hl & Hk).
    rewrite (parseLength_loop_app extra _ _ _ _ _ Hl). cbn [bind].
    destruct (l <? 128); [discriminate|].
    injection Hk as <- <-. reflexivity.
Qed.

(** *** Tag and length: what the encoder writes, the decoder reads *)

Lemma b2z_z2b_small (z : Z) : 0 <= z < 256 -> b2z (z2b z) = z.
Proof.
  intros H. rewrite b2z_z2b. apply Z.mod_small. exact H.
Qed.

Lemma firstByte_decode (c g : Z) (comp : bool) :
  0 <= c < 4 -> 0 <= g < 31 ->
  let b := z2b (Z.lor (Z.lor ((c * 64) mod 256) (if comp then 32 else 0))
                      (g mod 256)) in
  Z.shiftr (b2z b) 6 = c
  /\ (Z.land (b2z b) 32 =? 32) = comp
  /\ Z.land (b2z b) 31 = g.
Proof.
  intros Hc Hg.
  assert (All :
    forallb (fun nc : nat => forallb (fun ng : nat => forallb (fun comp : bool =>
      let b := z2b (Z.lor (Z.lor ((Z.of_nat nc * 64) mod 256)
                                 (if comp then 32 else 0))
                          (Z.of_nat ng mod 256)) in
      (Z.shiftr (b2z b) 6 =? Z.of_nat nc)
      && Bool.eqb (Z.land (b2z b) 32 =? 32) comp
      && (Z.land (b2z b) 31 =? Z.of_nat ng))
      [true; false]) (seq 0 31)) (seq 0 4) = true) by (vm_compute; reflexivity).
  rewrite forallb_forall in All.
  specialize (All (Z.to_nat c)). rewrite forallb_forall in All.
  specialize (All ltac:(apply in_seq; lia) (Z.to_nat g)).
  rewrite forallb_forall in All.
  specialize (All ltac:(apply in_seq; lia) comp ltac:(destruct comp; cbn; auto)).
  rewrite !Z2Nat.id in All by lia. cbv zeta in All.
  apply andb_prop in All. destruct All as [All H3].
  apply andb_prop in All. destruct All as [H1 H2].
  cbv zeta. repeat split.
  - apply Z.eqb_eq. exact H1.
  - apply Bool.eqb_prop. exact H2.
  - apply Z.eqb_eq. exact H3.
Qed.

Lemma shortLength_decode (l : Z) :
  0 <= l < 128 ->
  (Z.land (b2z (z2b l)) 128 =? 0) = true /\ Z.land (b2z (z2b l)) 127 = l.
Proof.
  intros Hl.
  assert (All :
    forallb (fun n : nat =>
      (Z.land (b2z (z2b (Z.of_nat n))) 128 =? 0)
      && (Z.land (b2z (z2b (Z.of_nat n))) 127 =? Z.of_nat n))
      (seq 0 128) = true) by (vm_compute; reflexivity).
  rewrite forallb_forall in All.
  specialize (All (Z.to_nat l) ltac:(apply in_seq; lia)).
  rewrite !Z2Nat.id in All by lia.
  apply andb_prop in All. destruct All as [H1 H2].
  split; [exact H1|apply Z.eqb_eq; exact H2].
Qed.

Lemma longLength_lead (n : Z) :
  1 <= n <= 8 ->
  (Z.land (b2z (z2b (Z.lor 128 n))) 128 =? 0) = false
  /\ Z.land (b2z (z2b (Z.lor 128 n))) 127 = n.
Proof.
  intros Hn.
  assert (All :
    forallb (fun k : nat =>
      negb (Z.land (b2z (z2b (Z.lor 128 (Z.of_nat k)))) 128 =? 0)
      && (Z.land (b2z (z2b (Z.lor 128 (Z.of_nat k)))) 127 =? Z.of_nat k))
      (seq 1 8) = true) by (vm_compute; reflexivity).
  rewrite forallb_forall in All.
  specialize (All (Z.to_nat n) ltac:(apply in_seq; lia)).
  rewrite !Z2Nat.id in All by lia.
  apply andb_prop in All. destruct All as [H1 H2].
  split; [apply negb_true_iff; exact H1|apply Z.eqb_eq; exact H2].
Qed.

Lemma lengthLength_cases (l : Z) :
  0 <= l < 2 ^ 31 ->
  (l < 256 /\ lengthLength l = 1)
  \/ (256 <= l < 65536 /\ lengthLength l = 2)
  \/ (65536 <= l < 16777216 /\ lengthLength l = 3)
  \/ (16777216 <= l /\ lengthLength l = 4).
Proof.
  intros Hl. unfold lengthLength. cbn [lengthLength_loop].
  rewrite !Z.shiftr_div_pow2 by lia. change (2 ^ 8) with 256.
  change (2 ^ 31) with 2147483648 in Hl.
  destruct (Z.ltb_spec 255 l) as [H1|H1]; [|left; lia].
  destruct (Z.ltb_spec 255 (l / 256)) as [H2|H2];
    [|right; left; split; [|reflexivity];
      Z.to_euclidean_division_equations; lia].
  destruct (Z.ltb_spec 255 (l / 256 / 256)) as [H3|H3];
    [|right; right; left; split; [|reflexivity];
      Z.to_euclidean_division_equations; lia].
  destruct (Z.ltb_spec 255 (l / 256 / 256 / 256)) as [H4|H4];
    [exfalso; Z.to_euclidean_division_equations; lia|].
  right. right. right. split; [|reflexivity].
  Z.to_euclidean_division_equations; lia.
Qed.

Lemma parseLength_loop_bigEndian (l : Z) (rest : list byte) :
  0 <= l < 2 ^ 31 ->
  forall (m : nat) (acc : Z),
    acc = l / 2 ^ (8 * Z.of_nat m) ->
    ((0 < m)%nat -> 0 < l / 2 ^ (8 * (Z.of_nat m - 1))) ->
    parseLength_loop m (bigEndianBytes m l ++ rest) acc = Ok (l, rest).
Proof.
  intros Hl. induction m as [|k IH]; intros acc Hacc Hlead.
  - cbn. rewrite Hacc. change (2 ^ (8 * Z.of_nat 0)) with 1.
    rewrite Z.div_1_r. reflexivity.
  - cbn [bigEndianBytes app parseLength_loop].
    assert (Hx : 0 < l / 2 ^ (8 * Z.of_nat k)).
    { specialize (Hlead ltac:(lia)).
      replace (8 * (Z.of_nat (S k) - 1)) with (8 * Z.of_nat k) in Hlead by lia.
      exact Hlead. }
    assert (Hpow : 0 < 2 ^ (8 * Z.of_nat k)) by (apply Z.pow_pos_nonneg; lia).
    assert (Hacc' : acc = l / 2 ^ (8 * Z.of_nat k) / 256).
    { rewrite Hacc, Z.div_div by lia.
      replace (8 * Z.of_nat (S k)) with (8 * Z.of_nat k + 8) by lia.
      rewrite Z.pow_add_r by lia. reflexivity. }
    assert (Hxl : l / 2 ^ (8 * Z.of_nat k) <= l).
    { apply Z.div_le_upper_bound; [lia|]. nia. }
    replace (8388608 <=? acc) with false.
    2:{ symmetry. apply Z.leb_gt. rewrite Hacc'.
        change (2 ^ 31) with 2147483648 in Hl.
        Z.to_euclidean_division_equations; lia. }
    rewrite Z.shiftr_div_pow2 by lia.
    replace (Z.of_nat k * 8) with (8 * Z.of_nat k) by lia.
    rewrite b2z_z2b.
    rewrite lor_shiftl8 by (apply Z.mod_pos_bound; lia).
    replace (256 * acc + (l / 2 ^ (8 * Z.of_nat k)) mod 256)
      with (l / 2 ^ (8 * Z.of_nat k))
      by (rewrite Hacc'; Z.to_euclidean_division_equations; lia).
    replace (l / 2 ^ (8 * Z.of_nat k) =? 0) with false
      by (symmetry; apply Z.eqb_neq; lia).
    apply IH; [reflexivity|].
    intros Hk.
    replace (8 * Z.of_nat k) with (8 * (Z.of_nat k - 1) + 8) in Hx by lia.
    rewrite Z.pow_add_r in Hx by lia.
    rewrite <- Z.div_div in Hx by (try apply Z.pow_pos_nonneg; lia).
    change (2 ^ 8) with 256 in Hx.
    Z.to_euclidean_division_equations; lia.
Qed.

(** The decoder reads back the tag and length the encoder wrote, for a tag
    number below 31 and a length below 2^31. *)
Lemma parseTagAndLength_appendTagAndLength (t : tagAndLength) (rest : list byte) :
  0 <= t_class t < 4 ->
  0 <= t_tag t < 31 ->
  0 <= t_length t < 2 ^ 31 ->
  parseTagAndLength (appendTagAndLength t ++ rest) = Ok (t, rest).
Proof.
  intros Hc Hg Hl. destruct t as [c g l comp]. cbn [t_class t_tag t_length t_isCompound] in *.
  unfold appendTagAndLength, parseTagAndLength.
  cbn [t_class t_tag t_length t_isCompound app].
  destruct (firstByte_decode c g comp Hc Hg) as (H1 & H2 & H3).
  cbv zeta in H1, H2, H3. rewrite H1, H2, H3.
  replace (g =? 31) with false by (symmetry; apply Z.eqb_neq; lia).
  cbn [bind].
  destruct (Z.leb_spec 128 l) as [Hlong|Hshort].
  - cbn [app].
    assert (Hn : 1 <= lengthLength l <= 8)
      by (destruct (lengthLength_cases l Hl) as [[_ E]|[[_ E]|[[_ E]|[_ E]]]];
          rewrite E; lia).
    destruct (longLength_lead (lengthLength l) Hn) as [L1 L2].
    rewrite L1, L2.
    replace (lengthLength l =? 0) with false by (symmetry; apply Z.eqb_neq; lia).
    unfold appendLength.
    rewrite (parseLength_loop_bigEndian l rest Hl).
    + cbn [bind].
      replace (l <? 128) with false by (symmetry; apply Z.ltb_ge; lia).
      reflexivity.
    + rewrite Z2Nat.id by lia.
      destruct (lengthLength_cases l Hl) as [[B E]|[[B E]|[[B E]|[B E]]]];
        rewrite E; symmetry; apply Z.div_small;
        change (2 ^ 31) with 2147483648 in Hl; cbn; lia.
    + intros _. rewrite Z2Nat.id by lia.
      destruct (lengthLength_cases l Hl) as [[B E]|[[B E]|[[B E]|[B E]]]];
        rewrite E; cbn; apply Z.div_str_pos; lia.
  - cbn [app].
    destruct (shortLength_decode l ltac:(lia)) as [S1 S2].
    rewrite S1, S2. reflexivity.
Qed.


(** *** INTEGER: what [int64Encoder] writes, [parseInt64] reads *)

Lemma int64_add_mul (x k : Z) : int64 (x + k * 2 ^ 64) = int64 x.
Proof.
  unfold int64. replace (x + k * 2 ^ 64 + 2 ^ 63) with (x + 2 ^ 63 + k * 2 ^ 64) by ring.
  rewrite Z.mod_add by (cbn; lia). reflexivity.
Qed.

Lemma int64_spec (x : Z) : exists k, int64 x = x + k * 2 ^ 64.
Proof.
  exists (- ((x + 2 ^ 63) / 2 ^ 64)). unfold int64.
  rewrite Z.mod_eq by (cbn; lia). ring.
Qed.

Lemma int64_small (x : Z) : - 2 ^ 63 <= x < 2 ^ 63 -> int64 x = x.
Proof.
  intros H. unfold int64. rewrite Z.mod_small; [ring|].
  change (2 ^ 64) with (2 ^ 63 + 2 ^ 63). lia.
Qed.

(** One turn of the loop of [parseInt64], up to the wrap-around of [int64]. *)
Lemma parseInt64_step (ret b : Z) :
  0 <= b < 256 ->
  int64 (Z.lor (int64 (Z.shiftl ret 8)) b) = int64 (ret * 256 + b).
Proof.
  intros Hb. rewrite Z.shiftl_mul_pow2 by lia. change (2 ^ 8) with 256.
  destruct (int64_spec (ret * 256)) as [k Hk]. rewrite Hk.
  replace (ret * 256 + k * 2 ^ 64) with (Z.shiftl (ret + k * 2 ^ 56) 8).
  - rewrite lor_shiftl8 by exact Hb.
    replace (256 * (ret + k * 2 ^ 56) + b) with (ret * 256 + b + k * 2 ^ 64).
    + apply int64_add_mul.
    + change (2 ^ 64) with (256 * 2 ^ 56). ring.
  - rewrite Z.shiftl_mul_pow2 by lia. change (2 ^ 64) with (2 ^ 56 * 2 ^ 8). ring.
Qed.

Lemma parseInt64_fold (bytes : list byte) :
  forall acc : Z,
    fold_left (fun ret b => int64 (Z.lor (int64 (Z.shiftl ret 8)) (b2z b)))
              bytes (int64 acc)
    = int64 (fold_left (fun ret b => ret * 256 + b2z b) bytes acc).
Proof.
  induction bytes as [|b bytes IH]; intros acc; [reflexivity|].
  cbn [fold_left]. rewrite parseInt64_step by apply b2z_range.
  destruct (int64_spec acc) as [k Hk].
  replace (int64 acc * 256 + b2z b) with (acc * 256 + b2z b + (k * 256) * 2 ^ 64)
    by (rewrite Hk; ring).
  rewrite int64_add_mul. apply IH.
Qed.

Lemma length_bigEndianBytes (n : nat) (v : Z) : length (bigEndianBytes n v) = n.
Proof.
  induction n as [|m IH]; [reflexivity|]. cbn [bigEndianBytes length]. rewrite IH.
  reflexivity.
Qed.

(** The bytes of [bigEndianBytes n v], read as a number, are [v mod 256^n]. *)
Lemma fold_bigEndianBytes (v : Z) :
  forall (n : nat) (acc : Z),
    fold_left (fun ret b => ret * 256 + b2z b) (bigEndianBytes n v) acc
    = acc * 256 ^ Z.of_nat n + v mod 256 ^ Z.of_nat n.
Proof.
  induction n as [|m IH]; intros acc.
  - cbn [bigEndianBytes fold_left]. change (256 ^ Z.of_nat 0) with 1.
    rewrite Z.mod_1_r. ring.
  - cbn [bigEndianBytes fold_left]. rewrite IH.
    rewrite b2z_z2b, Z.shiftr_div_pow2 by lia.
    replace (2 ^ (Z.of_nat m * 8)) with (256 ^ Z.of_nat m)
      by (change 256 with (2 ^ 8); rewrite <- Z.pow_mul_r by lia; f_equal; lia).
    replace (Z.of_nat (S m)) with (Z.of_nat m + 1) by lia.
    rewrite Z.pow_add_r by lia. change (256 ^ 1) with 256.
    assert (Hp : 0 < 256 ^ Z.of_nat m) by (apply Z.pow_pos_nonneg; lia).
    rewrite (Z.rem_mul_r v (256 ^ Z.of_nat m) 256) by lia.
    ring.
Qed.

Ltac shiftr_to_div :=
  rewrite ?Z.shiftr_div_pow2 in * by lia; change (2 ^ 8) with 256 in *.

Ltac int64Len_done n :=
  exists n; split; [reflexivity|]; split; [lia|];
  split; [cbn; Z.to_euclidean_division_equations; lia|];
  first [left; reflexivity
        |right; cbn; Z.to_euclidean_division_equations; lia].

Ltac int64Len_case :=
  match goal with
  | |- context [if ?a <? ?b then _ else _] =>
      destruct (Z.ltb_spec a b); shiftr_to_div;
      try (exfalso; Z.to_euclidean_division_equations; lia)
  end.

Lemma int64Len_spec (v : Z) :
  - 2 ^ 63 <= v < 2 ^ 63 ->
  exists N : nat,
    int64Len v = Z.of_nat N /\ (1 <= N <= 8)%nat
    /\ - 2 ^ (8 * Z.of_nat N - 1) <= v < 2 ^ (8 * Z.of_nat N - 1)
    /\ (N = 1%nat \/ v < - 2 ^ (8 * Z.of_nat N - 9)
        \/ 2 ^ (8 * Z.of_nat N - 9) <= v).
Proof.
  intros Hv. unfold int64Len. cbn [int64Len_up int64Len_down].
  change (2 ^ 63) with 9223372036854775808 in Hv.
  repeat int64Len_case;
    first [int64Len_done 1%nat | int64Len_done 2%nat | int64Len_done 3%nat
          | int64Len_done 4%nat | int64Len_done 5%nat | int64Len_done 6%nat
          | int64Len_done 7%nat | int64Len_done 8%nat].
Qed.

Lemma land128_byte (b : byte) :
  (Z.land (b2z b) 128 =? 0) = (b2z b <? 128)
  /\ (Z.land (b2z b) 128 =? 128) = (128 <=? b2z b).
Proof.
  destruct b; vm_compute; split; reflexivity.
Qed.

Lemma checkInteger_bigEndianBytes (N : nat) (v : Z) :
  (1 <= N <= 8)%nat ->
  - 2 ^ (8 * Z.of_nat N - 1) <= v < 2 ^ (8 * Z.of_nat N - 1) ->
  (N = 1%nat \/ v < - 2 ^ (8 * Z.of_nat N - 9) \/ 2 ^ (8 * Z.of_nat N - 9) <= v) ->
  checkInteger (bigEndianBytes N v) = Ok tt.
Proof.
  intros HN Hr Hm.
  destruct N as [|[|N]]; [lia|reflexivity|].
  cbn [bigEndianBytes checkInteger].
  destruct (land128_byte (z2b (Z.shiftr v (Z.of_nat N * 8)))) as [L0 L1].
  rewrite L0, L1. rewrite !b2z_z2b. rewrite !Z.shiftr_div_pow2 by lia.
  destruct Hm as [Hm|Hm]; [lia|].
  do 7 (destruct N as [|N];
        [cbn in Hr, Hm |- *;
         repeat match goal with
                | |- context [?a =? ?b] => destruct (Z.eqb_spec a b)
                | |- context [?a <? ?b] => destruct (Z.ltb_spec a b)
                | |- context [?a <=? ?b] => destruct (Z.leb_spec a b)
                end; cbn [andb orb]; try reflexivity;
         exfalso; Z.to_euclidean_division_equations; lia|]).
  lia.
Qed.

Ltac compute_pows :=
  repeat match goal with
         | |- context [Z.pow ?a ?b] =>
             let c := eval vm_compute in (Z.pow a b) in
             progress change (Z.pow a b) with c
         | H : context [Z.pow ?a ?b] |- _ =>
             let c := eval vm_compute in (Z.pow a b) in
             progress change (Z.pow a b) with c in H
         end.

Lemma signExtend_bigEndian (N : nat) (v : Z) :
  (1 <= N <= 8)%nat ->
  - 2 ^ (8 * Z.of_nat N - 1) <= v < 2 ^ (8 * Z.of_nat N - 1) ->
  let shift := (64 - (Z.of_nat N mod 256) * 8 mod 256) mod 256 in
  Z.shiftr (int64 (Z.shiftl (int64 (0 * 256 ^ Z.of_nat N + v mod 256 ^ Z.of_nat N))
                            shift)) shift = v.
Proof.
  intros HN Hr shift.
  assert (Hs : shift = 64 - 8 * Z.of_nat N).
  { unfold shift. Z.to_euclidean_division_equations; lia. }
  rewrite Hs. clear shift Hs.
  rewrite Z.shiftl_mul_pow2, Z.shiftr_div_pow2 by lia.
  unfold int64.
  destruct N as [|N]; [lia|].
  do 8 (destruct N as [|N];
        [cbn [Z.of_nat Pos.of_succ_nat Pos.succ] in Hr |- *; compute_pows;
         Z.to_euclidean_division_equations; lia|]).
  lia.
Qed.

(** [parseInt64] reads back what [int64Encoder] wrote, for every [int64]. *)
Lemma parseInt64_int64Encode (v : Z) :
  - 2 ^ 63 <= v < 2 ^ 63 ->
  parseInt64 (int64Encode v) = Ok v.
Proof.
  intros Hv.
  destruct (int64Len_spec v Hv) as (N & EN & HN & Hr & Hm).
  unfold int64Encode, parseInt64. rewrite EN, Nat2Z.id.
  rewrite (checkInteger_bigEndianBytes N v HN Hr Hm). cbn [bind].
  unfold len. rewrite length_bigEndianBytes.
  replace (8 <? Z.of_nat N) with false by (symmetry; apply Z.ltb_ge; lia).
  change 0 with (int64 0) at 1.
  rewrite parseInt64_fold, fold_bigEndianBytes.
  f_equal. apply (signExtend_bigEndian N v HN Hr).
Qed.


(** *** Fields: what [makeField] writes, [parseField] reads *)

Lemma len_app (x y : list byte) : len (x ++ y) = len x + len y.
Proof.
  unfold len. rewrite length_app. lia.
Qed.

Lemma len_nonneg (x : list byte) : 0 <= len x.
Proof.
  unfold len. lia.
Qed.

Lemma len_nil : len [] = 0.
Proof.
  reflexivity.
Qed.

Lemma appendTagAndLength_cons (t : tagAndLength) :
  exists b tl, appendTagAndLength t = b :: tl.
Proof.
  unfold appendTagAndLength. eauto.
Qed.

Lemma atEnd_appendTagAndLength (t : tagAndLength) (x : list byte) :
  atEnd (appendTagAndLength t ++ x) = false.
Proof.
  reflexivity.
Qed.

Lemma firstn_len_app (x y : list byte) : firstn (Z.to_nat (len x)) (x ++ y) = x.
Proof.
  unfold len. rewrite Nat2Z.id, firstn_app, Nat.sub_diag, firstn_all, firstn_O.
  apply app_nil_r.
Qed.

Lemma skipn_len_app (x y : list byte) : skipn (Z.to_nat (len x)) (x ++ y) = y.
Proof.
  unfold len. rewrite Nat2Z.id, skipn_app, Nat.sub_diag, skipn_all. reflexivity.
Qed.

(** A value that carries only its universal tag, as a slice element and the
    outermost value do. *)
Lemma parseFieldHeader_makeUniversal (k : fieldKind) (kt ut : Z) (c : bool)
  (body later : list byte) :
  0 <= ut < 31 ->
  len body < 2 ^ 31 ->
  getUniversalType k = (false, kt, c, true) ->
  (if kt =? TagPrintableString
   then if isForeignStringTag ut || (ut =? TagUTF8String) then ut else kt
   else kt) = ut ->
  parseFieldHeader k noParameters (makeUniversal ut c body ++ later)
  = Ok (Some (ut, body), later).
Proof.
  intros Hut Hlen Hk Hm. unfold makeUniversal, parseFieldHeader.
  rewrite <- app_assoc. rewrite atEnd_appendTagAndLength.
  rewrite parseTagAndLength_appendTagAndLength;
    [|cbn [t_class]; unfold ClassUniversal; lia
     |cbn [t_tag]; exact Hut
     |cbn [t_length]; pose proof (len_nonneg body); lia].
  cbn [bind noParameters explicit tag optional stringType setDefaultValue].
  rewrite Hk. cbn [negb].
  cbn [t_class t_tag t_length t_isCompound].
  change (ClassUniversal =? ClassUniversal) with true. cbv iota.
  rewrite Hm. rewrite Z.eqb_refl. cbn [andb negb orb].
  rewrite Bool.eqb_reflx. cbn [negb].
  replace (len (body ++ later) <? len body) with false
    by (symmetry; apply Z.ltb_ge; rewrite len_app;
        pose proof (len_nonneg later); lia).
  rewrite firstn_len_app, skipn_len_app. reflexivity.
Qed.

(** A field with an explicit tag that is present. *)
Lemma parseFieldHeader_makeExplicit (k : fieldKind) (opt : bool) (n st kt ut : Z)
  (c : bool) (body later : list byte) :
  0 <= n < 31 ->
  0 <= ut < 31 ->
  len (makeUniversal ut c body) < 2 ^ 31 ->
  getUniversalType k = (false, kt, c, true) ->
  (if kt =? TagPrintableString
   then if isForeignStringTag ut || (ut =? TagUTF8String) then ut else kt
   else kt) = ut ->
  parseFieldHeader k (mkFieldParameters opt true (Some n) st)
                   (makeExplicit n ut c body ++ later)
  = Ok (Some (ut, body), later).
Proof.
  intros Hn Hut Hlen Hk Hm. unfold makeExplicit, parseFieldHeader.
  rewrite <- app_assoc. rewrite atEnd_appendTagAndLength.
  rewrite parseTagAndLength_appendTagAndLength;
    [|cbn [t_class]; unfold ClassContextSpecific; lia
     |cbn [t_tag]; exact Hn
     |cbn [t_length]; pose proof (len_nonneg (makeUniversal ut c body)); lia].
  cbn [bind explicit tag optional stringType setDefaultValue
       t_class t_tag t_length t_isCompound].
  assert (Hpos : 0 < len (makeUniversal ut c body)).
  { unfold makeUniversal. rewrite len_app.
    destruct (appendTagAndLength_cons
                (mkTagAndLength ClassUniversal ut (len body) c)) as (b' & tl' & E').
    rewrite E'. pose proof (len_nonneg body). unfold len. cbn [length]. lia. }
  assert (Hbody : len body < 2 ^ 31).
  { unfold makeUniversal in Hlen. rewrite len_app in Hlen.
    pose proof (len_nonneg (appendTagAndLength
                              (mkTagAndLength ClassUniversal ut (len body) c))).
    lia. }
  unfold makeUniversal at 1 2. rewrite <- !app_assoc.
  rewrite atEnd_appendTagAndLength.
  change (ClassContextSpecific =? ClassContextSpecific) with true.
  rewrite Z.eqb_refl. cbn [andb orb].
  rewrite Bool.orb_true_r.
  replace (0 <? len (makeUniversal ut c body)) with true
    by (symmetry; apply Z.ltb_lt; exact Hpos).
  unfold makeUniversal. rewrite <- !app_assoc.
  rewrite parseTagAndLength_appendTagAndLength;
    [|cbn [t_class]; unfold ClassUniversal; lia
     |cbn [t_tag]; exact Hut
     |cbn [t_length]; pose proof (len_nonneg body); lia].
  cbn [bind]. rewrite Hk. cbn [negb].
  cbn [t_class t_tag t_length t_isCompound explicit tag].
  change (ClassUniversal =? ClassUniversal) with true. cbv iota.
  rewrite Hm. rewrite Z.eqb_refl. cbn [andb negb orb].
  rewrite Bool.eqb_reflx. cbn [negb].
  replace (len (body ++ later) <? len body) with false
    by (symmetry; apply Z.ltb_ge; rewrite len_app;
        pose proof (len_nonneg later); lia).
  rewrite firstn_len_app, skipn_len_app. reflexivity.
Qed.

Lemma len_makeUniversal_le (n ut : Z) (c : bool) (body : list byte) :
  len (makeUniversal ut c body) <= len (makeExplicit n ut c body).
Proof.
  unfold makeExplicit. rewrite len_app.
  pose proof (len_nonneg
                (appendTagAndLength
                   (mkTagAndLength ClassContextSpecific n
                      (len (makeUniversal ut c body)) true))).
  lia.
Qed.

Lemma len_body_le (ut : Z) (c : bool) (body : list byte) :
  len body <= len (makeUniversal ut c body).
Proof.
  unfold makeUniversal. rewrite len_app.
  pose proof (len_nonneg
                (appendTagAndLength (mkTagAndLength ClassUniversal ut (len body) c))).
  lia.
Qed.

Lemma makeExplicit_not_nil (n ut : Z) (c : bool) (body : list byte) :
  makeExplicit n ut c body <> [].
Proof.
  unfold makeExplicit, appendTagAndLength. cbn [app]. discriminate.
Qed.

Lemma atEnd_makeUniversal (ut : Z) (c : bool) (body rest : list byte) :
  atEnd (makeUniversal ut c body ++ rest) = false.
Proof.
  reflexivity.
Qed.

Lemma atEnd_makeExplicit (n ut : Z) (c : bool) (body rest : list byte) :
  atEnd (makeExplicit n ut c body ++ rest) = false.
Proof.
  reflexivity.
Qed.

Lemma parseTagAndLength_makeExplicit (n ut : Z) (c : bool) (body rest : list byte) :
  0 <= n < 31 ->
  len (makeUniversal ut c body) < 2 ^ 31 ->
  parseTagAndLength (makeExplicit n ut c body ++ rest)
  = Ok (mkTagAndLength ClassContextSpecific n (len (makeUniversal ut c body)) true,
        makeUniversal ut c body ++ rest).
Proof.
  intros Hn Hlen. unfold makeExplicit. rewrite <- app_assoc.
  apply parseTagAndLength_appendTagAndLength.
  - cbn [t_class]. unfold ClassContextSpecific. lia.
  - exact Hn.
  - cbn [t_length]. pose proof (len_nonneg (makeUniversal ut c body)). lia.
Qed.

(** A field with an explicit tag that is left out: the decoder finds the
    end of the input or another field, and takes the optional field as
    absent. *)
Lemma parseFieldHeader_absent (k : fieldKind) (n st : Z) (later : list byte) :
  noFieldAt n later ->
  parseFieldHeader k (mkFieldParameters true true (Some n) st) later
  = Ok (None, later).
Proof.
  intros [->|(m & f & rest & -> & Hne & Hf & Hm & Hmn)]; [reflexivity|].
  destruct Hf as [->|(ut & c & body & -> & Hut & Hlen)]; [contradiction|].
  unfold parseFieldHeader.
  rewrite atEnd_makeExplicit, parseTagAndLength_makeExplicit by assumption.
  cbn [bind explicit tag optional stringType setDefaultValue
       t_class t_tag t_length t_isCompound].
  rewrite atEnd_makeUniversal.
  replace (m =? n) with false by (symmetry; apply Z.eqb_neq; exact Hmn).
  rewrite Bool.andb_false_r. reflexivity.
Qed.

Lemma noFieldAt_nil (n : Z) : noFieldAt n [].
Proof.
  left. reflexivity.
Qed.

Lemma noFieldAt_app (n m : Z) (f rest : list byte) :
  fieldEncoding m f -> 0 <= m < 31 -> m <> n ->
  noFieldAt n rest ->
  noFieldAt n (f ++ rest).
Proof.
  intros Hf Hm Hmn Hrest.
  destruct f as [|b f']; [exact Hrest|].
  right. exists m, (b :: f'), rest. repeat split; try assumption; try lia.
  discriminate.
Qed.

Lemma parseFieldWith_present {A : Type} (k : fieldKind) (zero : A)
  (bodyf : Z -> list byte -> result A) (params : fieldParameters)
  (bytes body later : list byte) (ut : Z) (v : A) :
  parseFieldHeader k params bytes = Ok (Some (ut, body), later) ->
  bodyf ut body = Ok v ->
  parseFieldWith k zero bodyf params bytes = Ok (v, later).
Proof.
  intros Hh Hb. unfold parseFieldWith. rewrite Hh. cbn [bind]. rewrite Hb.
  reflexivity.
Qed.

Lemma parseFieldWith_absent {A : Type} (k : fieldKind) (zero : A)
  (bodyf : Z -> list byte -> result A) (params : fieldParameters)
  (bytes later : list byte) :
  parseFieldHeader k params bytes = Ok (None, later) ->
  parseFieldWith k zero bodyf params bytes = Ok (zero, later).
Proof.
  intros Hh. unfold parseFieldWith. rewrite Hh. reflexivity.
Qed.

(** What [makeField] returns for a field with an explicit tag. *)
Lemma makeField_explicit_inv (opt isZero c : bool) (n ut : Z)
  (body : result (list byte)) (f : list byte) :
  makeField opt true (Some n) isZero ut c body = Ok f ->
  (opt = true /\ isZero = true /\ f = [])
  \/ (opt && isZero = false
      /\ exists b, body = Ok b /\ f = makeExplicit n ut c b).
Proof.
  unfold makeField. destruct (opt && isZero) eqn:E.
  - intros [= <-]. apply andb_prop in E. left. tauto.
  - intros H. apply bind_Ok in H. destruct H as (b & Hb & [= <-]).
    right. split; [reflexivity|]. exists b. auto.
Qed.

Lemma fieldEncoding_makeExplicit (n ut : Z) (c : bool) (body : list byte) :
  0 <= ut < 31 ->
  len (makeExplicit n ut c body) < 2 ^ 31 ->
  fieldEncoding n (makeExplicit n ut c body).
Proof.
  intros Hut Hlen. right. exists ut, c, body. split; [reflexivity|].
  split; [exact Hut|]. pose proof (len_makeUniversal_le n ut c body). lia.
Qed.

Lemma fieldEncoding_makeField (opt isZero c : bool) (n ut : Z)
  (body : result (list byte)) (f : list byte) :
  makeField opt true (Some n) isZero ut c body = Ok f ->
  0 <= ut < 31 ->
  len f < 2 ^ 31 ->
  fieldEncoding n f.
Proof.
  intros H Hut Hlen.
  destruct (makeField_explicit_inv _ _ _ _ _ _ _ H)
    as [(_ & _ & ->)|(_ & b & _ & ->)].
  - left. reflexivity.
  - apply fieldEncoding_makeExplicit; assumption.
Qed.


(** *** SEQUENCE OF OCTET STRING: the certificate chain *)

Lemma parseTagAndLength_makeUniversal (ut : Z) (c : bool) (body rest : list byte) :
  0 <= ut < 31 ->
  len body < 2 ^ 31 ->
  parseTagAndLength (makeUniversal ut c body ++ rest)
  = Ok (mkTagAndLength ClassUniversal ut (len body) c, body ++ rest).
Proof.
  intros Hut Hlen. unfold makeUniversal. rewrite <- app_assoc.
  apply parseTagAndLength_appendTagAndLength.
  - cbn [t_class]. unfold ClassUniversal. lia.
  - exact Hut.
  - cbn [t_length]. pose proof (len_nonneg body). lia.
Qed.

Lemma length_makeUniversal_pos (ut : Z) (c : bool) (body : list byte) :
  (0 < length (makeUniversal ut c body))%nat.
Proof.
  unfold makeUniversal, appendTagAndLength. cbn [app length]. lia.
Qed.

Lemma countElements_encoded (els : list (list byte)) :
  forall (fuel numElements : nat),
    (length (List.concat (map (makeUniversal TagOctetString false) els)) <= fuel)%nat ->
    len (List.concat (map (makeUniversal TagOctetString false) els)) < 2 ^ 31 ->
    countElements fuel (List.concat (map (makeUniversal TagOctetString false) els))
                  numElements
    = Ok (numElements + length els)%nat.
Proof.
  induction els as [|e els IH]; intros fuel numElements Hfuel Hlen.
  - cbn. destruct fuel; cbn; f_equal; lia.
  - cbn [map List.concat] in *.
    pose proof (length_makeUniversal_pos TagOctetString false e) as Hpos.
    rewrite length_app in Hfuel. rewrite len_app in Hlen.
    pose proof (len_nonneg (List.concat (map (makeUniversal TagOctetString false) els))).
    pose proof (len_nonneg (makeUniversal TagOctetString false e)).
    pose proof (len_body_le TagOctetString false e).
    destruct fuel as [|fuel]; [lia|].
    cbn [countElements]. rewrite atEnd_makeUniversal.
    rewrite parseTagAndLength_makeUniversal by (unfold TagOctetString; lia).
    cbn [bind t_class t_tag t_length t_isCompound].
    change (isForeignStringTag TagOctetString) with false.
    change (TagOctetString =? TagUTF8String) with false.
    change (TagOctetString =? TagGeneralizedTime) with false.
    change (TagOctetString =? TagUTCTime) with false.
    cbn [orb]. change (ClassUniversal =? ClassUniversal) with true.
    change (TagOctetString =? TagOctetString) with true.
    cbn [negb orb Bool.eqb].
    replace (len (e ++ List.concat (map (makeUniversal TagOctetString false) els))
             <? len e) with false
      by (symmetry; apply Z.ltb_ge; rewrite len_app; lia).
    rewrite skipn_len_app. rewrite IH by lia. f_equal. cbn [length]. lia.
Qed.

Lemma parseElements_encoded (els : list (list byte)) :
  len (List.concat (map (makeUniversal TagOctetString false) els)) < 2 ^ 31 ->
  parseElements (length els)
                (List.concat (map (makeUniversal TagOctetString false) els))
  = Ok (map Some els).
Proof.
  induction els as [|e els IH]; intros Hlen; [reflexivity|].
  cbn [map List.concat length parseElements] in *.
  rewrite len_app in Hlen.
  pose proof (len_nonneg (List.concat (map (makeUniversal TagOctetString false) els))).
  pose proof (len_nonneg (makeUniversal TagOctetString false e)).
  pose proof (len_body_le TagOctetString false e).
  rewrite (parseFieldHeader_makeUniversal KindBytes TagOctetString TagOctetString
             false e _);
    [|unfold TagOctetString; lia|lia|reflexivity|reflexivity].
  cbn [bind]. rewrite IH by lia. reflexivity.
Qed.

(** [parseSequenceOf] reads back the elements the encoder wrote, in their
    order, each as a slice that is not nil. *)
Lemma parseSequenceOf_encoded (els : list (list byte)) :
  len (List.concat (map (makeUniversal TagOctetString false) els)) < 2 ^ 31 ->
  parseSequenceOf (List.concat (map (makeUniversal TagOctetString false) els))
  = Ok (map Some els).
Proof.
  intros Hlen. unfold parseSequenceOf.
  rewrite countElements_encoded by (lia || exact Hlen).
  cbn [bind Nat.add]. apply parseElements_encoded. exact Hlen.
Qed.

(** *** Strings *)

Lemma isPrintable_allow (b : byte) :
  isPrintable b false false = true -> isPrintable b true true = true.
Proof.
  destruct b; vm_compute; congruence.
Qed.

Lemma forallb_isPrintable_allow (bytes : list byte) :
  forallb (fun b => isPrintable b false false) bytes = true ->
  forallb (fun b => isPrintable b true true) bytes = true.
Proof.
  induction bytes as [|b bytes IH]; [reflexivity|].
  cbn [forallb]. intros H. apply andb_prop in H. destruct H as [H1 H2].
  rewrite (isPrintable_allow b H1), (IH H2). reflexivity.
Qed.

Lemma list_byte_of_string_nil (s : string) :
  list_byte_of_string s = [] -> s = EmptyString.
Proof.
  destruct s; [reflexivity|discriminate].
Qed.

(** *** The header of a SEQUENCE, read back from the bytes *)

Lemma parseLength_loop_S (n : nat) (bytes : list byte) (acc L : Z)
  (rest : list byte) :
  parseLength_loop (S n) bytes acc = Ok (L, rest) ->
  0 <= acc ->
  exists b tl,
    bytes = b :: tl
    /\ 0 < 256 * acc + b2z b
    /\ parseLength_loop n tl (256 * acc + b2z b) = Ok (L, rest).
Proof.
  intros H Hacc. cbn [parseLength_loop] in H.
  destruct bytes as [|b tl]; [discriminate H|].
  destruct (8388608 <=? acc); [discriminate H|].
  pose proof (b2z_range b) as Hb.
  rewrite (lor_shiftl8 acc (b2z b) Hb) in H.
  destruct (Z.eqb_spec (256 * acc + b2z b) 0) as [E|E]; [discriminate H|].
  exists b, tl. split; [reflexivity|]. split; [lia|exact H].
Qed.

Lemma parseLength_loop_lower (n : nat) :
  forall (bytes : list byte) (acc L : Z) (rest : list byte),
    parseLength_loop n bytes acc = Ok (L, rest) ->
    0 <= acc ->
    acc <= L /\ len bytes = Z.of_nat n + len rest.
Proof.
  induction n as [|n IH]; intros bytes acc L rest H Hacc.
  - cbn [parseLength_loop] in H. injection H as <- <-. lia.
  - destruct (parseLength_loop_S n bytes acc L rest H Hacc)
      as (b & tl & -> & Hpos & Hk).
    pose proof (b2z_range b) as Hb.
    destruct (IH tl _ L rest Hk ltac:(lia)) as [Hle Hlen].
    split; [lia|]. unfold len in *. cbn [length]. lia.
Qed.

Lemma sequence_first_byte (b : byte) :
  Z.shiftr (b2z b) 6 = ClassUniversal ->
  (Z.land (b2z b) 32 =? 32) = true ->
  Z.land (b2z b) 31 = TagSequence ->
  b = x30.
Proof.
  destruct b; vm_compute; intros; try discriminate; reflexivity.
Qed.

Lemma land127_short (a : byte) :
  Z.land (b2z a) 128 = 0 -> Z.land (b2z a) 127 = b2z a.
Proof.
  destruct a; vm_compute; intros; try discriminate; reflexivity.
Qed.

(** A buffer in which [parseTagAndLength] finds a universal, constructed
    SEQUENCE begins with [0x30] and a length in the short form, or in the
    long form of [a & 0x7F] bytes for a length of 128 or more. *)
Lemma parseTagAndLength_Sequence_inv (f : list byte) (t : tagAndLength)
  (rest0 : list byte) :
  parseTagAndLength f = Ok (t, rest0) ->
  t_class t = ClassUniversal -> t_tag t = TagSequence -> t_isCompound t = true ->
  exists a tl,
    f = x30 :: a :: tl
    /\ ((Z.land (b2z a) 128 = 0 /\ t_length t = b2z a /\ rest0 = tl)
        \/ (Z.land (b2z a) 128 <> 0 /\ 128 <= t_length t
            /\ parseLength_loop (Z.to_nat (Z.land (b2z a) 127)) tl 0
               = Ok (t_length t, rest0))).
Proof.
  unfold parseTagAndLength. intros H Hc Hg Hcomp.
  destruct f as [|b rest]; [discriminate H|].
  cbv zeta in H.
  apply bind_Ok in H. destruct H as ([tg rest1] & Htag & H).
  destruct rest1 as [|a tl]; [discriminate H|].
  assert (Hb : tg = Z.land (b2z b) 31 /\ rest = a :: tl \/ 31 <= tg).
  { destruct (Z.land (b2z b) 31 =? 31).
    - apply bind_Ok in Htag. destruct Htag as ([tg' rest'] & _ & Hk).
      destruct (Z.ltb_spec tg' 31); [discriminate Hk|].
      injection Hk as <- _. right. assumption.
    - injection Htag as <- <-. left. auto. }
  destruct (Z.eqb_spec (Z.land (b2z a) 128) 0) as [Ha|Ha].
  - injection H as <- <-.
    cbn [t_class t_tag t_length t_isCompound] in Hc, Hg, Hcomp.
    destruct Hb as [[-> ->]|Hb]; [|unfold TagSequence in Hg; lia].
    rewrite (sequence_first_byte b Hc Hcomp Hg).
    exists a, tl. split; [reflexivity|]. left.
    cbn [t_length]. rewrite (land127_short a Ha). auto.
  - destruct (Z.land (b2z a) 127 =? 0); [discriminate H|].
    apply bind_Ok in H. destruct H as ([L rest2] & HL & H).
    destruct (Z.ltb_spec L 128) as [Hlt|Hge]; [discriminate H|].
    injection H as <- <-.
    cbn [t_class t_tag t_length t_isCompound] in Hc, Hg, Hcomp.
    destruct Hb as [[-> ->]|Hb]; [|unfold TagSequence in Hg; lia].
    rewrite (sequence_first_byte b Hc Hcomp Hg).
    exists a, tl. split; [reflexivity|]. right.
    cbn [t_length]. auto.
Qed.

End asn1_props.

(** ** Package rdcleanpath: the handshake codec *)

Module rdcleanpath_props.
Import asn1 rdcleanpath asn1_props.

Section Codec.

Variable parseForeignString : Z -> list byte -> result string.


Ltac solve_noFieldAt :=
  rewrite <- ?app_assoc;
  repeat (eapply noFieldAt_app; [eassumption|lia|lia|]);
  first [apply noFieldAt_nil
        |match goal with
         | |- noFieldAt _ ?f =>
             rewrite <- (app_nil_r f);
             eapply noFieldAt_app; [eassumption|lia|lia|apply noFieldAt_nil]
         end].

(** *** Field by field: what [Marshal] writes, [Unmarshal] reads *)

Lemma parseFieldInt_marshalInt (opt : bool) (n v : Z) (f later : list byte) :
  marshalInt (mkFieldParameters opt true (Some n) 0) v = Ok f ->
  - 2 ^ 63 <= v < 2 ^ 63 ->
  0 <= n < 31 ->
  len f < 2 ^ 31 ->
  noFieldAt n later ->
  parseFieldInt (mkFieldParameters opt true (Some n) 0) (f ++ later)
  = Ok (v, later).
Proof.
  intros Hm Hv Hn Hlen Hlater. unfold marshalInt in Hm.
  cbn [optional explicit tag] in Hm.
  destruct (makeField_explicit_inv _ _ _ _ _ _ _ Hm)
    as [(-> & Hz & ->)|(_ & b & [= <-] & ->)].
  - apply Z.eqb_eq in Hz. subst v. cbn [app].
    apply parseFieldWith_absent, parseFieldHeader_absent. exact Hlater.
  - unfold parseFieldInt.
    apply parseFieldWith_present with (ut := TagInteger) (body := int64Encode v).
    + apply parseFieldHeader_makeExplicit with (kt := TagInteger);
        [exact Hn|unfold TagInteger; lia| |reflexivity|reflexivity].
      pose proof (len_makeUniversal_le n TagInteger false (int64Encode v)). lia.
    + apply parseInt64_int64Encode. exact Hv.
Qed.

Lemma fieldEncoding_marshalInt (params : fieldParameters) (n v : Z) (f : list byte) :
  explicit params = true -> tag params = Some n ->
  marshalInt params v = Ok f ->
  len f < 2 ^ 31 ->
  fieldEncoding n f.
Proof.
  intros He Ht Hm Hlen. unfold marshalInt in Hm. rewrite He, Ht in Hm.
  apply (fieldEncoding_makeField _ _ _ _ _ _ _ Hm); [unfold TagInteger; lia|exact Hlen].
Qed.

Lemma marshalUint8_inv (params : fieldParameters) (v : Z) (f : list byte) :
  marshalUint8 params v = Ok f -> optional params = true /\ v = 0 /\ f = [].
Proof.
  unfold marshalUint8. destruct (optional params); cbn [andb]; [|discriminate].
  destruct (Z.eqb_spec v 0); [|discriminate]. intros [= <-]. auto.
Qed.

Lemma parseFieldUint8_marshalUint8 (n v : Z) (f later : list byte) :
  marshalUint8 (mkFieldParameters true true (Some n) 0) v = Ok f ->
  noFieldAt n later ->
  parseFieldUint8 (mkFieldParameters true true (Some n) 0) (f ++ later)
  = Ok (v, later).
Proof.
  intros Hm Hlater. destruct (marshalUint8_inv _ _ _ Hm) as (_ & -> & ->).
  cbn [app]. apply parseFieldWith_absent, parseFieldHeader_absent. exact Hlater.
Qed.

Lemma marshalString_inv (opt : bool) (n st : Z) (s : string) (f : list byte) :
  marshalString (mkFieldParameters opt true (Some n) st) s = Ok f ->
  (opt = true /\ s = EmptyString /\ f = [])
  \/ (exists ut,
        (if st =? 0 then stringTag (list_byte_of_string s) else Ok st) = Ok ut
        /\ f = makeExplicit n ut false (list_byte_of_string s)).
Proof.
  unfold marshalString. cbn [optional explicit tag stringType].
  destruct (opt && match list_byte_of_string s with [] => true | _ :: _ => false end)
    eqn:E.
  - intros [= <-]. apply andb_prop in E. destruct E as [-> E]. left.
    repeat split. apply list_byte_of_string_nil.
    destruct (list_byte_of_string s); [reflexivity|discriminate].
  - intros H. apply bind_Ok in H. destruct H as (ut & Hut & H).
    unfold makeField in H. cbn [andb bind] in H. injection H as <-.
    right. exists ut. auto.
Qed.

Lemma stringTag_inv (bytes : list byte) (ut : Z) :
  stringTag bytes = Ok ut ->
  (ut = TagPrintableString
   /\ forallb (fun b => isPrintable b false false) bytes = true)
  \/ (ut = TagUTF8String /\ utf8_Valid bytes = true).
Proof.
  unfold stringTag.
  destruct (forallb (fun b => isPrintable b false false) bytes);
    [intros [= <-]; auto|].
  destruct (utf8_Valid bytes); [intros [= <-]; auto|discriminate].
Qed.

Lemma parseFieldString_marshalString (opt : bool) (n st : Z) (s : string)
  (f later : list byte) :
  marshalString (mkFieldParameters opt true (Some n) st) s = Ok f ->
  st = 0 \/ (st = TagUTF8String /\ utf8_Valid (list_byte_of_string s) = true) ->
  0 <= n < 31 ->
  len f < 2 ^ 31 ->
  noFieldAt n later ->
  parseFieldString parseForeignString (mkFieldParameters opt true (Some n) st)
                   (f ++ later)
  = Ok (s, later).
Proof.
  intros Hm Hst Hn Hlen Hlater.
  destruct (marshalString_inv _ _ _ _ _ Hm) as [(-> & -> & ->)|(ut & Hut & ->)].
  - cbn [app]. apply parseFieldWith_absent, parseFieldHeader_absent. exact Hlater.
  - assert (Hcases :
      (ut = TagPrintableString
       /\ forallb (fun b => isPrintable b false false) (list_byte_of_string s) = true)
      \/ (ut = TagUTF8String /\ utf8_Valid (list_byte_of_string s) = true)).
    { destruct Hst as [->|[-> Hv]].
      - apply stringTag_inv. exact Hut.
      - cbn in Hut. injection Hut as <-. auto. }
    pose proof (len_makeUniversal_le n ut false (list_byte_of_string s)).
    unfold parseFieldString.
    apply parseFieldWith_present with (ut := ut) (body := list_byte_of_string s).
    + destruct Hcases as [[-> _]|[-> _]];
        (apply parseFieldHeader_makeExplicit with (kt := TagPrintableString);
         [exact Hn|cbv; split; congruence|lia|reflexivity|reflexivity]).
    + unfold parseStringBody.
      destruct Hcases as [[-> Hp]|[-> Hv]].
      * change (TagPrintableString =? TagPrintableString) with true. cbv iota.
        unfold parsePrintableString.
        rewrite (forallb_isPrintable_allow _ Hp).
        rewrite string_of_list_byte_of_string. reflexivity.
      * change (TagUTF8String =? TagPrintableString) with false.
        change (TagUTF8String =? TagUTF8String) with true. cbv iota.
        unfold parseUTF8String. rewrite Hv.
        rewrite string_of_list_byte_of_string. reflexivity.
Qed.

Lemma fieldEncoding_marshalString (opt : bool) (n st : Z) (s : string)
  (f : list byte) :
  marshalString (mkFieldParameters opt true (Some n) st) s = Ok f ->
  st = 0 \/ st = TagUTF8String ->
  len f < 2 ^ 31 ->
  fieldEncoding n f.
Proof.
  intros Hm Hst Hlen.
  destruct (marshalString_inv _ _ _ _ _ Hm) as [(_ & _ & ->)|(ut & Hut & ->)].
  - left. reflexivity.
  - apply fieldEncoding_makeExplicit; [|exact Hlen].
    destruct Hst as [->| ->].
    + destruct (stringTag_inv _ _ Hut) as [[-> _]|[-> _]]; cbv; split; congruence.
    + cbn in Hut. injection Hut as <-. cbv. split; congruence.
Qed.

Lemma parseFieldBytes_marshalBytes (opt : bool) (n : Z) (v : option (list byte))
  (f later : list byte) :
  marshalBytes (mkFieldParameters opt true (Some n) 0) v = Ok f ->
  0 <= n < 31 ->
  len f < 2 ^ 31 ->
  noFieldAt n later ->
  (opt = false -> v <> None) ->
  parseFieldBytes (mkFieldParameters opt true (Some n) 0) (f ++ later)
  = Ok (v, later).
Proof.
  intros Hm Hn Hlen Hlater Hopt. unfold marshalBytes in Hm.
  cbn [optional explicit tag] in Hm.
  destruct (makeField_explicit_inv _ _ _ _ _ _ _ Hm)
    as [(-> & Hz & ->)|(Hnz & b & [= <-] & ->)].
  - destruct v; [discriminate|]. cbn [app].
    apply parseFieldWith_absent, parseFieldHeader_absent. exact Hlater.
  - destruct v as [b|].
    + unfold parseFieldBytes.
      apply parseFieldWith_present with (ut := TagOctetString) (body := b);
        [|reflexivity].
      apply parseFieldHeader_makeExplicit with (kt := TagOctetString);
        [exact Hn|unfold TagOctetString; lia| |reflexivity|reflexivity].
      pose proof (len_makeUniversal_le n TagOctetString false b). lia.
    + destruct opt; [discriminate Hnz|]. exfalso. apply Hopt; reflexivity.
Qed.

Lemma fieldEncoding_marshalBytes (params : fieldParameters) (n : Z)
  (v : option (list byte)) (f : list byte) :
  explicit params = true -> tag params = Some n ->
  marshalBytes params v = Ok f ->
  len f < 2 ^ 31 ->
  fieldEncoding n f.
Proof.
  intros He Ht Hm Hlen. unfold marshalBytes in Hm. rewrite He, Ht in Hm.
  apply (fieldEncoding_makeField _ _ _ _ _ _ _ Hm);
    [unfold TagOctetString; lia|exact Hlen].
Qed.

(** The elements of a chain without a nil element are the slices the
    decoder makes of their bytes. *)
Lemma noNilElement_decoded (v : option (list (option (list byte)))) :
  noNilElement v ->
  option_map (map (fun el => Some (sliceBytes el))) v = v.
Proof.
  destruct v as [els|]; [|reflexivity]. cbn [noNilElement option_map].
  intros H. f_equal. induction H as [|el els Hel _ IH]; [reflexivity|].
  cbn [map]. rewrite IH. destruct el as [b|]; [reflexivity|contradiction].
Qed.

(** A chain is read back with its elements in their order, each one as a
    slice that is not nil and holds the bytes of the element written. *)
Lemma parseFieldSliceOfBytes_marshalSliceOfBytes (n : Z)
  (v : option (list (option (list byte)))) (f later : list byte) :
  marshalSliceOfBytes (mkFieldParameters true true (Some n) 0) v = Ok f ->
  0 <= n < 31 ->
  len f < 2 ^ 31 ->
  noFieldAt n later ->
  parseFieldSliceOfBytes (mkFieldParameters true true (Some n) 0) (f ++ later)
  = Ok (option_map (map (fun el => Some (sliceBytes el))) v, later).
Proof.
  intros Hm Hn Hlen Hlater. unfold marshalSliceOfBytes in Hm.
  cbn [optional explicit tag] in Hm.
  destruct (makeField_explicit_inv _ _ _ _ _ _ _ Hm)
    as [(_ & Hz & ->)|(Hnz & b & [= <-] & ->)].
  - destruct v; [discriminate|]. cbn [app].
    apply parseFieldWith_absent, parseFieldHeader_absent. exact Hlater.
  - destruct v as [els|]; [|discriminate Hnz].
    pose proof (len_makeUniversal_le n TagSequence true
                  (List.concat (map (makeUniversal TagOctetString false)
                                    (map sliceBytes els)))).
    pose proof (len_body_le TagSequence true
                  (List.concat (map (makeUniversal TagOctetString false)
                                    (map sliceBytes els)))).
    unfold parseFieldSliceOfBytes.
    apply parseFieldWith_present with (ut := TagSequence)
      (body := List.concat (map (makeUniversal TagOctetString false)
                                (map sliceBytes els))).
    + apply parseFieldHeader_makeExplicit with (kt := TagSequence);
        [exact Hn|unfold TagSequence; lia|lia|reflexivity|reflexivity].
    + rewrite parseSequenceOf_encoded by lia.
      cbn [bind option_map]. rewrite map_map. reflexivity.
Qed.

Lemma fieldEncoding_marshalSliceOfBytes (params : fieldParameters) (n : Z)
  (v : option (list (option (list byte)))) (f : list byte) :
  explicit params = true -> tag params = Some n ->
  marshalSliceOfBytes params v = Ok f ->
  len f < 2 ^ 31 ->
  fieldEncoding n f.
Proof.
  intros He Ht Hm Hlen. unfold marshalSliceOfBytes in Hm. rewrite He, Ht in Hm.
  apply (fieldEncoding_makeField _ _ _ _ _ _ _ Hm);
    [unfold TagSequence; lia|exact Hlen].
Qed.


Lemma isZeroErr_true (e : Err) : isZeroErr e = true -> e = zeroErr.
Proof.
  destruct e as [a b c d]. unfold isZeroErr. cbn [ErrorCode HttpStatusCode
    WsaLastError TlsAlertCode]. intros H.
  apply andb_prop in H. destruct H as [H Hd].
  apply andb_prop in H. destruct H as [H Hc].
  apply andb_prop in H. destruct H as [Ha Hb].
  apply Z.eqb_eq in Ha, Hb, Hc, Hd. subst. reflexivity.
Qed.

(** The [int] fields of an [Err] are in the range of [int64]. *)
Lemma parseErrFields_marshalErrFields (e : Err) (body : list byte) :
  marshalErrFields e = Ok body ->
  - 2 ^ 63 <= ErrorCode e < 2 ^ 63 ->
  - 2 ^ 63 <= HttpStatusCode e < 2 ^ 63 ->
  - 2 ^ 63 <= WsaLastError e < 2 ^ 63 ->
  len body < 2 ^ 31 ->
  parseErrFields body = Ok e.
Proof.
  intros Hm H0 H1 H2 Hlen. unfold marshalErrFields in Hm.
  apply bind_Ok in Hm. destruct Hm as (f0 & M0 & Hm).
  apply bind_Ok in Hm. destruct Hm as (f1 & M1 & Hm).
  apply bind_Ok in Hm. destruct Hm as (f2 & M2 & Hm).
  apply bind_Ok in Hm. destruct Hm as (f3 & M3 & Hm).
  injection Hm as <-.
  rewrite !len_app in Hlen.
  pose proof (len_nonneg f0). pose proof (len_nonneg f1).
  pose proof (len_nonneg f2). pose proof (len_nonneg f3).
  assert (E1 : fieldEncoding 1 f1)
    by (apply (fieldEncoding_marshalInt (tagExplicitOptional 1) 1 _ _ eq_refl eq_refl M1); lia).
  assert (E2 : fieldEncoding 2 f2)
    by (apply (fieldEncoding_marshalInt (tagExplicitOptional 2) 2 _ _ eq_refl eq_refl M2); lia).
  assert (E3 : fieldEncoding 3 f3)
    by (destruct (marshalUint8_inv _ _ _ M3) as (_ & _ & ->); left; reflexivity).
  unfold parseErrFields, tagExplicit, tagExplicitOptional in *.
  rewrite (parseFieldInt_marshalInt false 0 (ErrorCode e) f0 (f1 ++ f2 ++ f3) M0);
    [|assumption|lia|lia
     |solve_noFieldAt].
  cbn [bind].
  rewrite (parseFieldInt_marshalInt true 1 (HttpStatusCode e) f1 (f2 ++ f3) M1);
    [|assumption|lia|lia
     |solve_noFieldAt].
  cbn [bind].
  rewrite (parseFieldInt_marshalInt true 2 (WsaLastError e) f2 f3 M2);
    [|assumption|lia|lia
     |solve_noFieldAt].
  cbn [bind].
  rewrite <- (app_nil_r f3).
  rewrite (parseFieldUint8_marshalUint8 3 (TlsAlertCode e) f3 [] M3)
    by apply noFieldAt_nil.
  cbn [bind]. destruct e. reflexivity.
Qed.

Lemma parseFieldErr_marshalErr (n : Z) (e : Err) (f later : list byte) :
  marshalErr (mkFieldParameters true true (Some n) 0) e = Ok f ->
  - 2 ^ 63 <= ErrorCode e < 2 ^ 63 ->
  - 2 ^ 63 <= HttpStatusCode e < 2 ^ 63 ->
  - 2 ^ 63 <= WsaLastError e < 2 ^ 63 ->
  0 <= n < 31 ->
  len f < 2 ^ 31 ->
  noFieldAt n later ->
  parseFieldErr (mkFieldParameters true true (Some n) 0) (f ++ later)
  = Ok (e, later).
Proof.
  intros Hm H0 H1 H2 Hn Hlen Hlater. unfold marshalErr in Hm.
  cbn [optional explicit tag] in Hm.
  destruct (makeField_explicit_inv _ _ _ _ _ _ _ Hm)
    as [(_ & Hz & ->)|(_ & body & Hb & ->)].
  - apply isZeroErr_true in Hz. subst e. cbn [app].
    apply parseFieldWith_absent, parseFieldHeader_absent. exact Hlater.
  - pose proof (len_makeUniversal_le n TagSequence true body).
    pose proof (len_body_le TagSequence true body).
    unfold parseFieldErr.
    apply parseFieldWith_present with (ut := TagSequence) (body := body).
    + apply parseFieldHeader_makeExplicit with (kt := TagSequence);
        [exact Hn|unfold TagSequence; lia|lia|reflexivity|reflexivity].
    + apply parseErrFields_marshalErrFields; try assumption. lia.
Qed.

Lemma fieldEncoding_marshalErr (params : fieldParameters) (n : Z) (e : Err)
  (f : list byte) :
  explicit params = true -> tag params = Some n ->
  marshalErr params e = Ok f ->
  len f < 2 ^ 31 ->
  fieldEncoding n f.
Proof.
  intros He Ht Hm Hlen. unfold marshalErr in Hm. rewrite He, Ht in Hm.
  apply (fieldEncoding_makeField _ _ _ _ _ _ _ Hm);
    [unfold TagSequence; lia|exact Hlen].
Qed.


(** The fields of a [Pdu], decoded from their encoding. *)
Lemma parsePduFields_marshalPduFields (pdu : Pdu) (body : list byte) :
  marshalPduFields pdu = Ok body ->
  intsInRange pdu ->
  noNilElement (ServerCertChain pdu) ->
  utf8_Valid (list_byte_of_string (ServerAddr pdu)) = true ->
  len body < 2 ^ 31 ->
  parsePduFields parseForeignString body = Ok pdu.
Proof.
  intros Hm (Hv & He0 & He1 & He2) Hnil Hutf Hlen. unfold inInt64 in *.
  unfold marshalPduFields in Hm.
  apply bind_Ok in Hm. destruct Hm as (f0 & M0 & Hm).
  apply bind_Ok in Hm. destruct Hm as (f1 & M1 & Hm).
  apply bind_Ok in Hm. destruct Hm as (f2 & M2 & Hm).
  apply bind_Ok in Hm. destruct Hm as (f3 & M3 & Hm).
  apply bind_Ok in Hm. destruct Hm as (f4 & M4 & Hm).
  apply bind_Ok in Hm. destruct Hm as (f5 & M5 & Hm).
  apply bind_Ok in Hm. destruct Hm as (f6 & M6 & Hm).
  apply bind_Ok in Hm. destruct Hm as (f7 & M7 & Hm).
  apply bind_Ok in Hm. destruct Hm as (f9 & M9 & Hm).
  injection Hm as <-.
  rewrite !len_app in Hlen.
  pose proof (len_nonneg f0). pose proof (len_nonneg f1).
  pose proof (len_nonneg f2). pose proof (len_nonneg f3).
  pose proof (len_nonneg f4). pose proof (len_nonneg f5).
  pose proof (len_nonneg f6). pose proof (len_nonneg f7).
  pose proof (len_nonneg f9).
  unfold tagExplicit, tagExplicitOptional, tagExplicitOptionalUtf8 in *.
  assert (E1 : fieldEncoding 1 f1)
    by (apply (fieldEncoding_marshalErr (tagExplicitOptional 1) 1 _ _ eq_refl eq_refl M1); lia).
  assert (E2 : fieldEncoding 2 f2)
    by (apply (fieldEncoding_marshalString _ _ _ _ _ M2); [left; reflexivity|lia]).
  assert (E3 : fieldEncoding 3 f3)
    by (apply (fieldEncoding_marshalString _ _ _ _ _ M3); [left; reflexivity|lia]).
  assert (E4 : fieldEncoding 4 f4)
    by (apply (fieldEncoding_marshalString _ _ _ _ _ M4); [left; reflexivity|lia]).
  assert (E5 : fieldEncoding 5 f5)
    by (apply (fieldEncoding_marshalString _ _ _ _ _ M5); [left; reflexivity|lia]).
  assert (E6 : fieldEncoding 6 f6)
    by (apply (fieldEncoding_marshalBytes (tagExplicitOptional 6) 6 _ _ eq_refl eq_refl M6); lia).
  assert (E7 : fieldEncoding 7 f7)
    by (apply (fieldEncoding_marshalSliceOfBytes (tagExplicitOptional 7) 7 _ _ eq_refl eq_refl M7); lia).
  assert (E9 : fieldEncoding 9 f9)
    by (apply (fieldEncoding_marshalString _ _ _ _ _ M9); [right; reflexivity|lia]).
  unfold parsePduFields, tagExplicit, tagExplicitOptional, tagExplicitOptionalUtf8.
  rewrite (parseFieldInt_marshalInt false 0 _ f0 _ M0);
    [|assumption|lia|lia|solve_noFieldAt].
  cbn [bind].
  rewrite (parseFieldErr_marshalErr 1 _ f1 _ M1);
    [|assumption|assumption|assumption|lia|lia|solve_noFieldAt].
  cbn [bind].
  rewrite (parseFieldString_marshalString true 2 0 _ f2 _ M2);
    [|left; reflexivity|lia|lia|solve_noFieldAt].
  cbn [bind].
  rewrite (parseFieldString_marshalString true 3 0 _ f3 _ M3);
    [|left; reflexivity|lia|lia|solve_noFieldAt].
  cbn [bind].
  rewrite (parseFieldString_marshalString true 4 0 _ f4 _ M4);
    [|left; reflexivity|lia|lia|solve_noFieldAt].
  cbn [bind].
  rewrite (parseFieldString_marshalString true 5 0 _ f5 _ M5);
    [|left; reflexivity|lia|lia|solve_noFieldAt].
  cbn [bind].
  rewrite (parseFieldBytes_marshalBytes true 6 _ f6 _ M6);
    [|lia|lia|solve_noFieldAt|discriminate].
  cbn [bind].
  rewrite (parseFieldSliceOfBytes_marshalSliceOfBytes 7 _ f7 _ M7);
    [|lia|lia|solve_noFieldAt].
  rewrite (noNilElement_decoded _ Hnil).
  cbn [bind].
  rewrite <- (app_nil_r f9).
  rewrite (parseFieldString_marshalString true 9 TagUTF8String _ f9 [] M9);
    [|right; split; [reflexivity|exact Hutf]|lia|lia|apply noFieldAt_nil].
  cbn [bind]. destruct pdu. reflexivity.
Qed.

(** The outermost value: [asn1.Unmarshal] reads one tag and length, decodes
    the contents they delimit, and returns what follows. *)
Lemma asn1_Unmarshal_inv (b : list byte) (pdu : Pdu) (rest : list byte) :
  asn1_Unmarshal parseForeignString b = Ok (pdu, rest) ->
  exists t rest0,
    parseTagAndLength b = Ok (t, rest0)
    /\ t_class t = ClassUniversal /\ t_tag t = TagSequence
    /\ t_isCompound t = true
    /\ t_length t <= len rest0
    /\ parsePduFields parseForeignString (firstn (Z.to_nat (t_length t)) rest0)
       = Ok pdu
    /\ rest = skipn (Z.to_nat (t_length t)) rest0.
Proof.
  unfold asn1_Unmarshal, parseFieldWith. intros H.
  apply bind_Ok in H. destruct H as ([r rest'] & Hh & Hk).
  unfold parseFieldHeader in Hh.
  destruct (atEnd b); [discriminate Hh|].
  apply bind_Ok in Hh. destruct Hh as ([t rest0] & Ht & Hh).
  exists t, rest0. split; [exact Ht|].
  cbn [noParameters explicit tag optional stringType setDefaultValue bind
       getUniversalType] in Hh.
  change (TagSequence =? TagPrintableString) with false in Hh. cbv iota in Hh.
  destruct (Z.eqb_spec (t_class t) ClassUniversal) as [Hc|Hc];
    [|discriminate Hh].
  destruct (Z.eqb_spec (t_tag t) TagSequence) as [Hg|Hg]; [|discriminate Hh].
  cbn [andb negb orb] in Hh.
  destruct (t_isCompound t) eqn:Hcomp; [|discriminate Hh].
  cbn [Bool.eqb negb] in Hh.
  destruct (Z.ltb_spec (len rest0) (t_length t)) as [Hlt|Hge];
    [discriminate Hh|].
  injection Hh as <- <-.
  apply bind_Ok in Hk. destruct Hk as (pdu' & Hp & Hk).
  injection Hk as <- <-. auto 10.
Qed.

Lemma asn1_Unmarshal_intro (b : list byte) t rest0 pdu :
  parseTagAndLength b = Ok (t, rest0) ->
  t_class t = ClassUniversal -> t_tag t = TagSequence ->
  t_isCompound t = true ->
  t_length t <= len rest0 ->
  parsePduFields parseForeignString (firstn (Z.to_nat (t_length t)) rest0)
  = Ok pdu ->
  asn1_Unmarshal parseForeignString b
  = Ok (pdu, skipn (Z.to_nat (t_length t)) rest0).
Proof.
  intros Ht Hc Hg Hcomp Hle Hp.
  unfold asn1_Unmarshal, parseFieldWith, parseFieldHeader.
  destruct b as [|b0 b']; [discriminate Ht|]. cbn [atEnd].
  rewrite Ht.
  cbn [noParameters explicit tag optional stringType setDefaultValue bind
       getUniversalType].
  change (TagSequence =? TagPrintableString) with false. cbv iota.
  rewrite Hc, Hg, Hcomp. rewrite !Z.eqb_refl. cbn [andb negb orb Bool.eqb].
  replace (len rest0 <? t_length t) with false
    by (symmetry; apply Z.ltb_ge; exact Hle).
  cbn [bind]. rewrite Hp. reflexivity.
Qed.

(** X3. A buffer that holds one structure [Unmarshal] accepts, followed by
    one or more extra bytes, is refused with the trailing-data error, which
    reports the number of extra bytes; the structure is not returned. *)
Theorem Unmarshal_trailing_data (b extra : list byte) (pdu : Pdu) :
  Unmarshal parseForeignString b = Ok pdu ->
  extra <> [] ->
  Unmarshal parseForeignString (b ++ extra)
  = Fail (Errorf "trailing data after PDU: %d bytes" [len extra]).
Proof.
  unfold Unmarshal. intros H Hextra.
  apply bind_Ok in H. destruct H as ([pdu' rest] & Hu & Hk).
  destruct (Z.ltb_spec 0 (len rest)) as [Hpos|Hz]; [discriminate Hk|].
  injection Hk as ->.
  destruct (asn1_Unmarshal_inv b pdu rest Hu)
    as (t & rest0 & Ht & Hc & Hg & Hcomp & Hle & Hp & Hrest).
  assert (Hlen : Z.to_nat (t_length t) = length rest0).
  { unfold len in *. apply (f_equal (@length byte)) in Hrest.
    rewrite length_skipn in Hrest. lia. }
  rewrite (asn1_Unmarshal_intro (b ++ extra) t (rest0 ++ extra) pdu).
  - cbn [bind]. rewrite Hlen, skipn_app, Nat.sub_diag, skipn_all. cbn [app skipn].
    destruct extra as [|x extra]; [contradiction|].
    replace (0 <? len (x :: extra)) with true; [reflexivity|].
    symmetry. apply Z.ltb_lt. unfold len. cbn [length]. lia.
  - apply parseTagAndLength_app. exact Ht.
  - exact Hc.
  - exact Hg.
  - exact Hcomp.
  - unfold len in *. rewrite length_app. lia.
  - rewrite Hlen, firstn_app, Nat.sub_diag, firstn_O, app_nil_r.
    rewrite Hlen in Hp. exact Hp.
Qed.


Lemma Marshal_inv (pdu : Pdu) (b : list byte) :
  Marshal pdu = Ok b ->
  exists body,
    marshalPduFields pdu = Ok body /\ b = makeUniversal TagSequence true body.
Proof.
  unfold Marshal, asn1_Marshal, makeField. cbn [andb].
  intros H. apply bind_Ok in H. destruct H as (body & Hb & [= <-]).
  exists body. auto.
Qed.

Lemma asn1_Unmarshal_Marshal (pdu : Pdu) (b : list byte) :
  Marshal pdu = Ok b ->
  intsInRange pdu ->
  noNilElement (ServerCertChain pdu) ->
  utf8_Valid (list_byte_of_string (ServerAddr pdu)) = true ->
  len b < 2 ^ 31 ->
  asn1_Unmarshal parseForeignString b = Ok (pdu, []).
Proof.
  intros Hm Hints Hnil Hutf Hlen.
  destruct (Marshal_inv pdu b Hm) as (body & Hb & ->).
  pose proof (len_body_le TagSequence true body).
  unfold asn1_Unmarshal.
  rewrite <- (app_nil_r (makeUniversal TagSequence true body)).
  apply parseFieldWith_present with (ut := TagSequence) (body := body).
  - apply parseFieldHeader_makeUniversal with (kt := TagSequence);
      [unfold TagSequence; lia|lia|reflexivity|reflexivity].
  - apply parsePduFields_marshalPduFields; try assumption. lia.
Qed.

Lemma Unmarshal_Marshal_helper (pdu : Pdu) (b : list byte) :
  Marshal pdu = Ok b ->
  intsInRange pdu ->
  noNilElement (ServerCertChain pdu) ->
  utf8_Valid (list_byte_of_string (ServerAddr pdu)) = true ->
  len b < 2 ^ 31 ->
  Unmarshal parseForeignString b = Ok pdu.
Proof.
  intros Hm Hints Hnil Hutf Hlen. unfold Unmarshal.
  rewrite (asn1_Unmarshal_Marshal pdu b Hm Hints Hnil Hutf Hlen). reflexivity.
Qed.

(** X1. Round trip.  A [Pdu] whose [int] fields are Go [int]s, whose
    certificate chain has no nil element, whose [ServerAddr] is valid UTF-8
    and whose encoding is shorter than 2^31 bytes: [Unmarshal] of what
    [Marshal] returns gives the same structure, with [X224ConnectionPdu]
    and [ServerCertChain] nil, empty or not as they were and the chain in
    its order.  (A nil element of the chain is written like an empty one
    and is read back as a slice that is not nil,
    [parseFieldSliceOfBytes_marshalSliceOfBytes].) *)
Theorem Unmarshal_Marshal (pdu : Pdu) (b : list byte) :
  Marshal pdu = Ok b ->
  intsInRange pdu ->
  noNilElement (ServerCertChain pdu) ->
  utf8_Valid (list_byte_of_string (ServerAddr pdu)) = true ->
  len b < 2 ^ 31 ->
  Unmarshal parseForeignString b = Ok pdu.
Proof.
  intros Hm Hints Hnil Hutf Hlen. unfold Unmarshal.
  rewrite (asn1_Unmarshal_Marshal pdu b Hm Hints Hnil Hutf Hlen).
  reflexivity.
Qed.

(** [Marshal] does not tell a nil element of the chain from an empty one:
    the structure in which each element is the slice the decoder makes of
    its bytes has the same encoding. *)
Lemma Marshal_nil_element (pdu : Pdu) :
  Marshal (mkPdu (Version pdu) (Error pdu) (Destination pdu) (ProxyAuth pdu)
                 (ServerAuth pdu) (PreconnectionBlob pdu)
                 (X224ConnectionPdu pdu)
                 (option_map (map (fun el => Some (sliceBytes el)))
                             (ServerCertChain pdu))
                 (ServerAddr pdu))
  = Marshal pdu.
Proof.
  unfold Marshal, asn1_Marshal, marshalPduFields.
  cbn [Version Error Destination ProxyAuth ServerAuth PreconnectionBlob
       X224ConnectionPdu ServerCertChain ServerAddr].
  replace (marshalSliceOfBytes (tagExplicitOptional 7)
             (option_map (map (fun el => Some (sliceBytes el)))
                         (ServerCertChain pdu)))
    with (marshalSliceOfBytes (tagExplicitOptional 7) (ServerCertChain pdu));
    [reflexivity|].
  unfold marshalSliceOfBytes.
  destruct (ServerCertChain pdu) as [els|]; [|reflexivity].
  cbn [option_map].
  rewrite (map_map (fun el => Some (sliceBytes el)) sliceBytes). reflexivity.
Qed.

(** X2. No two structures of the round trip share an encoding: [Marshal] is
    injective on the structures whose [int] fields are Go [int]s, whose
    certificate chain has no nil element and whose [ServerAddr] is valid
    UTF-8.  (Without the condition on the chain it is not: a nil element
    and an empty one are written alike, [Marshal_nil_element].) *)
Theorem Marshal_injective (pdu1 pdu2 : Pdu) (b : list byte) :
  Marshal pdu1 = Ok b ->
  Marshal pdu2 = Ok b ->
  intsInRange pdu1 -> intsInRange pdu2 ->
  noNilElement (ServerCertChain pdu1) -> noNilElement (ServerCertChain pdu2) ->
  utf8_Valid (list_byte_of_string (ServerAddr pdu1)) = true ->
  utf8_Valid (list_byte_of_string (ServerAddr pdu2)) = true ->
  len b < 2 ^ 31 ->
  pdu1 = pdu2.
Proof.
  intros M1 M2 I1 I2 N1 N2 U1 U2 Hlen.
  pose proof (asn1_Unmarshal_Marshal pdu1 b M1 I1 N1 U1 Hlen) as E1.
  pose proof (asn1_Unmarshal_Marshal pdu2 b M2 I2 N2 U2 Hlen) as E2.
  rewrite E1 in E2. injection E2 as ->. reflexivity.
Qed.

Lemma marshalString_utf8_Ok (n : Z) (s : string) :
  exists f, marshalString (tagExplicitOptionalUtf8 n) s = Ok f.
Proof.
  unfold marshalString, tagExplicitOptionalUtf8.
  cbn [optional explicit tag stringType].
  destruct (list_byte_of_string s) as [|b bs]; cbn [andb]; [eauto|].
  change (TagUTF8String =? 0) with false. cbv iota. cbn [bind].
  unfold makeField. cbn [andb bind]. eauto.
Qed.

Lemma Marshal_NewResp_Ok (serverAddr : string) (x224Pdu : option (list byte))
  (x509Chain : option (list (option (list byte)))) :
  exists b,
    Marshal (mkPdu 3390 zeroErr EmptyString EmptyString EmptyString EmptyString
                   x224Pdu x509Chain serverAddr) = Ok b.
Proof.
  destruct (marshalString_utf8_Ok 9 serverAddr) as (f9 & M9).
  unfold Marshal, asn1_Marshal, marshalPduFields.
  cbn [Version Error Destination ProxyAuth ServerAuth PreconnectionBlob
       X224ConnectionPdu ServerCertChain ServerAddr].
  rewrite M9.
  unfold marshalInt, marshalErr, marshalString, marshalBytes,
    marshalSliceOfBytes, makeField, tagExplicit, tagExplicitOptional.
  cbn [optional explicit tag stringType andb bind isZeroErr zeroErr
       ErrorCode HttpStatusCode WsaLastError TlsAlertCode Z.eqb
       list_byte_of_string list_ascii_of_string map].
  destruct x224Pdu, x509Chain; cbn [andb bind]; eauto.
Qed.

(** X4. [NewResp] and [Marshal]: the response [NewResp] builds has version 3390
    (3389 + 1), the three values it was given and nothing else, and
    [Marshal] encodes it whatever these values are; when no element of the
    chain is nil, the server address is valid UTF-8 and the encoding is
    shorter than 2^31 bytes, [Unmarshal] gives the response back. *)
Theorem NewResp_Marshal (serverAddr : string) (x224Pdu : option (list byte))
  (x509Chain : option (list (option (list byte)))) :
  exists pdu b,
    NewResp serverAddr x224Pdu x509Chain = Ok pdu
    /\ pdu = mkPdu 3390 zeroErr EmptyString EmptyString EmptyString EmptyString
                   x224Pdu x509Chain serverAddr
    /\ Marshal pdu = Ok b
    /\ (noNilElement x509Chain ->
        utf8_Valid (list_byte_of_string serverAddr) = true ->
        len b < 2 ^ 31 ->
        Unmarshal parseForeignString b = Ok pdu).
Proof.
  destruct (Marshal_NewResp_Ok serverAddr x224Pdu x509Chain) as (b & HM).
  eexists. exists b. split; [reflexivity|]. split; [reflexivity|].
  split; [exact HM|].
  intros Hnil Hutf Hlen. apply Unmarshal_Marshal_helper; try assumption.
  repeat split; cbn; lia.
Qed.


Lemma marshalInt_Ok (params : fieldParameters) (v : Z) :
  exists f, marshalInt params v = Ok f.
Proof.
  unfold marshalInt, makeField.
  destruct (optional params && (v =? 0)); [eauto|]. cbn [bind].
  destruct (tag params); [destruct (explicit params)|]; eauto.
Qed.

(** X5. [Err.TlsAlertCode] is a [uint8], a type [encoding/asn1] does not encode:
    [Marshal] fails on every [Pdu] whose [Error] carries an alert code other
    than 0, whatever the other fields hold. *)
Theorem Marshal_TlsAlertCode (pdu : Pdu) :
  TlsAlertCode (Error pdu) <> 0 ->
  Marshal pdu = Fail (asn1_StructuralError "unknown Go type: uint8").
Proof.
  intros Htls. unfold Marshal, asn1_Marshal, makeField. cbn [andb].
  unfold marshalPduFields.
  destruct (marshalInt_Ok (tagExplicit 0) (Version pdu)) as (f0 & ->).
  cbn [bind].
  assert (HE : marshalErr (tagExplicitOptional 1) (Error pdu)
               = Fail (asn1_StructuralError "unknown Go type: uint8")).
  { unfold marshalErr, makeField, tagExplicitOptional.
    cbn [optional explicit tag andb].
    assert (Hz : isZeroErr (Error pdu) = false).
    { unfold isZeroErr.
      replace (TlsAlertCode (Error pdu) =? 0) with false
        by (symmetry; apply Z.eqb_neq; exact Htls).
      apply Bool.andb_false_r. }
    rewrite Hz. unfold marshalErrFields.
    destruct (marshalInt_Ok (tagExplicit 0) (ErrorCode (Error pdu))) as (e0 & ->).
    destruct (marshalInt_Ok (mkFieldParameters true true (Some 1) 0)
                (HttpStatusCode (Error pdu))) as (e1 & E1).
    destruct (marshalInt_Ok (mkFieldParameters true true (Some 2) 0)
                (WsaLastError (Error pdu))) as (e2 & E2).
    unfold tagExplicitOptional. rewrite E1, E2. cbn [bind].
    unfold marshalUint8. cbn [optional andb].
    replace (TlsAlertCode (Error pdu) =? 0) with false
      by (symmetry; apply Z.eqb_neq; exact Htls).
    reflexivity. }
  rewrite HE. reflexivity.
Qed.

(** *** The header of a buffer [Unmarshal] accepts *)

Lemma Unmarshal_Ok_header (b : list byte) (pdu : Pdu) :
  Unmarshal parseForeignString b = Ok pdu ->
  exists t rest0,
    parseTagAndLength b = Ok (t, rest0)
    /\ t_class t = ClassUniversal /\ t_tag t = TagSequence
    /\ t_isCompound t = true
    /\ Z.to_nat (t_length t) = length rest0.
Proof.
  unfold Unmarshal. intros H.
  apply bind_Ok in H. destruct H as ([pdu' rest] & Hu & Hk).
  destruct (Z.ltb_spec 0 (len rest)) as [Hpos|Hz]; [discriminate Hk|].
  destruct (asn1_Unmarshal_inv b pdu' rest Hu)
    as (t & rest0 & Ht & Hc & Hg & Hcomp & Hle & Hp & Hrest).
  exists t, rest0. repeat split; try assumption.
  unfold len in *. apply (f_equal (@length byte)) in Hrest.
  rewrite length_skipn in Hrest. lia.
Qed.

Lemma Unmarshal_Ok_shape (b : list byte) (pdu : Pdu) :
  Unmarshal parseForeignString b = Ok pdu ->
  exists a tl,
    b = x30 :: a :: tl
    /\ ((Z.land (b2z a) 128 = 0 /\ len tl = b2z a)
        \/ (Z.land (b2z a) 128 <> 0
            /\ exists L rest0,
                 128 <= L
                 /\ parseLength_loop (Z.to_nat (Z.land (b2z a) 127)) tl 0
                    = Ok (L, rest0)
                 /\ len rest0 = L)).
Proof.
  intros H.
  destruct (Unmarshal_Ok_header b pdu H) as (t & rest0 & Ht & Hc & Hg & Hcomp & Hlen).
  destruct (parseTagAndLength_Sequence_inv b t rest0 Ht Hc Hg Hcomp)
    as (a & tl & -> & [(Ha & HL & ->)|(Ha & HL & HP)]).
  - exists a, tl. split; [reflexivity|]. left. split; [exact Ha|].
    pose proof (b2z_range a). unfold len. lia.
  - exists a, tl. split; [reflexivity|]. right. split; [exact Ha|].
    exists (t_length t), rest0. repeat split; try assumption. unfold len. lia.
Qed.

(** Of the prefixes of a buffer at most one is accepted by [Unmarshal]. *)
Lemma Unmarshal_prefix_unique (f x : list byte) (p p' : Pdu) :
  Unmarshal parseForeignString f = Ok p ->
  Unmarshal parseForeignString (f ++ x) = Ok p' ->
  x = [].
Proof.
  intros H1 H2.
  destruct (Unmarshal_Ok_header f p H1) as (t & rest0 & Ht & _ & _ & _ & Hlen).
  destruct (Unmarshal_Ok_header (f ++ x) p' H2)
    as (t' & rest0' & Ht' & _ & _ & _ & Hlen').
  rewrite (parseTagAndLength_app f x t rest0 Ht) in Ht'.
  injection Ht' as <- <-.
  rewrite length_app in Hlen'.
  destruct x as [|c x]; [reflexivity|]. cbn [length] in Hlen'. lia.
Qed.

End Codec.

Lemma Unmarshal_trailing_data_witness :
  Unmarshal refuseForeignString
    ([x30; x0a; xa0; x04; x02; x02; x0d; x3e; xa6; x02; x04; x00] ++ [x00])
  = Fail (Errorf "trailing data after PDU: %d bytes" [len [x00]]).
Proof.
  apply (Unmarshal_trailing_data refuseForeignString
           [x30; x0a; xa0; x04; x02; x02; x0d; x3e; xa6; x02; x04; x00] [x00]
           (mkPdu 3390 zeroErr EmptyString EmptyString EmptyString EmptyString
                  (Some []) None EmptyString)).
  - vm_compute. reflexivity.
  - discriminate.
Defined.

Lemma Unmarshal_Marshal_witness :
  exists b,
    Marshal (mkPdu 3390 zeroErr EmptyString EmptyString EmptyString EmptyString
                   (Some [x01; x02; x03])
                   (Some [Some [xaa]; Some []; Some [xbb; xcc]])
                   "1.2.3.4:3389") = Ok b
    /\ Unmarshal refuseForeignString b
       = Ok (mkPdu 3390 zeroErr EmptyString EmptyString EmptyString EmptyString
                   (Some [x01; x02; x03])
                   (Some [Some [xaa]; Some []; Some [xbb; xcc]])
                   "1.2.3.4:3389").
Proof.
  eexists. split; [vm_compute; reflexivity|].
  apply (Unmarshal_Marshal refuseForeignString).
  - vm_compute. reflexivity.
  - repeat split; cbn; lia.
  - cbn. repeat constructor; discriminate.
  - reflexivity.
  - vm_compute. reflexivity.
Defined.

Lemma Marshal_injective_witness :
  mkPdu 1 zeroErr "host:3389" EmptyString EmptyString EmptyString
        (Some []) None EmptyString
  = mkPdu 1 zeroErr "host:3389" EmptyString EmptyString EmptyString
          (Some []) None EmptyString.
Proof.
  eapply (Marshal_injective refuseForeignString).
  - vm_compute. reflexivity.
  - vm_compute. reflexivity.
  - repeat split; cbn; lia.
  - repeat split; cbn; lia.
  - exact I.
  - exact I.
  - reflexivity.
  - reflexivity.
  - vm_compute. reflexivity.
Defined.

Lemma Marshal_TlsAlertCode_witness :
  Marshal (mkPdu 3390 (mkErr 1 0 0 40) EmptyString EmptyString EmptyString
                 EmptyString None None EmptyString)
  = Fail (asn1_StructuralError "unknown Go type: uint8").
Proof.
  apply Marshal_TlsAlertCode. cbn. discriminate.
Defined.

Lemma NewResp_Marshal_witness :
  exists pdu b,
    NewResp "1.2.3.4:3389" (Some [x03; x00; x00; x05; x01])
            (Some [Some [xaa]; Some [xbb; xcc]])
      = Ok pdu
    /\ Marshal pdu = Ok b
    /\ Unmarshal refuseForeignString b = Ok pdu.
Proof.
  destruct (NewResp_Marshal refuseForeignString "1.2.3.4:3389"
              (Some [x03; x00; x00; x05; x01])
              (Some [Some [xaa]; Some [xbb; xcc]]))
    as (pdu & b & HN & Hpdu & HM & HU).
  exists pdu, b. split; [exact HN|]. split; [exact HM|].
  apply HU.
  - cbn. repeat constructor; discriminate.
  - reflexivity.
  - subst pdu. vm_compute in HM. injection HM as <-. vm_compute. reflexivity.
Defined.

End rdcleanpath_props.

(** ** Package proxy: the WebSocket adapter *)

Module proxy_props.
Import proxy.

(** C10. [Write] of the WebSocket adapter returns [len(p)] as the number of
    bytes written whatever [WriteMessage] returns, and passes the error of
    [WriteMessage] on: when the underlying write fails, the caller gets the
    full length together with the error. *)
Theorem Write_full_count_with_error :
  forall (Conn : Type)
         (WriteMessage : Conn -> Z -> list byte -> option error * Conn)
         (w : wsReadWriteCloser Conn) (p : list byte),
    fst (fst (Write Conn WriteMessage w p)) = Z.of_nat (length p)
    /\ snd (fst (Write Conn WriteMessage w p)) =
         fst (WriteMessage (ws Conn w) BinaryMessage p)
    /\ forall e : error,
         fst (WriteMessage (ws Conn w) BinaryMessage p) = Some e ->
         exists w',
           Write Conn WriteMessage w p = (Z.of_nat (length p), Some e, w').
Proof.
  intros Conn WriteMessage w p. unfold Write.
  destruct (WriteMessage (ws Conn w) BinaryMessage p) as [e' ws'] eqn:E.
  cbn [fst snd]. split; [reflexivity|]. split; [reflexivity|].
  intros e ->. eexists. reflexivity.
Qed.

Lemma Write_full_count_with_error_witness :
  exists w',
    Write bool flagWriteMessage
          (mkWsReadWriteCloser bool true (mkReader [] io_EOF)) [x01; x02; x03] =
    (3, Some (Errorf "websocket: close sent" []), w').
Proof.
  exact (proj2 (proj2 (Write_full_count_with_error bool flagWriteMessage
                         (mkWsReadWriteCloser bool true (mkReader [] io_EOF))
                         [x01; x02; x03]))
               (Errorf "websocket: close sent" []) eq_refl).
Defined.

(** ** [Handle]: reading the request, writing the response *)

Lemma longForm_cases (n : Z) (b : byte) (payload : list byte) (L : Z)
  (rest0 : list byte) :
  0 <= n < 128 ->
  128 <= L ->
  asn1.parseLength_loop (Z.to_nat n) (b :: payload) 0 = Ok (L, rest0) ->
  Z.of_nat (length rest0) = L ->
  (n = 1 /\ L = b2z b /\ payload = rest0)
  \/ (n = 2 /\ exists c, payload = c :: rest0 /\ L = 256 * b2z b + b2z c
                         /\ 0 < b2z b)
  \/ (3 <= n /\ 65536 <= L /\ L <= Z.of_nat (length payload)).
Proof.
  intros Hn HL HP Hlen.
  destruct (Z.to_nat n) as [|[|[|m]]] eqn:En.
  - cbn [asn1.parseLength_loop] in HP. injection HP as <- _. lia.
  - left.
    destruct (asn1_props.parseLength_loop_S 0 _ 0 L rest0 HP ltac:(lia))
      as (b' & tl & [= <- <-] & Hpos & Hk).
    cbn [asn1.parseLength_loop] in Hk. injection Hk as <- <-.
    repeat split; lia.
  - right. left.
    destruct (asn1_props.parseLength_loop_S 1 _ 0 L rest0 HP ltac:(lia))
      as (b' & tl & [= <- <-] & Hpos & Hk).
    destruct (asn1_props.parseLength_loop_S 0 _ _ L rest0 Hk ltac:(lia))
      as (c & tl' & -> & Hpos' & Hk').
    cbn [asn1.parseLength_loop] in Hk'. injection Hk' as <- <-.
    split; [lia|]. exists c. repeat split; lia.
  - right. right.
    destruct (asn1_props.parseLength_loop_S (S (S m)) _ 0 L rest0 HP ltac:(lia))
      as (b' & tl & [= <- <-] & Hpos & Hk).
    destruct (asn1_props.parseLength_loop_S (S m) _ _ L rest0 Hk ltac:(lia))
      as (c & tl' & -> & Hpos' & Hk').
    destruct (asn1_props.parseLength_loop_S m _ _ L rest0 Hk' ltac:(lia))
      as (d & tl'' & -> & Hpos'' & Hk'').
    pose proof (b2z_range b) as Hb. pose proof (b2z_range c) as Hc.
    pose proof (b2z_range d) as Hd.
    destruct (asn1_props.parseLength_loop_lower m _ _ L rest0 Hk'' ltac:(lia))
      as [Hle Hl].
    unfold asn1.len in Hl. cbn [length]. lia.
Qed.

Section HandleBlocks.

Variable Conn : Type.
Variable WriteMessage : Conn -> Z -> list byte -> option error * Conn.
Variable parseForeignString : Z -> list byte -> result string.

(** A frame of [ReadFrame] that [Unmarshal] accepts is a Fast-Path frame
    whose two readings of the length bytes agree: the DER length after the
    SEQUENCE tag [0x30], and the Fast-Path payload length taken from the
    same bytes. *)
Lemma ReadFrame_Unmarshal_size (r0 r0' : Reader) (f : list byte)
  (act : tpkt.Action) (pdu : rdcleanpath.Pdu) :
  tpkt.ReadFrame r0 = (Ok (f, act), r0') ->
  rdcleanpath.Unmarshal parseForeignString f = Ok pdu ->
  (length f < 130)%nat \/ length f = 517%nat.
Proof.
  intros E U.
  destruct (tpkt_props.ReadFrame_Ok_inv r0 r0' f act E) as (_ & _ & Shape).
  destruct (rdcleanpath_props.Unmarshal_Ok_shape parseForeignString f pdu U)
    as (a' & tl' & Hf & Hcase).
  destruct Shape as [(b0 & a & payload & -> & H0 & Ha & Hlen & _)
                    |[(b0 & a & b & payload & -> & H0 & Ha & Hlen & _)
                     |(b0 & b1 & hi & lo & payload & -> & H0 & _)]].
  - left. pose proof (tpkt_props.land128_zero a Ha). cbn [length]. lia.
  - injection Hf as -> <- <-.
    destruct Hcase as [(Ha' & _)|(_ & L & rest0 & HL & HP & HLen)];
      [contradiction|].
    pose proof (tpkt_props.land127_range a) as Hn.
    pose proof (b2z_range b) as Hb.
    rewrite (lor_shiftl8 _ _ Hb) in Hlen.
    unfold asn1.len in HLen.
    destruct (longForm_cases _ b payload L rest0 Hn HL HP HLen)
      as [(En & EL & Ep)|[(En & c & Ep & EL & Hpos)|(En & EL & Hle)]].
    + subst payload. lia.
    + subst payload. pose proof (b2z_range c) as Hc.
      cbn [length] in Hlen |- *. right. lia.
    + lia.
  - injection Hf as -> _ _. vm_compute in H0. discriminate H0.
Qed.

Lemma ReadFrame_delivers_PDU (r0 : Reader) (b rest : list byte)
  (pdu : rdcleanpath.Pdu) :
  rdcleanpath.Unmarshal parseForeignString b = Ok pdu ->
  (length b < 130)%nat \/ length b = 517%nat ->
  pending r0 = b ++ rest ->
  exists r0',
    tpkt.ReadFrame r0 = (Ok (b, tpkt.ActionFastPath), r0')
    /\ pending r0' = rest /\ final r0' = final r0.
Proof.
  intros U Hsize Hp.
  destruct (rdcleanpath_props.Unmarshal_Ok_shape parseForeignString b pdu U)
    as (a & tl & -> & [(Ha & Hlen)|(Ha & L & rest0 & HL & HP & HLen)]).
  - apply tpkt_props.ReadFrame_FastPath7; [exact Hp|reflexivity|exact Ha|exact Hlen].
  - pose proof (tpkt_props.land127_range a) as Hn.
    unfold asn1.len in HLen.
    destruct tl as [|b1 payload].
    { destruct (Z.to_nat (Z.land (b2z a) 127)) as [|m] eqn:En.
      - cbn [asn1.parseLength_loop] in HP. injection HP as <- _. lia.
      - cbn [asn1.parseLength_loop] in HP. discriminate HP. }
    pose proof (b2z_range b1) as Hb.
    destruct (longForm_cases _ b1 payload L rest0 Hn HL HP HLen)
      as [(En & EL & Ep)|[(En & c & Ep & EL & Hpos)|(En & EL & Hle)]].
    + subst payload. cbn [length] in Hsize. lia.
    + subst payload. pose proof (b2z_range c) as Hc.
      cbn [length] in Hsize.
      apply tpkt_props.ReadFrame_FastPath15;
        [exact Hp|reflexivity|exact Ha|].
      rewrite (lor_shiftl8 _ _ Hb). cbn [length]. lia.
    + cbn [length] in Hsize. lia.
Qed.

(** X12. When the first block of [Handle] succeeds, the request it decoded was
    read as one Fast-Path frame, and it was shorter than 130 bytes or
    exactly 517 bytes long: [ReadFrame] takes the DER length bytes after
    the tag [0x30] for a Fast-Path length, and only for a DER length in the
    short form, or the length [82 02 01], does it stop where the request
    ends. *)
Theorem Handle_cleanPathReq_size (w w' : wsReadWriteCloser Conn)
  (pdu : rdcleanpath.Pdu) :
  Handle_cleanPathReq Conn parseForeignString w = (inr pdu, w') ->
  exists frame,
    pending (r Conn w) = frame ++ pending (r Conn w')
    /\ rdcleanpath.Unmarshal parseForeignString frame = Ok pdu
    /\ ((length frame < 130)%nat \/ length frame = 517%nat).
Proof.
  unfold Handle_cleanPathReq.
  destruct (tpkt.ReadFrame (r Conn w)) as [[[f act]|e] r'] eqn:E; [|discriminate].
  destruct (rdcleanpath.Unmarshal parseForeignString f) as [p|e] eqn:U;
    [|discriminate].
  intros [= <- <-]. exists f. cbn [r].
  destruct (tpkt_props.ReadFrame_Ok_inv _ _ _ _ E) as (P & _ & _).
  split; [exact P|]. split; [exact U|].
  exact (ReadFrame_Unmarshal_size _ _ _ _ _ E U).
Qed.

(** X13. A request that [Unmarshal] accepts and that is shorter than 130 bytes
    (or 517 bytes long) is read by the first block of [Handle] from every
    stream that begins with it: the block returns the decoded request and
    leaves what follows it unread. *)
Theorem Handle_cleanPathReq_short (w : wsReadWriteCloser Conn)
  (b rest : list byte) (pdu : rdcleanpath.Pdu) :
  rdcleanpath.Unmarshal parseForeignString b = Ok pdu ->
  (length b < 130)%nat \/ length b = 517%nat ->
  pending (r Conn w) = b ++ rest ->
  exists w',
    Handle_cleanPathReq Conn parseForeignString w = (inr pdu, w')
    /\ pending (r Conn w') = rest.
Proof.
  intros U Hsize Hp.
  destruct (ReadFrame_delivers_PDU (r Conn w) b rest pdu U Hsize Hp)
    as (r' & E & P & _).
  unfold Handle_cleanPathReq. rewrite E, U.
  eexists. split; [reflexivity|]. cbn [r]. exact P.
Qed.

(** X14. A request that [Unmarshal] accepts and that is 130 bytes long or
    longer (517 bytes apart) is never returned by the first block of
    [Handle]: on no stream that begins with it, whatever follows, does the
    block come back with a decoded request, this one or another.
    [ReadFrame] takes the length bytes of the request for a Fast-Path
    length, so the frame it asks for is not the request. *)
Theorem Handle_cleanPathReq_long (w : wsReadWriteCloser Conn)
  (b rest : list byte) (pdu : rdcleanpath.Pdu) :
  rdcleanpath.Unmarshal parseForeignString b = Ok pdu ->
  (130 <= length b)%nat ->
  length b <> 517%nat ->
  pending (r Conn w) = b ++ rest ->
  forall (pdu' : rdcleanpath.Pdu) (w' : wsReadWriteCloser Conn),
    Handle_cleanPathReq Conn parseForeignString w <> (inr pdu', w').
Proof.
  intros U Hge Hne Hp pdu' w'. unfold Handle_cleanPathReq.
  destruct (tpkt.ReadFrame (r Conn w)) as [[[f act]|e] r'] eqn:E;
    [|discriminate].
  destruct (rdcleanpath.Unmarshal parseForeignString f) as [p|e] eqn:Uf;
    [|discriminate].
  intros _.
  destruct (tpkt_props.ReadFrame_Ok_inv _ _ _ _ E) as (P & _ & _).
  rewrite Hp in P.
  assert (Hfb : f = b).
  { destruct (app_eq_app _ _ _ _ P) as (x & [[Hb Hr]|[Hf Hr]]).
    - subst b.
      rewrite (rdcleanpath_props.Unmarshal_prefix_unique
                 parseForeignString f x p pdu Uf U).
      symmetry. apply app_nil_r.
    - subst f.
      rewrite (rdcleanpath_props.Unmarshal_prefix_unique
                 parseForeignString b x pdu p U Uf).
      apply app_nil_r. }
  subst f.
  destruct (ReadFrame_Unmarshal_size _ _ _ _ _ E Uf); lia.
Qed.

(** X15. The block of [Handle] that answers the client fails only when the write
    to the WebSocket fails: [NewResp] and [Marshal] never return an error
    there, and the one message written is the DER encoding of the response
    with version 3390, the frame of the server, the certificate chain and
    the address of the server. *)
Theorem Handle_cleanPathResp_write (w : wsReadWriteCloser Conn)
  (remoteAddr : string) (x224Resp : list byte)
  (certChain : list (option (list byte))) :
  exists der,
    rdcleanpath.Marshal
      (rdcleanpath.mkPdu 3390 rdcleanpath.zeroErr EmptyString EmptyString
         EmptyString EmptyString (Some x224Resp) (Some certChain) remoteAddr)
    = Ok der
    /\ Handle_cleanPathResp Conn WriteMessage w remoteAddr x224Resp certChain
       = (option_map WriteError (fst (WriteMessage (ws Conn w) BinaryMessage der)),
          mkWsReadWriteCloser Conn
            (snd (WriteMessage (ws Conn w) BinaryMessage der)) (r Conn w)).
Proof.
  destruct (rdcleanpath_props.Marshal_NewResp_Ok remoteAddr (Some x224Resp)
              (Some certChain)) as (der & HM).
  exists der. split; [exact HM|].
  unfold Handle_cleanPathResp, rdcleanpath.NewResp.
  change (3389 + 1) with 3390. cbv zeta. rewrite HM. unfold Write.
  destruct (WriteMessage (ws Conn w) BinaryMessage der) as [[e|] ws'];
    reflexivity.
Qed.

End HandleBlocks.

Lemma Handle_cleanPathReq_size_witness :
  exists frame,
    pending
      (r bool
         (mkWsReadWriteCloser bool false
            (mkReader
               [[x30; x1c; xa0; x04];
                [x02; x02; x0d; x3e; xa2; x0b; x13; x09; x68; x6f; x73; x74;
                 x3a; x33; x33; x38; x39; xa6; x07; x04; x05; x03; x00; x00;
                 x05; x01];
                [xff]] io_EOF)))
    = frame
      ++ pending (r bool (mkWsReadWriteCloser bool false (mkReader [[xff]] io_EOF)))
    /\ rdcleanpath.Unmarshal rdcleanpath.refuseForeignString frame
       = Ok (rdcleanpath.mkPdu 3390 rdcleanpath.zeroErr "host:3389" EmptyString
               EmptyString EmptyString (Some [x03; x00; x00; x05; x01]) None
               EmptyString)
    /\ ((length frame < 130)%nat \/ length frame = 517%nat).
Proof.
  apply (Handle_cleanPathReq_size bool rdcleanpath.refuseForeignString).
  vm_compute. reflexivity.
Defined.

Lemma Handle_cleanPathReq_short_witness :
  exists w',
    Handle_cleanPathReq bool rdcleanpath.refuseForeignString
      (mkWsReadWriteCloser bool false
         (mkReader
            [[x30; x1c; xa0; x04];
             [x02; x02; x0d; x3e; xa2; x0b; x13; x09; x68; x6f; x73; x74;
              x3a; x33; x33; x38; x39; xa6; x07; x04; x05; x03; x00; x00;
              x05; x01];
             [xff]] io_EOF))
    = (inr (rdcleanpath.mkPdu 3390 rdcleanpath.zeroErr "host:3389" EmptyString
              EmptyString EmptyString (Some [x03; x00; x00; x05; x01]) None
              EmptyString), w')
    /\ pending (r bool w') = [xff].
Proof.
  apply (Handle_cleanPathReq_short bool rdcleanpath.refuseForeignString
           (mkWsReadWriteCloser bool false
              (mkReader
                 [[x30; x1c; xa0; x04];
                  [x02; x02; x0d; x3e; xa2; x0b; x13; x09; x68; x6f; x73; x74;
                   x3a; x33; x33; x38; x39; xa6; x07; x04; x05; x03; x00; x00;
                   x05; x01];
                  [xff]] io_EOF))
           [x30; x1c; xa0; x04; x02; x02; x0d; x3e; xa2; x0b; x13; x09; x68;
            x6f; x73; x74; x3a; x33; x33; x38; x39; xa6; x07; x04; x05; x03;
            x00; x00; x05; x01]
           [xff]).
  - vm_compute. reflexivity.
  - left. vm_compute. lia.
  - reflexivity.
Defined.

Lemma Handle_cleanPathReq_long_witness :
  rdcleanpath.Unmarshal rdcleanpath.refuseForeignString
    match
      rdcleanpath.Marshal
        (rdcleanpath.mkPdu 3390 rdcleanpath.zeroErr
           "a-very-long-host-name.with-many-labels.in-a-deep-subdomain.of-some-department.of-some-organisation.example.org:3389"
           "a-token-of-thirty-two-characters" EmptyString EmptyString
           (Some [x03; x00; x00; x05; x01]) None EmptyString)
    with
    | Ok b => b
    | Fail _ => []
    end
  = Ok (rdcleanpath.mkPdu 3390 rdcleanpath.zeroErr
          "a-very-long-host-name.with-many-labels.in-a-deep-subdomain.of-some-department.of-some-organisation.example.org:3389"
          "a-token-of-thirty-two-characters" EmptyString EmptyString
          (Some [x03; x00; x00; x05; x01]) None EmptyString)
  /\ (forall (pdu' : rdcleanpath.Pdu) (w' : wsReadWriteCloser bool),
        Handle_cleanPathReq bool rdcleanpath.refuseForeignString
          (mkWsReadWriteCloser bool false
             (mkReader
                [match
                   rdcleanpath.Marshal
                     (rdcleanpath.mkPdu 3390 rdcleanpath.zeroErr
                        "a-very-long-host-name.with-many-labels.in-a-deep-subdomain.of-some-department.of-some-organisation.example.org:3389"
                        "a-token-of-thirty-two-characters" EmptyString EmptyString
                        (Some [x03; x00; x00; x05; x01]) None EmptyString)
                 with
                 | Ok b => b
                 | Fail _ => []
                 end; [xaa; xbb]] io_EOF))
        <> (inr pdu', w')).
Proof.
  split; [vm_compute; reflexivity|].
  apply (Handle_cleanPathReq_long bool rdcleanpath.refuseForeignString
           (mkWsReadWriteCloser bool false
              (mkReader
                 [match
                    rdcleanpath.Marshal
                      (rdcleanpath.mkPdu 3390 rdcleanpath.zeroErr
                         "a-very-long-host-name.with-many-labels.in-a-deep-subdomain.of-some-department.of-some-organisation.example.org:3389"
                         "a-token-of-thirty-two-characters" EmptyString EmptyString
                         (Some [x03; x00; x00; x05; x01]) None EmptyString)
                  with
                  | Ok b => b
                  | Fail _ => []
                  end; [xaa; xbb]] io_EOF))
           match
             rdcleanpath.Marshal
               (rdcleanpath.mkPdu 3390 rdcleanpath.zeroErr
                  "a-very-long-host-name.with-many-labels.in-a-deep-subdomain.of-some-department.of-some-organisation.example.org:3389"
                  "a-token-of-thirty-two-characters" EmptyString EmptyString
                  (Some [x03; x00; x00; x05; x01]) None EmptyString)
           with
           | Ok b => b
           | Fail _ => []
           end
           [xaa; xbb]
           (rdcleanpath.mkPdu 3390 rdcleanpath.zeroErr
              "a-very-long-host-name.with-many-labels.in-a-deep-subdomain.of-some-department.of-some-organisation.example.org:3389"
              "a-token-of-thirty-two-characters" EmptyString EmptyString
              (Some [x03; x00; x00; x05; x01]) None EmptyString)).
  - vm_compute. reflexivity.
  - vm_compute. lia.
  - vm_compute. discriminate.
  - vm_compute. reflexivity.
Defined.

End proxy_props.
